(** * Lead-capture REST API (server.js): a shallow embedding and its properties

    The development follows [src/server.js] top to bottom:

    - [Js]       the JavaScript values and string primitives the handlers use;
    - [Regex]    a small regular-expression matcher (Brzozowski derivatives)
                 in which the e-mail pattern of [isValidEmail] is written;
    - [Validate] [isValidEmail], [isValidPhone], [sanitizeInput];
    - [Num]      [parseInt] and the page arithmetic of the listing;
    - [Store]    the tables of the migration ([leads], [conversoes]) and the
                 Prisma calls the handlers issue, with their error codes;
    - [Prog]     handlers as programs over storage calls (one node per
                 [await]), with [try]/[catch], a sequential runner and a
                 two-request interleaving;
    - [Api]      the six routes under [/api] ([/health] and the 404 of
                 unmatched routes touch no lead and are left out);
    - [Notions]  what the properties are stated with, among which the
                 words of the specification (trimmed, sanitized, digits,
                 valid key, matching leads) defined without the functions
                 of the code;
    - the properties, claim by claim.

    Strings.  A JavaScript string is a sequence of UTF-16 code units.  The
    model uses [string], one [ascii] per code unit, so it covers the strings
    whose code units are below 256 (Latin-1); on that range [trim], [\s],
    [\D] and [toLowerCase] are as defined in [Js].

    Numbers.  A Number is kept as its canonical rendering ([Number::toString]),
    which is all the handlers observe of a request number: its truthiness and
    its string form.  The Numbers computed from [parseInt] are doubles
    without a fractional part: an integer is rounded to the nearest double
    (exact up to 2^53, ties to even beyond, infinite from 2^1024 on). *)

From Stdlib Require Import Bool Arith ZArith Lia List Ascii String.
From Stdlib Require Import Permutation Sorted.
Import ListNotations.

Local Open Scope string_scope.
Local Open Scope list_scope.
Local Open Scope nat_scope.

(* ===================================================================== *)
(** ** JavaScript values and string primitives                            *)
(* ===================================================================== *)

Module Js.

(** The values a body field, a query parameter or a header can take once
    the body parsers have run: absent, [null], a boolean, a number, a string
    or an array of such values.  Object-valued fields are not modelled. *)
#[warnings="-register-all"]
Inductive JsVal : Type :=
| JUndefined
| JNull
| JBool (b : bool)
| JNum (repr : string)
| JStr (s : string)
| JArr (l : list JsVal).

(** [typeof v === 'string'] *)
Definition is_string (v : JsVal) : bool :=
  match v with JStr _ => true | _ => false end.

(** [!v]: the falsy values are [undefined], [null], [false], [0], [-0],
    [NaN] and the empty string.  Both zeros render as ["0"]. *)
Definition falsy (v : JsVal) : bool :=
  match v with
  | JUndefined | JNull => true
  | JBool b => negb b
  | JNum r => String.eqb r "0" || String.eqb r "NaN"
  | JStr s => String.eqb s ""
  | JArr _ => false
  end.

Definition truthy (v : JsVal) : bool := negb (falsy v).

(** [a || b] *)
Definition js_or (a b : JsVal) : JsVal := if truthy a then a else b.

(** [a === b] on request values.  Two arrays are never [===]: every parsed
    array is a fresh object.  Numbers compare by rendering; [NaN] differs
    from itself. *)
Definition strict_eq (a b : JsVal) : bool :=
  match a, b with
  | JUndefined, JUndefined => true
  | JNull, JNull => true
  | JBool x, JBool y => Bool.eqb x y
  | JNum x, JNum y => String.eqb x y && negb (String.eqb x "NaN")
  | JStr x, JStr y => String.eqb x y
  | _, _ => false
  end.

(** [String(v)], as [RegExp.prototype.test] and [parseInt] apply it to a
    non-string argument.  An array is joined with commas, [null] and
    [undefined] elements rendering as the empty string. *)
Fixpoint ToString (v : JsVal) : string :=
  match v with
  | JUndefined => "undefined"
  | JNull => "null"
  | JBool true => "true"
  | JBool false => "false"
  | JNum r => r
  | JStr s => s
  | JArr l =>
      let elem (x : JsVal) : string :=
        match x with
        | JUndefined | JNull => ""
        | _ => ToString x
        end in
      (fix join (l : list JsVal) : string :=
         match l with
         | [] => ""
         | x :: r =>
             match r with
             | [] => elem x
             | _ :: _ => (elem x ++ "," ++ join r)%string
             end
         end) l
  end.

(** *** Characters *)

Definition code (a : ascii) : nat := nat_of_ascii a.

(** White space and line terminators below 256: TAB, LF, VT, FF, CR, SP and
    NBSP.  This is the class [\s] and the set [trim] removes. *)
Definition is_space (a : ascii) : bool :=
  let c := code a in
  ((9 <=? c) && (c <=? 13)) || (c =? 32) || (c =? 160).

(** The class [\d]: the ten ASCII digits. *)
Definition is_digit (a : ascii) : bool :=
  let c := code a in (48 <=? c) && (c <=? 57).

(** [toLowerCase] on one code unit below 256: A-Z and the Latin-1 capitals
    U+00C0..U+00DE (the multiplication sign U+00D7 apart) move up by 32. *)
Definition lower_char (a : ascii) : ascii :=
  let c := code a in
  if ((65 <=? c) && (c <=? 90))
     || ((192 <=? c) && (c <=? 222) && negb (c =? 215))
  then ascii_of_nat (c + 32) else a.

(** *** Strings *)

Fixpoint str_map (f : ascii -> ascii) (s : string) : string :=
  match s with
  | EmptyString => EmptyString
  | String a r => String (f a) (str_map f r)
  end.

Fixpoint str_filter (p : ascii -> bool) (s : string) : string :=
  match s with
  | EmptyString => EmptyString
  | String a r => if p a then String a (str_filter p r) else str_filter p r
  end.

Fixpoint str_forall (p : ascii -> bool) (s : string) : bool :=
  match s with
  | EmptyString => true
  | String a r => p a && str_forall p r
  end.

Definition toLowerCase (s : string) : string := str_map lower_char s.

Fixpoint trimStart (s : string) : string :=
  match s with
  | EmptyString => EmptyString
  | String a r => if is_space a then trimStart r else s
  end.

Fixpoint trimEnd (s : string) : string :=
  match s with
  | EmptyString => EmptyString
  | String a r =>
      match trimEnd r with
      | EmptyString => if is_space a then EmptyString else String a EmptyString
      | r' => String a r'
      end
  end.

(** [s.trim()] *)
Definition trim (s : string) : string := trimEnd (trimStart s).

(** [s.startsWith(p)] *)
Definition startsWith (p s : string) : bool := String.prefix p s.

(** [s.substring(n)] for [0 <= n] *)
Fixpoint substring_from (n : nat) (s : string) : string :=
  match n, s with
  | O, _ => s
  | S n', String _ r => substring_from n' r
  | S _, EmptyString => EmptyString
  end.

(** [s.includes(t)] *)
Fixpoint includes (t s : string) : bool :=
  String.prefix t s ||
  match s with
  | EmptyString => false
  | String _ r => includes t r
  end.

(** No white space anywhere in the string. *)
Definition no_space (s : string) : bool :=
  str_forall (fun a => negb (is_space a)) s.

End Js.
Export Js.

(* ===================================================================== *)
(** ** Regular expressions                                                *)
(* ===================================================================== *)

Module Regex.

(** Character classes are predicates; [Plus] is the [+] quantifier. *)
Inductive re : Type :=
| Void
| Eps
| Cls (p : ascii -> bool)
| Cat (r1 r2 : re)
| Alt (r1 r2 : re)
| Star (r : re).

Definition Plus (r : re) : re := Cat r (Star r).
Definition Chr (c : ascii) : re := Cls (Ascii.eqb c).

Fixpoint nullable (r : re) : bool :=
  match r with
  | Void => false
  | Eps => true
  | Cls _ => false
  | Cat r1 r2 => nullable r1 && nullable r2
  | Alt r1 r2 => nullable r1 || nullable r2
  | Star _ => true
  end.

Fixpoint deriv (c : ascii) (r : re) : re :=
  match r with
  | Void => Void
  | Eps => Void
  | Cls p => if p c then Eps else Void
  | Cat r1 r2 =>
      if nullable r1
      then Alt (Cat (deriv c r1) r2) (deriv c r2)
      else Cat (deriv c r1) r2
  | Alt r1 r2 => Alt (deriv c r1) (deriv c r2)
  | Star r1 => Cat (deriv c r1) (Star r1)
  end.

(** [full_match r s]: the whole of [s] is in the language of [r]; this is
    [/^r$/.test(s)] for a pattern without flags. *)
Fixpoint full_match (r : re) (s : string) : bool :=
  match s with
  | EmptyString => nullable r
  | String c s' => full_match (deriv c r) s'
  end.

(** A syntactic guarantee of an empty language. *)
Fixpoint dead (r : re) : bool :=
  match r with
  | Void => true
  | Eps => false
  | Cls _ => false
  | Cat r1 r2 => dead r1 || dead r2
  | Alt r1 r2 => dead r1 && dead r2
  | Star _ => false
  end.

(** Every class of [r] rejects the characters selected by [bad]. *)
Fixpoint avoids (bad : ascii -> bool) (r : re) : Prop :=
  match r with
  | Void | Eps => True
  | Cls p => forall c, bad c = true -> p c = false
  | Cat r1 r2 | Alt r1 r2 => avoids bad r1 /\ avoids bad r2
  | Star r1 => avoids bad r1
  end.

End Regex.

(* ===================================================================== *)
(** ** Validation (server.js, lines 17-42)                                *)
(* ===================================================================== *)

Module Validate.
Import Regex.

(** The class [[^\s@]]. *)
Definition not_space_at (c : ascii) : bool :=
  negb (is_space c) && negb (Ascii.eqb c "@").

(** [/^[^\s@]+@[^\s@]+\.[^\s@]+$/] *)
Definition email_regex : re :=
  Cat (Plus (Cls not_space_at))
   (Cat (Chr "@")
    (Cat (Plus (Cls not_space_at))
     (Cat (Chr ".")
      (Plus (Cls not_space_at))))).

(** [function isValidEmail(email) { return regex.test(email); }]
    [test] converts its argument with [ToString]. *)
Definition isValidEmail (email : JsVal) : bool :=
  full_match email_regex (ToString email).

(** [phone.replace(/\D/g, '')] *)
Definition strip_non_digits (s : string) : string := str_filter is_digit s.

(** [function isValidPhone(phone)] *)
Definition isValidPhone (phone : JsVal) : bool :=
  if falsy phone || negb (is_string phone) then false
  else
    match phone with
    | JStr p =>
        let cleanPhone := strip_non_digits p in
        if startsWith "55" cleanPhone then
          let phoneWithoutCountry := substring_from 2 cleanPhone in
          (10 <=? String.length phoneWithoutCountry)
          && (String.length phoneWithoutCountry <=? 11)
        else
          (10 <=? String.length cleanPhone) && (String.length cleanPhone <=? 11)
    | _ => false
    end.

(** [str.replace(/[<>]/g, '')] *)
Definition strip_angle (s : string) : string :=
  str_filter (fun c => negb (Ascii.eqb c "<" || Ascii.eqb c ">")) s.

(** [function sanitizeInput(str)] *)
Definition sanitizeInput (str : JsVal) : JsVal :=
  match str with
  | JStr s => JStr (strip_angle (trim s))
  | _ => str
  end.

End Validate.
Export Validate.

(* ===================================================================== *)
(** ** Numbers read from the query string                                 *)
(* ===================================================================== *)

Module Num.

(** The result of [parseInt] and of the arithmetic on it: [NaN], a double
    without fractional part, given by its integer value, or an infinity.
    The two zeros are one value here. *)
Inductive JsInt : Type :=
| NaN
| Int (z : Z)
| Infinity (negative : bool).

(** The integer nearest to [z] among the doubles: [z] itself below 2^53;
    beyond, the 53 leading bits are kept and the rest is rounded, a tie
    going to the even significand. *)
Definition round_to_double (z : Z) : Z :=
  let a := Z.abs z in
  if (a <? 2 ^ 53)%Z then z
  else
    let e := (Z.log2 a - 52)%Z in
    let q := (a / 2 ^ e)%Z in
    let r := (a mod 2 ^ e)%Z in
    let up := (2 ^ (e - 1) <? r)%Z || ((r =? 2 ^ (e - 1))%Z && Z.odd q) in
    (Z.sgn z * ((if up then q + 1 else q) * 2 ^ e))%Z.

(** The Number an integer result becomes: rounded, and infinite when the
    rounded value reaches 2^1024. *)
Definition to_double (z : Z) : JsInt :=
  let r := round_to_double z in
  if (Z.abs r <? 2 ^ 1024)%Z then Int r else Infinity (z <? 0)%Z.

(** Value of a digit in radix 10 or 16. *)
Definition digit_value (radix : Z) (a : ascii) : option Z :=
  let c := Z.of_nat (code a) in
  if ((48 <=? c) && (c <=? 57))%Z then Some (c - 48)%Z
  else if (radix =? 16)%Z && ((97 <=? c) && (c <=? 102))%Z then Some (c - 87)%Z
  else if (radix =? 16)%Z && ((65 <=? c) && (c <=? 70))%Z then Some (c - 55)%Z
  else None.

(** The longest prefix of digits, read left to right; [None] when there is
    no digit at all. *)
Fixpoint read_digits (radix : Z) (acc : option Z) (s : string) : option Z :=
  match s with
  | EmptyString => acc
  | String a r =>
      match digit_value radix a with
      | Some d =>
          read_digits radix
            (Some (match acc with Some n => n * radix + d | None => d end)%Z) r
      | None => acc
      end
  end.

(** [parseInt(v)] with no radix argument: [ToString], leading white space
    dropped, an optional sign, an optional [0x]/[0X] prefix selecting
    radix 16, then the longest run of digits; the Number is the double
    nearest to the integer the digits write. *)
Definition parseInt (v : JsVal) : JsInt :=
  let s := trimStart (ToString v) in
  let '(sign, s1) :=
    match s with
    | String "-" r => ((-1)%Z, r)
    | String "+" r => (1%Z, r)
    | _ => (1%Z, s)
    end in
  let '(radix, s2) :=
    match s1 with
    | String "0" (String "x" r) => (16%Z, r)
    | String "0" (String "X" r) => (16%Z, r)
    | _ => (10%Z, s1)
    end in
  match read_digits radix None s2 with
  | Some n => to_double (sign * n)
  | None => NaN
  end.

(** [a - b] *)
Definition js_sub (a b : JsInt) : JsInt :=
  match a, b with
  | NaN, _ | _, NaN => NaN
  | Int x, Int y => to_double (x - y)
  | Infinity n, Int _ => Infinity n
  | Int _, Infinity n => Infinity (negb n)
  | Infinity n, Infinity m => if Bool.eqb n m then NaN else Infinity n
  end.

(** [a * b] *)
Definition js_mul (a b : JsInt) : JsInt :=
  match a, b with
  | NaN, _ | _, NaN => NaN
  | Int x, Int y => to_double (x * y)
  | Infinity n, Int y | Int y, Infinity n =>
      if (y =? 0)%Z then NaN else Infinity (xorb n (y <? 0)%Z)
  | Infinity n, Infinity m => Infinity (xorb n m)
  end.

(** [Math.ceil(total / limit)] as it appears in the JSON response, where
    [NaN] and the infinities are written [null] ([None]).  [total] is a row
    count, below 2^53; the quotient of a count by an integer double is never
    rounded across an integer, so its ceiling is that of the exact
    quotient; a count divided by an infinity is zero. *)
Definition ceil_div (total : Z) (limit : JsInt) : option Z :=
  match limit with
  | NaN => None
  | Int l => if (l =? 0)%Z then None else Some (- ((- total) / l))%Z
  | Infinity _ => Some 0%Z
  end.

(** A number field of the JSON response: [NaN] and the infinities are
    written [null]. *)
Definition to_json (n : JsInt) : option Z :=
  match n with Int z => Some z | NaN | Infinity _ => None end.

End Num.
Export Num.

(* ===================================================================== *)
(** ** The store: tables of the migration and the Prisma calls            *)
(* ===================================================================== *)

Module Store.

(** Row of table [leads]. *)
Record Lead : Type := mkLead {
  id : string;
  nome : string;
  email : string;
  telefone : string;
  origem : option string;
  status : string;
  utmSource : option string;
  utmMedium : option string;
  utmCampaign : option string;
  utmContent : option string;
  utmTerm : option string;
  ip : option string;
  userAgent : option string;
  referer : option string;
  dataCaptura : Z;
  dataAtualizacao : Z
}.

(** A [DOUBLE PRECISION] value is kept symbolic: the double that
    [parseFloat] returns on the given request value. *)
Inductive Double : Type :=
| ParseFloat (v : JsVal).

(** Row of table [conversoes]. *)
Record Conversao : Type := mkConversao {
  c_id : string;
  leadId : string;
  tipo : string;
  valor : option Double;
  descricao : option string;
  dataConversao : Z
}.

Record DB : Type := mkDB {
  leads : list Lead;
  conversoes : list Conversao
}.

Definition empty_db : DB := mkDB [] [].

(** Errors of the Prisma client, by what [error.code] shows of them. *)
Inductive PrismaError : Type :=
| P2002            (* unique constraint failed *)
| P2025            (* record required by the operation not found *)
| ValidationError  (* argument refused by the client; no [code] *)
| StoreFailure.    (* any other failure of the store *)

Definition result (A : Type) : Type := (PrismaError + A)%type.

(** What the outside world contributes to one storage call: whether the
    store rejects it (connection lost, statement aborted), the identifier
    the client generates for a new row, the time of the call, and what a
    [findMany] settles to when its [skip] or [take] is not a non-negative
    32-bit integer, which this development leaves to the client and the
    store. *)
Record CallEnv : Type := mkCallEnv {
  reject : bool;
  fresh_id : string;
  now : Z;
  out_of_range : result (list Lead)
}.

(** Arguments of [prisma.lead.create]. *)
Record LeadCreateInput : Type := mkLeadCreateInput {
  in_nome : string;
  in_email : string;
  in_telefone : string;
  in_origem : JsVal;
  in_utmSource : JsVal;
  in_utmMedium : JsVal;
  in_utmCampaign : JsVal;
  in_utmContent : JsVal;
  in_utmTerm : JsVal;
  in_ip : option string;
  in_userAgent : option string;
  in_referer : option string;
  in_status : string
}.

(** Arguments of [prisma.conversao.create]. *)
Record ConversaoCreateInput : Type := mkConversaoCreateInput {
  in_leadId : string;
  in_tipo : JsVal;
  in_valor : option Double;
  in_descricao : JsVal
}.

(** The [where] object of [findMany] and [count] in the listing: a property
    is present when the handler assigned it. *)
Record Where : Type := mkWhere {
  w_status : option JsVal;
  w_origem : option JsVal;
  w_search : option JsVal
}.

Inductive GroupField : Type := ByStatus | ByOrigem | ByUtmSource.

(** A value given for a nullable [TEXT] column: a string, [null], or absent
    (the column default applies); anything else is refused by the client. *)
Definition opt_text (dflt : option string) (v : JsVal) : option (option string) :=
  match v with
  | JStr s => Some (Some s)
  | JNull => Some None
  | JUndefined => Some dflt
  | _ => None
  end.

(** A value given for a [TEXT NOT NULL] column without default. *)
Definition req_text (v : JsVal) : option string :=
  match v with JStr s => Some s | _ => None end.

Definition find_lead_by_email (e : string) (d : DB) : option Lead :=
  find (fun l => String.eqb (email l) e) (leads d).

Definition find_lead_by_id (i : string) (d : DB) : option Lead :=
  find (fun l => String.eqb (id l) i) (leads d).

(** [prisma.lead.findUnique({ where: { email } })] *)
Definition lead_findUnique_email (e : string) (env : CallEnv) (d : DB)
  : result (option Lead) * DB :=
  if reject env then (inl StoreFailure, d) else (inr (find_lead_by_email e d), d).

(** [prisma.lead.findUnique({ where: { id } })] *)
Definition lead_findUnique_id (i : string) (env : CallEnv) (d : DB)
  : result (option Lead) * DB :=
  if reject env then (inl StoreFailure, d) else (inr (find_lead_by_id i d), d).

(** The row [prisma.lead.create] would insert, when the client accepts the
    arguments.  [origem] has the column default ['website']. *)
Definition lead_of_input (i : LeadCreateInput) (env : CallEnv) : option Lead :=
  match opt_text (Some "website") (in_origem i),
        opt_text None (in_utmSource i), opt_text None (in_utmMedium i),
        opt_text None (in_utmCampaign i), opt_text None (in_utmContent i),
        opt_text None (in_utmTerm i) with
  | Some o, Some us, Some um, Some uc, Some uo, Some ut =>
      Some (mkLead (fresh_id env) (in_nome i) (in_email i) (in_telefone i) o
              (in_status i) us um uc uo ut
              (in_ip i) (in_userAgent i) (in_referer i) (now env) (now env))
  | _, _, _, _, _, _ => None
  end.

(** [prisma.lead.create({ data })]: the primary key [leads_pkey] and the
    unique index [leads_email_key] are checked by the store; a new row goes
    after the existing ones. *)
Definition lead_create (i : LeadCreateInput) (env : CallEnv) (d : DB)
  : result Lead * DB :=
  match lead_of_input i env with
  | None => (inl ValidationError, d)
  | Some l =>
      if reject env then (inl StoreFailure, d)
      else
        match find_lead_by_id (id l) d, find_lead_by_email (email l) d with
        | None, None => (inr l, mkDB (leads d ++ [l]) (conversoes d))
        | _, _ => (inl P2002, d)
        end
  end.

Definition set_status (st : string) (t : Z) (l : Lead) : Lead :=
  mkLead (id l) (nome l) (email l) (telefone l) (origem l) st
         (utmSource l) (utmMedium l) (utmCampaign l) (utmContent l) (utmTerm l)
         (ip l) (userAgent l) (referer l) (dataCaptura l) t.

(** [prisma.lead.update({ where: { id }, data: { status } })]: the row of
    that identifier gets the status, and [data_atualizacao] is refreshed on
    every update; [P2025] when there is no such row. *)
Definition lead_update_status (i st : string) (env : CallEnv) (d : DB)
  : result Lead * DB :=
  if reject env then (inl StoreFailure, d)
  else
    match find_lead_by_id i d with
    | None => (inl P2025, d)
    | Some l =>
        (inr (set_status st (now env) l),
         mkDB (map (fun x => if String.eqb (id x) i
                             then set_status st (now env) x else x) (leads d))
              (conversoes d))
    end.

(** [prisma.conversao.create({ data })].  Table [conversoes] carries no
    foreign key to [leads]: only its primary key is checked. *)
Definition conversao_create (i : ConversaoCreateInput) (env : CallEnv) (d : DB)
  : result Conversao * DB :=
  match req_text (in_tipo i), opt_text None (in_descricao i) with
  | Some t, Some ds =>
      if reject env then (inl StoreFailure, d)
      else
        let c := mkConversao (fresh_id env) (in_leadId i) t (in_valor i) ds
                             (now env) in
        if existsb (fun x => String.eqb (c_id x) (c_id c)) (conversoes d)
        then (inl P2002, d)
        else (inr c, mkDB (leads d) (conversoes d ++ [c]))
  | _, _ => (inl ValidationError, d)
  end.

(** *** Filters, ordering and slices of [findMany] *)

(** A [LIKE] pattern read left to right: [%] stands for any run of
    characters, [_] for any one character, and a backslash takes the
    character after it literally.  The store refuses a pattern that ends
    with a lone backslash; the patterns of [contains] end with [%], so the
    case does not arise, and [like_pattern] reads that backslash as
    itself. *)
Inductive LikeItem : Type :=
| AnyRun
| AnyChar
| Lit (a : ascii).

Fixpoint like_pattern (s : string) : list LikeItem :=
  match s with
  | EmptyString => []
  | String a r =>
      if Ascii.eqb a "%" then AnyRun :: like_pattern r
      else if Ascii.eqb a "_" then AnyChar :: like_pattern r
      else if code a =? 92 then   (* the backslash *)
        match r with
        | String b r' => Lit b :: like_pattern r'
        | EmptyString => [Lit a]
        end
      else Lit a :: like_pattern r
  end.

(** [field ILIKE pattern]: the whole of [field] matches, letters compared
    without regard to case. *)
Fixpoint ilike (p : list LikeItem) : string -> bool :=
  match p with
  | [] => fun s => match s with EmptyString => true | String _ _ => false end
  | AnyChar :: q =>
      fun s => match s with String _ r => ilike q r | EmptyString => false end
  | Lit a :: q =>
      fun s =>
        match s with
        | String b r => Ascii.eqb (lower_char a) (lower_char b) && ilike q r
        | EmptyString => false
        end
  | AnyRun :: q =>
      fix run (s : string) : bool :=
        ilike q s
        || match s with String _ r => run r | EmptyString => false end
  end.

(** [{ contains: s, mode: 'insensitive' }]: the client sends
    [field ILIKE '%' || s || '%'] with [s] as given, so a [%], a [_] or a
    backslash in [s] acts as in any pattern. *)
Definition contains_insensitive (s field : string) : bool :=
  ilike (like_pattern ("%" ++ s ++ "%")%string) field.

(** The filter a [where] object denotes, when the client accepts it. *)
Definition where_filter (w : Where) : option (Lead -> bool) :=
  let st :=
    match w_status w with
    | None => Some (fun _ : Lead => true)
    | Some (JStr s) => Some (fun l => String.eqb (status l) s)
    | Some _ => None
    end in
  let og :=
    match w_origem w with
    | None => Some (fun _ : Lead => true)
    | Some (JStr s) =>
        Some (fun l => match origem l with Some o => String.eqb o s | None => false end)
    | Some JNull =>
        Some (fun l => match origem l with Some _ => false | None => true end)
    | Some _ => None
    end in
  let sr :=
    match w_search w with
    | None => Some (fun _ : Lead => true)
    | Some (JStr s) =>
        Some (fun l => contains_insensitive s (nome l)
                       || contains_insensitive s (email l))
    | Some _ => None
    end in
  match st, og, sr with
  | Some f, Some g, Some h => Some (fun l => f l && g l && h l)
  | _, _, _ => None
  end.

(** [orderBy: { dataCaptura: 'desc' }]: insertion of a row before the first
    row that is not more recent; rows of equal time keep their table order. *)
Fixpoint insert_desc (x : Lead) (l : list Lead) : list Lead :=
  match l with
  | [] => [x]
  | y :: r =>
      if (dataCaptura x <? dataCaptura y)%Z then y :: insert_desc x r
      else x :: y :: r
  end.

Fixpoint order_desc (l : list Lead) : list Lead :=
  match l with
  | [] => []
  | x :: r => insert_desc x (order_desc r)
  end.


(** A non-negative 32-bit integer. *)
Definition is_int32 (z : Z) : bool := ((0 <=? z) && (z <=? 2147483647))%Z.

(** [skip] and [take], when both are non-negative 32-bit integers: [take]
    rows after the first [skip] of the ordered rows. *)
Definition slice (skip take : JsInt) (rows : list Lead) : option (list Lead) :=
  match skip, take with
  | Int s, Int t =>
      if is_int32 s && is_int32 t
      then Some (firstn (Z.to_nat t) (skipn (Z.to_nat s) rows))
      else None
  | _, _ => None
  end.

(** [prisma.lead.findMany({ where, skip, take, orderBy, select })].  The
    selected columns are a projection applied in the response.  With a
    [skip] or [take] that [slice] does not cover, the call settles to what
    the environment says. *)
Definition lead_findMany (w : Where) (skip take : JsInt) (env : CallEnv) (d : DB)
  : result (list Lead) * DB :=
  match where_filter w with
  | None => (inl ValidationError, d)
  | Some f =>
      match slice skip take (order_desc (filter f (leads d))) with
      | None => (out_of_range env, d)
      | Some rows =>
          if reject env then (inl StoreFailure, d) else (inr rows, d)
      end
  end.

(** [prisma.lead.count({ where })] *)
Definition lead_count (w : Where) (env : CallEnv) (d : DB) : result Z * DB :=
  match where_filter w with
  | None => (inl ValidationError, d)
  | Some f =>
      if reject env then (inl StoreFailure, d)
      else (inr (Z.of_nat (List.length (filter f (leads d)))), d)
  end.

(** [prisma.lead.count({ where: { dataCaptura: { gte: t } } })] *)
Definition lead_count_since (t : Z) (env : CallEnv) (d : DB) : result Z * DB :=
  if reject env then (inl StoreFailure, d)
  else (inr (Z.of_nat (List.length
               (filter (fun l => (t <=? dataCaptura l)%Z) (leads d)))), d).

(** The column a [groupBy] groups on; [status] is never [NULL]. *)
Definition group_key (g : GroupField) (l : Lead) : option string :=
  match g with
  | ByStatus => Some (status l)
  | ByOrigem => origem l
  | ByUtmSource => utmSource l
  end.

Definition opt_string_eqb (a b : option string) : bool :=
  match a, b with
  | Some x, Some y => String.eqb x y
  | None, None => true
  | _, _ => false
  end.

(** One entry per distinct key, in order of first appearance, with the
    [_count] of the grouped column, which counts its non-null values. *)
Fixpoint bump (k : option string) (acc : list (option string * Z))
  : list (option string * Z) :=
  let one := match k with Some _ => 1%Z | None => 0%Z end in
  match acc with
  | [] => [(k, one)]
  | (k', n) :: r =>
      if opt_string_eqb k k' then (k', (n + one)%Z) :: r
      else (k', n) :: bump k r
  end.

Definition group_count (keys : list (option string)) : list (option string * Z) :=
  fold_left (fun acc k => bump k acc) keys [].

(** [prisma.lead.groupBy({ by: [g], _count: { g: true } })], with
    [where: { g: { not: null } }] when [not_null] is set. *)
Definition lead_groupBy (g : GroupField) (not_null : bool) (env : CallEnv) (d : DB)
  : result (list (option string * Z)) * DB :=
  if reject env then (inl StoreFailure, d)
  else
    let keys := map (group_key g) (leads d) in
    let keys := if not_null
                then filter (fun k => match k with Some _ => true | None => false end) keys
                else keys in
    (inr (group_count keys), d).

End Store.
Export Store.

(* ===================================================================== *)
(** ** Handlers as programs over storage calls                            *)
(* ===================================================================== *)

Module Prog.

(** The storage calls of server.js. *)
Inductive Op : Type :=
| LeadFindUniqueEmail (e : string)
| LeadFindUniqueId (i : string)
| LeadCreate (data : LeadCreateInput)
| LeadUpdateStatus (i : string) (st : JsVal)
| LeadFindMany (w : Where) (skip take : JsInt)
| LeadCount (w : Where)
| LeadCountSince (t : Z)
| LeadGroupBy (g : GroupField) (not_null : bool)
| ConversaoCreate (data : ConversaoCreateInput).

(** What a call resolves to. *)
Definition Ans (op : Op) : Type :=
  match op with
  | LeadFindUniqueEmail _ | LeadFindUniqueId _ => option Lead
  | LeadCreate _ | LeadUpdateStatus _ _ => Lead
  | LeadFindMany _ _ _ => list Lead
  | LeadCount _ | LeadCountSince _ => Z
  | LeadGroupBy _ _ => list (option string * Z)
  | ConversaoCreate _ => Conversao
  end.

(** One call against the store.  [data: { status }] of an update is checked
    by the client like any [TEXT NOT NULL] value. *)
Definition exec (op : Op) (env : CallEnv) (d : DB) : result (Ans op) * DB :=
  match op return result (Ans op) * DB with
  | LeadFindUniqueEmail e => lead_findUnique_email e env d
  | LeadFindUniqueId i => lead_findUnique_id i env d
  | LeadCreate data => lead_create data env d
  | LeadUpdateStatus i st =>
      match req_text st with
      | Some s => lead_update_status i s env d
      | None => (inl ValidationError, d)
      end
  | LeadFindMany w skip take => lead_findMany w skip take env d
  | LeadCount w => lead_count w env d
  | LeadCountSince t => lead_count_since t env d
  | LeadGroupBy g nn => lead_groupBy g nn env d
  | ConversaoCreate data => conversao_create data env d
  end.

(** What a [catch] clause can receive. *)
Inductive JsError : Type :=
| PrismaErr (e : PrismaError)
| TypeError.

(** [error.code === c] for the two codes the handlers test. *)
Definition is_P2002 (e : JsError) : bool :=
  match e with PrismaErr P2002 => true | _ => false end.

Definition is_P2025 (e : JsError) : bool :=
  match e with PrismaErr P2025 => true | _ => false end.

(** An [async] body: it returns, throws, or issues a storage call and goes
    on with what the call settles to. *)
Inductive Prog (A : Type) : Type :=
| Ret (a : A)
| Throw (e : JsError)
| Call (op : Op) (k : result (Ans op) -> Prog A).

Arguments Ret {A} a.
Arguments Throw {A} e.
Arguments Call {A} op k.

Fixpoint bind {A B} (p : Prog A) (f : A -> Prog B) : Prog B :=
  match p with
  | Ret a => f a
  | Throw e => Throw e
  | Call op k => Call op (fun r => bind (k r) f)
  end.

(** [try { p } catch (error) { h error }] *)
Fixpoint try_catch {A} (p : Prog A) (h : JsError -> Prog A) : Prog A :=
  match p with
  | Ret a => Ret a
  | Throw e => h e
  | Call op k => Call op (fun r => try_catch (k r) h)
  end.

(** Issue a call and obtain the settled promise. *)
Definition start (op : Op) : Prog (result (Ans op)) := Call op Ret.

(** [await] on a settled promise: its value, or its rejection thrown. *)
Definition settle {A} (r : result A) : Prog A :=
  match r with
  | inl e => Throw (PrismaErr e)
  | inr a => Ret a
  end.

(** [await prisma.<model>.<call>(...)] *)
Definition prisma (op : Op) : Prog (Ans op) := bind (start op) settle.

(** A string method called on a request value: a [TypeError] unless the
    value is a string. *)
Definition str_method (f : string -> string) (v : JsVal) : Prog string :=
  match v with
  | JStr s => Ret (f s)
  | _ => Throw TypeError
  end.

Declare Scope prog_scope.
Delimit Scope prog_scope with prog.
Notation "x <- p ;; q" := (bind p (fun x => q))
  (at level 61, p at next level, right associativity) : prog_scope.

(** *** Running a program *)

(** The environment of the successive storage calls of one request. *)
Definition Oracle : Type := nat -> CallEnv.

Definition shift (o : Oracle) : Oracle := fun n => o (S n).

(** One request run to completion with no other request in between. *)
Fixpoint run {A} (p : Prog A) (o : Oracle) (d : DB) : (JsError + A) * DB :=
  match p with
  | Ret a => (inr a, d)
  | Throw e => (inl e, d)
  | Call op k =>
      let '(r, d') := exec op (o 0) d in
      run (k r) (shift o) d'
  end.

(** One storage call of a pending request. *)
Definition step {A} (p : Prog A) (env : CallEnv) (d : DB) : Prog A * DB :=
  match p with
  | Call op k => let '(r, d') := exec op env d in (k r, d')
  | _ => (p, d)
  end.

(** Two requests in flight: [sched] says, call after call, which of the two
    performs its next storage call; when it is exhausted the first request
    is completed, then the second. *)
Fixpoint interleave {A B} (sched : list bool) (p : Prog A) (op_ : Oracle)
    (q : Prog B) (oq : Oracle) (d : DB)
  : (JsError + A) * (JsError + B) * DB :=
  match sched with
  | [] =>
      let '(ra, d1) := run p op_ d in
      let '(rb, d2) := run q oq d1 in
      (ra, rb, d2)
  | true :: sched' =>
      let '(p', d') := step p (op_ 0) d in
      interleave sched' p' (match p with Call _ _ => shift op_ | _ => op_ end) q oq d'
  | false :: sched' =>
      let '(q', d') := step q (oq 0) d in
      interleave sched' p op_ q' (match q with Call _ _ => shift oq | _ => oq end) d'
  end.

(** The storage calls a program can still issue all satisfy [P]. *)
Fixpoint calls_satisfy {A} (P : Op -> Prop) (p : Prog A) : Prop :=
  match p with
  | Call op k => P op /\ forall r, calls_satisfy P (k r)
  | _ => True
  end.

(** The program issues no storage call. *)
Definition pure {A} (p : Prog A) : Prop :=
  match p with Call _ _ => False | _ => True end.

(** Every value the program can return satisfies [P]. *)
Fixpoint returns_satisfy {A} (P : A -> Prop) (p : Prog A) : Prop :=
  match p with
  | Ret a => P a
  | Throw _ => True
  | Call op k => forall r, returns_satisfy P (k r)
  end.

(** No exception escapes the program. *)
Fixpoint never_throws {A} (p : Prog A) : Prop :=
  match p with
  | Ret _ => True
  | Throw _ => False
  | Call op k => forall r, never_throws (k r)
  end.

End Prog.
Export Prog.

(* ===================================================================== *)
(** ** The route handlers (server.js, lines 71-537)                       *)
(* ===================================================================== *)

Module Api.
Local Open Scope prog_scope.

(** [process.env] *)
Record Config : Type := mkConfig {
  API_KEY : option string
}.

(** What a handler reads of [req], and of the clock while it builds its
    queries: [Date.now()] and the local midnight of the current day. *)
Record Request : Type := mkRequest {
  body : string -> JsVal;
  query : string -> JsVal;
  params : string -> string;
  header : string -> option string;
  req_ip : option string;
  date_now : Z;
  local_midnight : Z
}.

(** The columns [select] keeps in the listing. *)
Record LeadRow : Type := mkLeadRow {
  r_id : string;
  r_nome : string;
  r_email : string;
  r_telefone : string;
  r_origem : option string;
  r_status : string;
  r_utmSource : option string;
  r_utmMedium : option string;
  r_utmCampaign : option string;
  r_dataCaptura : Z;
  r_dataAtualizacao : Z;
  r_ip : option string
}.

Definition select_row (l : Lead) : LeadRow :=
  mkLeadRow (id l) (nome l) (email l) (telefone l) (origem l) (status l)
            (utmSource l) (utmMedium l) (utmCampaign l)
            (dataCaptura l) (dataAtualizacao l) (ip l).

(** The JSON bodies the handlers send.  Message texts are carried as the
    source writes them and take part in no string operation. *)
Inductive ResBody : Type :=
| Failure (message code : string) (dataAnterior : option Z)
| LeadCaptured (message : string) (id_ nome_ email_ : string) (dataCaptura_ : Z)
| LeadList (data : list LeadRow) (total : Z) (page limit totalPages : option Z)
           (filters : JsVal * JsVal * JsVal)
| LeadFound (data : Lead)
| StatusUpdated (message : string) (data : Lead)
| Stats (total hoje semana mes : Z)
        (porStatus porOrigem porUtmSource : list (string * Z))
| ConversaoRegistered (message : string) (data : Conversao).

Record Response : Type := mkResponse {
  http_status : nat;
  json : ResBody
}.

Definition failure (st : nat) (message code_ : string) : Response :=
  mkResponse st (Failure message code_ None).

(** [value || null] on a header. *)
Definition or_null (h : option string) : option string :=
  match h with
  | Some EmptyString => None
  | _ => h
  end.

(** [v.length] where it is defined: strings and arrays. *)
Definition js_length (v : JsVal) : option nat :=
  match v with
  | JStr s => Some (String.length s)
  | JArr l => Some (List.length l)
  | _ => None
  end.

(** [v.length < n]; the comparison is false when [v.length] is
    [undefined]. *)
Definition length_lt (n : nat) (v : JsVal) : bool :=
  match js_length v with
  | Some k => k <? n
  | None => false
  end.

(** The value of [process.env.API_KEY]. *)
Definition env_API_KEY (cfg : Config) : JsVal :=
  match API_KEY cfg with
  | Some s => JStr s
  | None => JUndefined
  end.

(** [key !== process.env.API_KEY && key !== 'mente-milionaria-2024'] *)
Definition unauthorized (cfg : Config) (key : JsVal) : bool :=
  negb (strict_eq key (env_API_KEY cfg))
  && negb (strict_eq key (JStr "mente-milionaria-2024")).

Definition res_unauthorized : Response :=
  failure 401 "Acesso não autorizado" "UNAUTHORIZED".

Definition res_internal_error : Response :=
  failure 500 "Erro interno do servidor" "INTERNAL_ERROR".

Definition res_lead_not_found : Response :=
  failure 404 "Lead não encontrado" "LEAD_NOT_FOUND".

(** *** POST /api/leads *)

(** The [data] object of [prisma.lead.create]. *)
Definition lead_data (req : Request) (nome email telefone : string)
    (origem : JsVal) : LeadCreateInput :=
  {| in_nome := nome;
     in_email := email;
     in_telefone := telefone;
     in_origem := js_or origem (JStr "website");
     in_utmSource := js_or (body req "utm_source") JNull;
     in_utmMedium := js_or (body req "utm_medium") JNull;
     in_utmCampaign := js_or (body req "utm_campaign") JNull;
     in_utmContent := js_or (body req "utm_content") JNull;
     in_utmTerm := js_or (body req "utm_term") JNull;
     in_ip := req_ip req;
     in_userAgent := or_null (header req "User-Agent");
     in_referer := or_null (header req "Referer");
     in_status := "novo" |}.

(** The [try] block from the look-up of an existing lead on: the answer of
    [findUnique] decides between the 409 and the insertion. *)
Definition post_leads_insert (req : Request) (nome email telefone origem : JsVal)
    (existingLead : option Lead) : Prog Response :=
  match existingLead with
  | Some l =>
      Ret (mkResponse 409
             (Failure "Este email já está cadastrado" "EMAIL_EXISTS"
                      (Some (dataCaptura l))))
  | None =>
      nome' <- str_method trim nome ;;
      email' <- str_method (fun e => trim (toLowerCase e)) email ;;
      telefone' <- str_method trim telefone ;;
      newLead <- prisma (LeadCreate
                           (lead_data req nome' email' telefone' origem)) ;;
      Ret (mkResponse 201
             (LeadCaptured
                "Lead capturado com sucesso! Entraremos em contato em breve."
                (Store.id newLead) (Store.nome newLead) (Store.email newLead)
                (dataCaptura newLead)))
  end.

(** The body of the [try] block. *)
Definition post_leads_body (req : Request) : Prog Response :=
  let nome := sanitizeInput (body req "nome") in
  let email := sanitizeInput (body req "email") in
  let telefone := sanitizeInput (body req "telefone") in
  let origem := sanitizeInput (body req "origem") in
  if falsy nome || falsy email || falsy telefone then
    Ret (failure 400 "Nome, email e telefone são obrigatórios" "MISSING_FIELDS")
  else if length_lt 2 nome then
    Ret (failure 400 "Nome deve ter pelo menos 2 caracteres" "INVALID_NAME")
  else if negb (isValidEmail email) then
    Ret (failure 400 "Email inválido" "INVALID_EMAIL")
  else if negb (isValidPhone telefone) then
    Ret (failure 400 "Telefone inválido" "INVALID_PHONE")
  else
    lookup_key <- str_method toLowerCase email ;;
    existingLead <- prisma (LeadFindUniqueEmail lookup_key) ;;
    post_leads_insert req nome email telefone origem existingLead.

(** The [catch] clause. *)
Definition post_leads_catch (error : JsError) : Prog Response :=
  if is_P2002 error then
    Ret (failure 409 "Email já cadastrado" "EMAIL_EXISTS")
  else Ret res_internal_error.

Definition post_leads (req : Request) : Prog Response :=
  try_catch (post_leads_body req) post_leads_catch.

(** The four validations of the handler, on the sanitized fields. *)
Definition missing_fields (req : Request) : bool :=
  falsy (sanitizeInput (body req "nome"))
  || falsy (sanitizeInput (body req "email"))
  || falsy (sanitizeInput (body req "telefone")).

Definition invalid_name (req : Request) : bool :=
  length_lt 2 (sanitizeInput (body req "nome")).

Definition invalid_email (req : Request) : bool :=
  negb (isValidEmail (sanitizeInput (body req "email"))).

Definition invalid_phone (req : Request) : bool :=
  negb (isValidPhone (sanitizeInput (body req "telefone"))).

(** All four validations pass. *)
Definition validated (req : Request) : bool :=
  negb (missing_fields req) && negb (invalid_name req)
  && negb (invalid_email req) && negb (invalid_phone req).

(** *** GET /api/leads *)

(** A destructuring default: [{ page = 1 }]. *)
Definition with_default (dflt v : JsVal) : JsVal :=
  match v with JUndefined => dflt | _ => v end.

(** [if (v) where.f = v] *)
Definition if_set (v : JsVal) : option JsVal :=
  if truthy v then Some v else None.

(** [Promise.all] of two calls: both are issued, then awaited. *)
Definition promise_all2 (a b : Op) : Prog (Ans a * Ans b) :=
  ra <- start a ;;
  rb <- start b ;;
  x <- settle ra ;;
  y <- settle rb ;;
  Ret (x, y).

Definition get_leads (cfg : Config) (req : Request) : Prog Response :=
  try_catch
    (let key := query req "key" in
     let page := with_default (JNum "1") (query req "page") in
     let limit := with_default (JNum "20") (query req "limit") in
     let status := query req "status" in
     let search := query req "search" in
     let origem := query req "origem" in
     if unauthorized cfg key then Ret res_unauthorized
     else
       let where_ := mkWhere (if_set status) (if_set origem) (if_set search) in
       let skip := js_mul (js_sub (parseInt page) (Int 1)) (parseInt limit) in
       let take := parseInt limit in
       both <- promise_all2 (LeadFindMany where_ skip take) (LeadCount where_) ;;
       let '(leads_, total) := both in
       Ret (mkResponse 200
              (LeadList (map select_row leads_) total
                        (to_json (parseInt page)) (to_json (parseInt limit))
                        (ceil_div total (parseInt limit))
                        (status, search, origem))))
    (fun _ => Ret res_internal_error).

(** *** GET /api/leads/:id *)

Definition get_lead (cfg : Config) (req : Request) : Prog Response :=
  try_catch
    (let id_ := params req "id" in
     let key := query req "key" in
     if unauthorized cfg key then Ret res_unauthorized
     else
       lead <- prisma (LeadFindUniqueId id_) ;;
       match lead with
       | None => Ret res_lead_not_found
       | Some l => Ret (mkResponse 200 (LeadFound l))
       end)
    (fun _ => Ret res_internal_error).

(** *** PATCH /api/leads/:id/status *)

Definition validStatuses : list string :=
  ["novo"; "contatado"; "interessado"; "convertido"; "descartado"].

(** [validStatuses.includes(status)] *)
Definition valid_status (status_ : JsVal) : bool :=
  existsb (fun s => strict_eq (JStr s) status_) validStatuses.

(** [validStatuses.join(', ')] *)
Definition join_statuses : string :=
  String.concat ", " validStatuses.

Definition patch_status (cfg : Config) (req : Request) : Prog Response :=
  try_catch
    (let id_ := params req "id" in
     let key := query req "key" in
     let status_ := body req "status" in
     if unauthorized cfg key then Ret res_unauthorized
     else if negb (valid_status status_) then
       Ret (failure 400 ("Status inválido. Use: " ++ join_statuses)%string
                    "INVALID_STATUS")
     else
       updatedLead <- prisma (LeadUpdateStatus id_ status_) ;;
       Ret (mkResponse 200
              (StatusUpdated "Status atualizado com sucesso" updatedLead)))
    (fun error =>
       if is_P2025 error then Ret res_lead_not_found
       else Ret res_internal_error).

(** *** GET /api/stats *)

(** [acc[k] = v] for a property the object holds or can take: the value is
    replaced in place, or the property is added last. *)
Fixpoint set_prop (k : string) (v : Z) (o : list (string * Z)) : list (string * Z) :=
  match o with
  | [] => [(k, v)]
  | (k', v') :: r =>
      if String.eqb k k' then (k', v) :: r else (k', v') :: set_prop k v r
  end.

(** [acc[k] = v] on the object literal a [reduce] builds, with [v] a number;
    a [null] key is the property ["null"].  The key [__proto__] is the
    accessor inherited from [Object.prototype]: its setter ignores a value
    that is not an object, and the object gets no property. *)
Definition obj_set (k : string) (v : Z) (o : list (string * Z)) : list (string * Z) :=
  if String.eqb k "__proto__" then o else set_prop k v o.

Definition key_string (k : option string) : string :=
  match k with Some s => s | None => "null" end.

(** [groups.reduce((acc, item) => { acc[item.f] = item._count.f; return acc }, {})] *)
Definition reduce_counts (groups : list (option string * Z)) : list (string * Z) :=
  fold_left (fun acc item => obj_set (key_string (fst item)) (snd item) acc)
            groups [].

Definition get_stats (cfg : Config) (req : Request) : Prog Response :=
  try_catch
    (let key := query req "key" in
     if unauthorized cfg key then Ret res_unauthorized
     else
       r1 <- start (LeadCount (mkWhere None None None)) ;;
       r2 <- start (LeadCountSince (local_midnight req)) ;;
       r3 <- start (LeadCountSince (date_now req - 7 * 24 * 60 * 60 * 1000)%Z) ;;
       r4 <- start (LeadCountSince (date_now req - 30 * 24 * 60 * 60 * 1000)%Z) ;;
       r5 <- start (LeadGroupBy ByStatus false) ;;
       r6 <- start (LeadGroupBy ByOrigem false) ;;
       r7 <- start (LeadGroupBy ByUtmSource true) ;;
       total <- settle r1 ;;
       hoje <- settle r2 ;;
       semana <- settle r3 ;;
       mes <- settle r4 ;;
       statusStats <- settle r5 ;;
       origemStats <- settle r6 ;;
       utmStats <- settle r7 ;;
       Ret (mkResponse 200
              (Stats total hoje semana mes
                     (reduce_counts statusStats)
                     (reduce_counts origemStats)
                     (reduce_counts utmStats))))
    (fun _ => Ret res_internal_error).

(** *** POST /api/leads/:leadId/conversao *)

(** The [data] object of [prisma.conversao.create]. *)
Definition conversao_data (req : Request) : ConversaoCreateInput :=
  let valor_ := body req "valor" in
  {| in_leadId := params req "leadId";
     in_tipo := body req "tipo";
     in_valor := if truthy valor_ then Some (ParseFloat valor_) else None;
     in_descricao := body req "descricao" |}.

Definition post_conversao (cfg : Config) (req : Request) : Prog Response :=
  try_catch
    (let leadId_ := params req "leadId" in
     let key := query req "key" in
     if unauthorized cfg key then Ret res_unauthorized
     else
       conversao <- prisma (ConversaoCreate (conversao_data req)) ;;
       _ <- prisma (LeadUpdateStatus leadId_ (JStr "convertido")) ;;
       Ret (mkResponse 201
              (ConversaoRegistered "Conversão registrada com sucesso" conversao)))
    (fun _ => Ret res_internal_error).

(** *** The access gate, as a property of a handler *)

(** The key passes the test of the handlers: it is [===] to the value of
    [process.env.API_KEY], which is [undefined] when no secret is
    configured, or to the fallback. *)
Definition key_accepted (cfg : Config) (key : JsVal) : Prop :=
  key = env_API_KEY cfg \/ key = JStr "mente-milionaria-2024".

(** A handler is gated when every run of it answers, answers 401 exactly
    when the key is not accepted, and in that case answers the
    [UNAUTHORIZED] body without a storage call. *)
Definition gated (h : Config -> Request -> Prog Response) : Prop :=
  forall cfg req o d,
  exists resp d',
    run (h cfg req) o d = (inr resp, d')
    /\ (http_status resp = 401 <-> ~ key_accepted cfg (query req "key"))
    /\ (~ key_accepted cfg (query req "key") ->
        h cfg req = Ret res_unauthorized /\ resp = res_unauthorized /\ d' = d).

(** The request with another query string. *)
Definition with_query (q : string -> JsVal) (req : Request) : Request :=
  mkRequest (body req) q (params req) (header req) (req_ip req)
            (date_now req) (local_midnight req).

(** The [where] object the listing builds from the query string. *)
Definition where_of (req : Request) : Where :=
  mkWhere (if_set (query req "status")) (if_set (query req "origem"))
          (if_set (query req "search")).

(** *** E-mail uniqueness, as a property of the store *)

(** The unique index holds and every stored e-mail is in lower case. *)
Definition db_inv (d : DB) : Prop :=
  NoDup (map email (leads d))
  /\ Forall (fun l => toLowerCase (email l) = email l) (leads d).

(** No two leads have e-mails that are equal after lower-casing. *)
Definition emails_unique (d : DB) : Prop :=
  NoDup (map (fun l => toLowerCase (email l)) (leads d)).

(** The number of leads whose e-mail is [e] up to case. *)
Definition count_email (e : string) (d : DB) : nat :=
  List.length
    (filter (fun l => String.eqb (toLowerCase (email l)) (toLowerCase e))
            (leads d)).

(** An insertion writes a lower-case e-mail. *)
Definition lowers_email (op : Op) : Prop :=
  match op with
  | LeadCreate data => toLowerCase (in_email data) = in_email data
  | _ => True
  end.

(** The programs of the six routes. *)
Inductive handler : Prog Response -> Prop :=
| h_post_leads req : handler (post_leads req)
| h_get_leads cfg req : handler (get_leads cfg req)
| h_get_lead cfg req : handler (get_lead cfg req)
| h_patch_status cfg req : handler (patch_status cfg req)
| h_get_stats cfg req : handler (get_stats cfg req)
| h_post_conversao cfg req : handler (post_conversao cfg req).

(** *** Building requests *)

Definition obj (fields : list (string * JsVal)) (k : string) : JsVal :=
  match find (fun kv => String.eqb (fst kv) k) fields with
  | Some kv => snd kv
  | None => JUndefined
  end.

Definition mk_request (body_ query_ : list (string * JsVal)) (id_ : string)
  : Request :=
  mkRequest (obj body_) (obj query_) (fun _ => id_) (fun _ => None) None 0%Z 0%Z.

(** [n] times the character [0]. *)
Fixpoint zeros (n : nat) : string :=
  match n with O => "" | S m => String "0" (zeros m) end.

(** A table of [n] leads captured at times [1] to [n], with e-mails
    [l0@x.com], [l00@x.com], ... *)
Definition sample_lead (i : nat) : Lead :=
  mkLead ("id" ++ zeros i)%string "Lead" ("l" ++ zeros i ++ "@x.com")%string
         "11987654321" (Some "website") "novo" None None None None None
         None None None (Z.of_nat i) (Z.of_nat i).

Definition sample_db (n : nat) : DB :=
  mkDB (map sample_lead (seq 1 n)) [].

(** The same table with the leads of even rank in status [contatado]. *)
Definition mixed_db (n : nat) : DB :=
  mkDB (map (fun i => if Nat.even i
                      then set_status "contatado" (Z.of_nat i) (sample_lead i)
                      else sample_lead i) (seq 1 n)) [].

(** An environment whose calls are all accepted, with identifiers
    [prefix ++ "0"], [prefix ++ "00"], ... and the time advancing by one
    from [t0]. *)
Definition calm (prefix : string) (t0 : Z) : Oracle :=
  fun n => mkCallEnv false (prefix ++ zeros (S n))%string (t0 + Z.of_nat n)%Z
                     (inr []).

(** The same, with call number [k] rejected by the store. *)
Definition failing_at (k : nat) (prefix : string) (t0 : Z) : Oracle :=
  fun n => mkCallEnv (n =? k) (prefix ++ zeros (S n))%string (t0 + Z.of_nat n)%Z
                     (inr []).

End Api.
Export Api.

(* ===================================================================== *)
(** ** Notions used to state further properties                           *)
(* ===================================================================== *)

Module Notions.
Import Regex.

(** The language of a pattern. *)
Inductive matches : re -> string -> Prop :=
| MEps : matches Eps ""
| MCls p c : p c = true -> matches (Cls p) (String c "")
| MCat r1 r2 s1 s2 :
    matches r1 s1 -> matches r2 s2 -> matches (Cat r1 r2) (s1 ++ s2)%string
| MAltL r1 r2 s : matches r1 s -> matches (Alt r1 r2) s
| MAltR r1 r2 s : matches r2 s -> matches (Alt r1 r2) s
| MStar0 r : matches (Star r) ""
| MStarS r s1 s2 :
    matches r s1 -> matches (Star r) s2 -> matches (Star r) (s1 ++ s2)%string.

(** A non-empty run of characters other than white space and [@]. *)
Definition email_part (s : string) : Prop :=
  s <> "" /\ str_forall not_space_at s = true.

(** Neither [<] nor [>] anywhere in the string. *)
Definition no_angle (s : string) : bool :=
  str_forall (fun c => negb (Ascii.eqb c "<" || Ascii.eqb c ">")) s.

(** The columns of a lead other than [status] and [data_atualizacao]. *)
Definition frozen (l : Lead) :=
  (id l, nome l, email l, telefone l, origem l,
   (utmSource l, utmMedium l, utmCampaign l, utmContent l, utmTerm l),
   (ip l, userAgent l, referer l), dataCaptura l).

(** The calls that only read. *)
Definition reads_only (op : Op) : Prop :=
  match op with
  | LeadCreate _ | LeadUpdateStatus _ _ | ConversaoCreate _ => False
  | _ => True
  end.

(** A body with [success: false]. *)
Definition is_failure (r : Response) : bool :=
  match json r with Failure _ _ _ => true | _ => false end.

(** The answer has one of the given status codes, and has a
    [success: false] body exactly when the code is 400 or more. *)
Definition answers (codes : list nat) (r : Response) : Prop :=
  In (http_status r) codes /\ is_failure r = (400 <=? http_status r).

(** What a nullable text column holds for a body value given as
    [value || null]: nothing for a falsy value, the string itself
    otherwise. *)
Definition verbatim (v : JsVal) (col : option string) : Prop :=
  (falsy v = true -> col = None)
  /\ (forall s, v = JStr s -> s <> "" -> col = Some s).

(** The value of property [k] of an object built by a [reduce]. *)
Definition prop_of (k : string) (o : list (string * Z)) : option Z :=
  option_map snd (find (fun kv => String.eqb (fst kv) k) o).

(** The number of leads in a given status. *)
Definition count_status (s : string) (d : DB) : nat :=
  List.length (filter (fun l => String.eqb (status l) s) (leads d)).

(** The number of leads captured at [t] or later. *)
Definition count_since (t : Z) (d : DB) : nat :=
  List.length (filter (fun l => (t <=? dataCaptura l)%Z) (leads d)).

(** The count a [groupBy] result gives for a key. *)
Definition group_of (k : option string) (g : list (option string * Z)) : option Z :=
  option_map snd (find (fun kv => opt_string_eqb k (fst kv)) g).

(** The number of occurrences of a key. *)
Definition occurrences (k : option string) (keys : list (option string)) : nat :=
  List.length (filter (opt_string_eqb k) keys).

(** A count as a property of the response object: absent when zero. *)
Definition count_prop (n : nat) : option Z :=
  match n with O => None | S _ => Some (Z.of_nat n) end.

(** One for an answer 201, zero otherwise. *)
Definition created (a : JsError + Response) : nat :=
  match a with
  | inr r => if http_status r =? 201 then 1 else 0
  | inl _ => 0
  end.

(** The same for a program that has returned; zero while it is pending. *)
Definition credit (p : Prog Response) : nat :=
  match p with
  | Ret r => created (inr r)
  | _ => 0
  end.

(** Every call by which the program comes to return a 201 adds a lead of
    e-mail [e] (up to case) to the store. *)
Fixpoint pays (e : string) (p : Prog Response) : Prop :=
  match p with
  | Call op k =>
      (forall env d,
         count_email e d + credit (k (fst (exec op env d)))
         <= count_email e (snd (exec op env d)))
      /\ (forall r, pays e (k r))
  | _ => True
  end.

(** *** The specification's words, stated without the functions of the code *)

Fixpoint all_chars (P : ascii -> Prop) (s : string) : Prop :=
  match s with
  | EmptyString => True
  | String c r => P c /\ all_chars P r
  end.



(** One of the ten digits, by character code. *)
Definition digit_char (c : ascii) : Prop := 48 <= nat_of_ascii c <= 57.

(** A character with a meaning of its own in a [LIKE] pattern. *)
Definition wildcard (c : ascii) : Prop :=
  let n := nat_of_ascii c in n = 37 \/ n = 95 \/ n = 92.

(** [strike P s t]: [t] is [s] with the characters that satisfy [P] struck
    out. *)
Inductive strike (P : ascii -> Prop) : string -> string -> Prop :=
| strike_nil : strike P "" ""
| strike_out c s t : P c -> strike P s t -> strike P (String c s) t
| strike_keep c s t :
    ~ P c -> strike P s t -> strike P (String c s) (String c t).





(** [t] is [s] with every character that is not a digit struck out. *)
Definition digits_of (s t : string) : Prop :=
  strike (fun c => ~ digit_char c) s t.


(** A filter of the query string: absent or empty when there is none, the
    text otherwise. *)
Definition filter_param (v : JsVal) (p : option string) : Prop :=
  match p with
  | None => v = JUndefined \/ v = JStr ""
  | Some s => v = JStr s /\ s <> ""
  end.

(** The pattern that reads every character of a text as itself. *)
Fixpoint literals (s : string) : list LikeItem :=
  match s with
  | EmptyString => []
  | String a r => Lit a :: literals r
  end.

(** The key is the configured secret or the fallback. *)
Definition key_matches (cfg : Config) (key : JsVal) : Prop :=
  (exists s, API_KEY cfg = Some s /\ key = JStr s)
  \/ key = JStr "mente-milionaria-2024".

(** The leads a listing is about: those of the given status and source
    whose name or e-mail holds the search text, letter case apart. *)
Definition matching (st og sr : option string) (l : Lead) : bool :=
  match st with
  | Some s => String.eqb (status l) s
  | None => true
  end
  && match og with
     | Some s => opt_string_eqb (origem l) (Some s)
     | None => true
     end
  && match sr with
     | Some s => includes (toLowerCase s) (toLowerCase (nome l))
                 || includes (toLowerCase s) (toLowerCase (email l))
     | None => true
     end.

End Notions.
Export Notions.

Example isValidEmail_ok : isValidEmail (JStr "jo@x.com") = true.
Proof. reflexivity. Qed.
Example isValidEmail_nodot : isValidEmail (JStr "jo@xcom") = false.
Proof. reflexivity. Qed.
Example isValidEmail_array : isValidEmail (JArr [JStr "jo@x.com"]) = true.
Proof. reflexivity. Qed.
Example isValidPhone_55 : isValidPhone (JStr "5511987654321") = true.
Proof. reflexivity. Qed.
Example sanitize_ex : sanitizeInput (JStr "  <b>Jo</b> ") = JStr "bJo/b".
Proof. reflexivity. Qed.

(* ===================================================================== *)
(** ** Facts about the string primitives                                  *)
(* ===================================================================== *)

Section CharFacts.

Ltac all_chars a := destruct a as [[|] [|] [|] [|] [|] [|] [|] [|]]; reflexivity.

Lemma lower_char_idem (a : ascii) : lower_char (lower_char a) = lower_char a.
Proof. all_chars a. Qed.

Lemma is_space_lower_char (a : ascii) : is_space (lower_char a) = is_space a.
Proof. all_chars a. Qed.

End CharFacts.

Lemma toLowerCase_idem (s : string) : toLowerCase (toLowerCase s) = toLowerCase s.
Proof.
unfold toLowerCase.
induction s as [|a s IH]; simpl; [reflexivity|].
now rewrite lower_char_idem, IH.
Qed.

Lemma trimStart_lower (s : string) :
trimStart (toLowerCase s) = toLowerCase (trimStart s).
Proof.
unfold toLowerCase.
induction s as [|a s IH]; simpl; [reflexivity|].
rewrite is_space_lower_char.
destruct (is_space a); [exact IH | reflexivity].
Qed.

Lemma trimEnd_lower (s : string) :
trimEnd (toLowerCase s) = toLowerCase (trimEnd s).
Proof.
unfold toLowerCase.
induction s as [|a s IH]; simpl; [reflexivity|].
rewrite IH, is_space_lower_char.
destruct (trimEnd s) as [|b t]; simpl.
- destruct (is_space a); reflexivity.
- reflexivity.
Qed.

Lemma trim_lower (s : string) : trim (toLowerCase s) = toLowerCase (trim s).
Proof. unfold trim. now rewrite trimStart_lower, trimEnd_lower. Qed.

(** The stored e-mail [email.toLowerCase().trim()] is in lower case. *)
Lemma stored_email_lower (e : string) :
toLowerCase (trim (toLowerCase e)) = trim (toLowerCase e).
Proof. now rewrite <- trim_lower, toLowerCase_idem. Qed.

Lemma trimEnd_no_space (s : string) : no_space s = true -> trimEnd s = s.
Proof.
unfold no_space.
induction s as [|a s IH]; simpl; [reflexivity|].
intros H. apply andb_true_iff in H as [Ha Hs].
rewrite (IH Hs).
destruct s; [|reflexivity].
apply negb_true_iff in Ha. now rewrite Ha.
Qed.

Lemma trim_no_space (s : string) : no_space s = true -> trim s = s.
Proof.
intros H. unfold trim.
assert (Hs : trimStart s = s).
{ destruct s as [|a s]; [reflexivity|].
  unfold no_space in H. simpl in H. apply andb_true_iff in H as [Ha _].
  apply negb_true_iff in Ha. simpl. now rewrite Ha. }
rewrite Hs. now apply trimEnd_no_space.
Qed.

Lemma no_space_lower (s : string) : no_space (toLowerCase s) = no_space s.
Proof.
unfold no_space, toLowerCase.
induction s as [|a s IH]; simpl; [reflexivity|].
now rewrite is_space_lower_char, IH.
Qed.

(* ===================================================================== *)
(** ** Facts about the matcher and the e-mail pattern                     *)
(* ===================================================================== *)

Section RegexFacts.
Import Regex.

Lemma dead_not_nullable (r : re) : dead r = true -> nullable r = false.
Proof.
  induction r; simpl; intros H; try discriminate; try reflexivity.
  - apply orb_true_iff in H as [H|H];
      [rewrite (IHr1 H) | rewrite (IHr2 H)]; auto using andb_false_r.
  - apply andb_true_iff in H as [H1 H2].
    now rewrite (IHr1 H1), (IHr2 H2).
Qed.

Lemma dead_deriv (c : ascii) (r : re) : dead r = true -> dead (deriv c r) = true.
Proof.
  induction r; simpl; intros H; try discriminate; try reflexivity.
  - apply orb_true_iff in H as [H|H].
    + rewrite (dead_not_nullable _ H). simpl. now rewrite (IHr1 H).
    + destruct (nullable r1); simpl;
        rewrite ?H, ?(IHr2 H), ?orb_true_r; reflexivity.
  - apply andb_true_iff in H as [H1 H2].
    now rewrite (IHr1 H1), (IHr2 H2).
Qed.

Lemma dead_no_match (s : string) : forall r, dead r = true -> full_match r s = false.
Proof.
  induction s as [|c s IH]; simpl; intros r H.
  - now apply dead_not_nullable.
  - apply IH. now apply dead_deriv.
Qed.

Variable bad : ascii -> bool.

Lemma avoids_deriv (c : ascii) (r : re) : avoids bad r -> avoids bad (deriv c r).
Proof.
  induction r; simpl; intros H; auto.
  - destruct (p c); exact I.
  - destruct H as [H1 H2]. destruct (nullable r1); simpl; auto.
  - destruct H as [H1 H2]. auto.
Qed.

Lemma avoids_deriv_dead (c : ascii) (r : re) :
  bad c = true -> avoids bad r -> dead (deriv c r) = true.
Proof.
  intros Hc. induction r; simpl; intros H; auto.
  - now rewrite (H c Hc).
  - destruct H as [H1 H2]. destruct (nullable r1); simpl.
    + now rewrite (IHr1 H1), (IHr2 H2).
    + now rewrite (IHr1 H1).
  - destruct H as [H1 H2]. now rewrite (IHr1 H1), (IHr2 H2).
  - now rewrite (IHr H).
Qed.

(** A string matched by a pattern whose classes all reject [bad] contains
    no [bad] character. *)
Lemma full_match_avoids (s : string) : forall r,
  avoids bad r -> full_match r s = true ->
  str_forall (fun a => negb (bad a)) s = true.
Proof.
  induction s as [|c s IH]; simpl; intros r Hr Hm; [reflexivity|].
  destruct (bad c) eqn:Hc.
  - rewrite (dead_no_match s _ (avoids_deriv_dead c r Hc Hr)) in Hm. discriminate.
  - simpl. apply (IH (deriv c r)); [now apply avoids_deriv | exact Hm].
Qed.

End RegexFacts.

Lemma email_regex_avoids_space : Regex.avoids is_space email_regex.
Proof.
  assert (Hc : forall c, is_space c = true -> not_space_at c = false).
  { intros c H. unfold not_space_at. now rewrite H. }
  assert (Hd : forall d c, is_space d = false -> is_space c = true -> Ascii.eqb d c = false).
  { intros d c Hd Hs. destruct (Ascii.eqb_spec d c); [congruence | reflexivity]. }
  unfold email_regex, Regex.Plus, Regex.Chr; cbn [Regex.avoids].
  repeat split; auto; intros c H; now apply Hd.
Qed.

(** A valid e-mail string contains no white space, so trimming it, in any
    case, changes nothing. *)
Lemma isValidEmail_no_space (e : string) :
  isValidEmail (JStr e) = true -> no_space e = true.
Proof.
  intros H. unfold isValidEmail in H. simpl in H.
  exact (full_match_avoids is_space e _ email_regex_avoids_space H).
Qed.

Lemma valid_email_stored_as_looked_up (e : string) :
  isValidEmail (JStr e) = true -> trim (toLowerCase e) = toLowerCase e.
Proof.
  intros H. apply trim_no_space. rewrite no_space_lower.
  now apply isValidEmail_no_space.
Qed.

(* ===================================================================== *)
(** ** Validation                                                         *)
(* ===================================================================== *)

Lemma strip_non_digits_digits (s : string) :
  str_forall is_digit (strip_non_digits s) = true.
Proof.
  unfold strip_non_digits.
  induction s as [|a s IH]; simpl; [reflexivity|].
  destruct (is_digit a) eqn:Ha; simpl; [now rewrite Ha | exact IH].
Qed.

Lemma strip_non_digits_id (s : string) :
  str_forall is_digit s = true -> strip_non_digits s = s.
Proof.
  unfold strip_non_digits.
  induction s as [|a s IH]; simpl; [reflexivity|].
  intros H. apply andb_true_iff in H as [Ha Hs].
  now rewrite Ha, (IH Hs).
Qed.

Lemma length_substring_from (n : nat) : forall s,
  String.length (substring_from n s) = String.length s - n.
Proof.
  induction n as [|n IH]; intros [|a s]; simpl; auto.
Qed.

Lemma in_range_bool (lo hi n : nat) :
  (lo <=? n) && (n <=? hi) = true <-> lo <= n <= hi.
Proof.
  rewrite andb_true_iff, !Nat.leb_le. tauto.
Qed.

Lemma isValidPhone_not_string (v : JsVal) :
  is_string v = false -> isValidPhone v = false.
Proof.
  intros H. unfold isValidPhone. rewrite H. simpl negb.
  now rewrite orb_true_r.
Qed.

Lemma isValidPhone_string (s : string) :
  isValidPhone (JStr s) = true <->
  let cleaned := strip_non_digits s in
  (startsWith "55" cleaned = true
   /\ 10 <= String.length (substring_from 2 cleaned) <= 11)
  \/ (startsWith "55" cleaned = false
      /\ 10 <= String.length cleaned <= 11).
Proof.
  unfold isValidPhone. simpl falsy. simpl is_string. simpl negb.
  rewrite orb_false_r. cbv zeta.
  destruct (String.eqb_spec s "") as [->|_].
  - simpl. split; [discriminate | lia].
  - destruct (startsWith "55" (strip_non_digits s)); rewrite in_range_bool.
    + split; [intros H; left; now split | intros [[_ H]|[H _]]; [exact H | discriminate]].
    + split; [intros H; right; now split | intros [[H _]|[_ H]]; [discriminate | exact H]].
Qed.



Lemma is_digit_char (c : ascii) : is_digit c = true <-> digit_char c.
Proof.
  unfold is_digit, digit_char, code. cbv zeta.
  now rewrite andb_true_iff, !Nat.leb_le.
Qed.

(** Striking characters out is what [replace] with a global pattern and an
    empty replacement computes. *)
Lemma strike_filter (P : ascii -> Prop) (p : ascii -> bool) :
  (forall c, p c = false <-> P c) ->
  forall s t, strike P s t <-> t = str_filter p s.
Proof.
  intros Hp s t. split.
  - induction 1 as [|c s t Hc _ IH|c s t Hc _ IH]; cbn [str_filter].
    + reflexivity.
    + apply Hp in Hc. now rewrite Hc.
    + destruct (p c) eqn:E; [now rewrite IH | now apply Hp in E].
  - intros ->. induction s as [|c s IH]; cbn [str_filter].
    + constructor.
    + destruct (p c) eqn:E.
      * apply strike_keep; [|exact IH]. intros H. apply Hp in H. congruence.
      * apply strike_out; [now apply Hp | exact IH].
Qed.

Lemma digits_of_strip (s t : string) :
  digits_of s t <-> t = strip_non_digits s.
Proof.
  unfold digits_of, strip_non_digits.
  rewrite (strike_filter _ is_digit); [reflexivity|].
  intros c. rewrite <- is_digit_char. destruct (is_digit c); split; congruence.
Qed.

Lemma startsWith_55 (t : string) :
  startsWith "55" t = true <-> exists r, t = ("55" ++ r)%string.
Proof.
  unfold startsWith. split.
  - destruct t as [|a [|b r]]; cbn [String.prefix]; try discriminate.
    + destruct (ascii_dec "5" a); discriminate.
    + destruct (ascii_dec "5" a) as [<-|]; [|discriminate].
      destruct (ascii_dec "5" b) as [<-|]; [|discriminate].
      intros _. now exists r.
  - intros (r & ->). cbn [String.prefix append].
    destruct (ascii_dec "5" "5") as [_|N]; [|now elim N].
    now destruct r.
Qed.

(** C7.  [isValidPhone] accepts a value exactly when it is a string and the
    digits left once every other character is struck out are either [55]
    followed by 10 to 11 digits, or 10 to 11 digits that do not begin with
    [55].  So a number written with spaces, brackets, a dash or a plus sign
    is accepted for its digits, a string with too few digits is refused,
    and so is any value that is not a string. *)
Theorem isValidPhone_spec :
  (forall v : JsVal,
     isValidPhone v = true <->
     exists s t, v = JStr s /\ digits_of s t /\
       ((exists r, t = ("55" ++ r)%string /\ 10 <= String.length r <= 11)
        \/ ((forall r, t <> ("55" ++ r)%string) /\ 10 <= String.length t <= 11)))
  /\ isValidPhone (JStr "(11) 98765-4321") = true
  /\ isValidPhone (JStr "+55 (11) 98765-4321") = true
  /\ isValidPhone (JStr "11 3456-7890") = true
  /\ isValidPhone (JStr "5511987654321") = true
  /\ isValidPhone (JStr "(11) 9876-543") = false
  /\ isValidPhone (JStr "+55 (11) 98765-43210") = false
  /\ isValidPhone (JStr "") = false
  /\ isValidPhone (JNum "11987654321") = false
  /\ isValidPhone JUndefined = false.
Proof.
  split; [|repeat split].
  intros v. split.
  - intros H. destruct (is_string v) eqn:Hs.
    + destruct v as [| | | |s|]; try discriminate Hs.
      exists s, (strip_non_digits s).
      split; [reflexivity|]. split; [now apply digits_of_strip|].
      apply isValidPhone_string in H. cbv zeta in H.
      destruct H as [[H55 Hlen]|[H55 Hlen]].
      * left. pose proof H55 as Hp. apply startsWith_55 in Hp as (r & Hr).
        exists r. split; [exact Hr|].
        rewrite length_substring_from, Hr in Hlen.
        cbn [append String.length] in Hlen. lia.
      * right. split; [|exact Hlen].
        intros r Hr.
        assert (E : startsWith "55" (strip_non_digits s) = true)
          by (apply startsWith_55; now exists r).
        congruence.
    + rewrite (isValidPhone_not_string v Hs) in H. discriminate.
  - intros (s & t & -> & Hd & H). apply digits_of_strip in Hd. subst t.
    apply isValidPhone_string. cbv zeta.
    destruct H as [(r & Hr & Hlen)|[Hno Hlen]].
    + left. split; [apply startsWith_55; now exists r|].
      rewrite length_substring_from, Hr. cbn [append String.length]. lia.
    + right. split; [|exact Hlen].
      destruct (startsWith "55" (strip_non_digits s)) eqn:E; [|reflexivity].
      apply startsWith_55 in E as (r & Hr). now elim (Hno r).
Qed.

(** The count of the digits that follow the country code is the count of
    all digits less two. *)
Lemma phone_digit_counts (s : string) :
  isValidPhone (JStr s) = true ->
  let n := String.length (strip_non_digits s) in
  if startsWith "55" (strip_non_digits s) then 12 <= n <= 13 else 10 <= n <= 11.
Proof.
  intros H. apply isValidPhone_string in H. cbv zeta in *.
  rewrite length_substring_from in H.
  destruct H as [[-> H]|[-> H]]; lia.
Qed.

(* ===================================================================== *)
(** ** POST /api/leads: the order of the checks                           *)
(* ===================================================================== *)

Lemma validated_inv (req : Request) :
  validated req = true ->
  missing_fields req = false /\ invalid_name req = false
  /\ invalid_email req = false /\ invalid_phone req = false.
Proof.
  unfold validated. rewrite !andb_true_iff, !negb_true_iff. tauto.
Qed.

(** Once the validations pass, the handler is at its first [await]: the
    look-up of the lower-cased e-mail. *)
Lemma post_leads_validated (req : Request) (e : string) :
  validated req = true ->
  sanitizeInput (body req "email") = JStr e ->
  post_leads req =
  Call (LeadFindUniqueEmail (toLowerCase e))
       (fun r => try_catch
                   (existingLead <- settle r ;;
                    post_leads_insert req
                      (sanitizeInput (body req "nome")) (JStr e)
                      (sanitizeInput (body req "telefone"))
                      (sanitizeInput (body req "origem")) existingLead)%prog
                   post_leads_catch).
Proof.
  intros Hv He. apply validated_inv in Hv as (H1 & H2 & H3 & H4).
  unfold missing_fields, invalid_name, invalid_email, invalid_phone in *.
  unfold post_leads, post_leads_body. cbv zeta.
  rewrite H1, H2, H3, H4, He. reflexivity.
Qed.

(** A validated phone is a string. *)
Lemma validated_telefone (req : Request) :
  validated req = true ->
  exists t, sanitizeInput (body req "telefone") = JStr t.
Proof.
  intros Hv. apply validated_inv in Hv as (_ & _ & _ & H).
  unfold invalid_phone in H. apply negb_false_iff in H.
  destruct (sanitizeInput (body req "telefone")) eqn:E;
    try (rewrite isValidPhone_not_string in H; [discriminate | reflexivity]).
  now eexists.
Qed.

(** *** Trimming and sanitizing, against their specification *)















(** One request per row: the empty name wins over the bad e-mail and phone,
    the short name over the bad e-mail and phone, the bad e-mail over the
    bad phone. *)
Example check_order_runs :
  let bad nome := mk_request [("nome", JStr nome); ("email", JStr "no-at");
                              ("telefone", JStr "123")] [] "" in
  post_leads (bad "  ") =
    Ret (failure 400 "Nome, email e telefone são obrigatórios" "MISSING_FIELDS")
  /\ post_leads (bad "J") =
       Ret (failure 400 "Nome deve ter pelo menos 2 caracteres" "INVALID_NAME")
  /\ post_leads (bad "Jo") = Ret (failure 400 "Email inválido" "INVALID_EMAIL")
  /\ post_leads (mk_request [("nome", JStr "Jo"); ("email", JStr "jo@x.com");
                             ("telefone", JStr "123")] [] "") =
       Ret (failure 400 "Telefone inválido" "INVALID_PHONE").
Proof. repeat split. Qed.


(* ===================================================================== *)
(** ** POST /api/leads: what a run does                                   *)
(* ===================================================================== *)

Ltac run_step :=
  cbn [run try_catch bind prisma start settle str_method exec
       post_leads_insert post_leads_catch is_P2002 is_P2025 fst snd].

(** Every validation failure is a 400. *)
Lemma post_leads_not_validated (req : Request) :
  validated req = false ->
  exists m c, post_leads req = Ret (failure 400 m c).
Proof.
  unfold validated, missing_fields, invalid_name, invalid_email, invalid_phone.
  intros H. unfold post_leads, post_leads_body. cbv zeta.
  destruct (falsy (sanitizeInput (body req "nome"))
            || falsy (sanitizeInput (body req "email"))
            || falsy (sanitizeInput (body req "telefone")));
    [do 2 eexists; reflexivity|].
  destruct (length_lt 2 (sanitizeInput (body req "nome")));
    [do 2 eexists; reflexivity|].
  destruct (negb (isValidEmail (sanitizeInput (body req "email"))));
    [do 2 eexists; reflexivity|].
  destruct (negb (isValidPhone (sanitizeInput (body req "telefone"))));
    [do 2 eexists; reflexivity|].
  discriminate.
Qed.

(** An e-mail that passes the pattern without being a string (an array
    whose rendering matches) stops the handler at [email.toLowerCase]. *)
Lemma post_leads_email_not_string (req : Request) :
  validated req = true ->
  is_string (sanitizeInput (body req "email")) = false ->
  post_leads req = Ret res_internal_error.
Proof.
  intros Hv He. apply validated_inv in Hv as (H1 & H2 & H3 & H4).
  unfold missing_fields, invalid_name, invalid_email, invalid_phone in *.
  unfold post_leads, post_leads_body. cbv zeta.
  rewrite H1, H2, H3, H4.
  destruct (sanitizeInput (body req "email")); try discriminate He; reflexivity.
Qed.

(** The pre-check path: the e-mail is already stored. *)
Lemma post_leads_existing (req : Request) (e : string) (o : Oracle) (d : DB) (l : Lead) :
  validated req = true ->
  sanitizeInput (body req "email") = JStr e ->
  reject (o 0) = false ->
  find_lead_by_email (toLowerCase e) d = Some l ->
  run (post_leads req) o d =
  (inr (mkResponse 409
          (Failure "Este email já está cadastrado" "EMAIL_EXISTS"
                   (Some (dataCaptura l)))), d).
Proof.
  intros Hv He Hr Hf.
  rewrite (post_leads_validated req e Hv He). run_step.
  unfold lead_findUnique_email. rewrite Hr, Hf. reflexivity.
Qed.

(** The insertion, run from the state the handler is in once the look-up
    has answered that the e-mail is free. *)
Lemma post_leads_insert_run (req : Request) (n e t : string) (og : JsVal)
    (o : Oracle) (d : DB) :
  run (try_catch (post_leads_insert req (JStr n) (JStr e) (JStr t) og None)
                 post_leads_catch) o d =
  match lead_create (lead_data req (trim n) (trim (toLowerCase e)) (trim t) og)
                    (o 0) d with
  | (inr l, d') =>
      (inr (mkResponse 201
              (LeadCaptured
                 "Lead capturado com sucesso! Entraremos em contato em breve."
                 (Store.id l) (Store.nome l) (Store.email l) (dataCaptura l))), d')
  | (inl P2002, d') =>
      (inr (failure 409 "Email já cadastrado" "EMAIL_EXISTS"), d')
  | (inl _, d') => (inr res_internal_error, d')
  end.
Proof.
  run_step.
  destruct (lead_create _ (o 0) d) as [[err|l] d'].
  - destruct err; reflexivity.
  - reflexivity.
Qed.

(** [lead_create] leaves the store as it is unless it succeeds, and then
    appends the row it returns. *)
Lemma lead_create_cases (i : LeadCreateInput) (env : CallEnv) (d : DB) :
  (exists err, lead_create i env d = (inl err, d))
  \/ (exists l, lead_create i env d = (inr l, mkDB (leads d ++ [l]) (conversoes d))
                /\ lead_of_input i env = Some l
                /\ reject env = false
                /\ find_lead_by_id (id l) d = None
                /\ find_lead_by_email (email l) d = None).
Proof.
  unfold lead_create.
  destruct (lead_of_input i env) as [l|]; [|left; eauto].
  destruct (reject env); [left; eauto|].
  destruct (find_lead_by_id (id l) d) eqn:Hi;
    destruct (find_lead_by_email (email l) d) eqn:He;
    try (left; eauto; fail).
  right. exists l. auto.
Qed.

(** A 201 is the outcome of exactly one path: validated string fields, an
    e-mail not yet stored, and an accepted insertion. *)
Lemma post_leads_created (req : Request) (o : Oracle) (d d' : DB) (resp : Response) :
  run (post_leads req) o d = (inr resp, d') ->
  http_status resp = 201 ->
  exists n e t l,
    validated req = true
    /\ sanitizeInput (body req "nome") = JStr n
    /\ sanitizeInput (body req "email") = JStr e
    /\ sanitizeInput (body req "telefone") = JStr t
    /\ find_lead_by_email (toLowerCase e) d = None
    /\ lead_of_input
         (lead_data req (trim n) (trim (toLowerCase e)) (trim t)
                    (sanitizeInput (body req "origem"))) (o 1) = Some l
    /\ d' = mkDB (leads d ++ [l]) (conversoes d)
    /\ json resp =
       LeadCaptured "Lead capturado com sucesso! Entraremos em contato em breve."
                    (Store.id l) (Store.nome l) (Store.email l) (dataCaptura l).
Proof.
  intros Hrun Hst.
  destruct (validated req) eqn:Hv.
  2:{ destruct (post_leads_not_validated req Hv) as (m & c & E).
      rewrite E in Hrun. simpl in Hrun. injection Hrun as <- _. discriminate. }
  destruct (sanitizeInput (body req "email")) as [| | | | e |] eqn:He;
    try (rewrite (post_leads_email_not_string req Hv) in Hrun by (now rewrite He);
         simpl in Hrun; injection Hrun as <- _; discriminate).
  destruct (validated_telefone req Hv) as (t & Ht).
  rewrite (post_leads_validated req e Hv He) in Hrun.
  cbn [run exec] in Hrun.
  unfold lead_findUnique_email in Hrun.
  destruct (reject (o 0)).
  { simpl in Hrun. injection Hrun as <- _. discriminate. }
  destruct (find_lead_by_email (toLowerCase e) d) as [l0|] eqn:Hf.
  { simpl in Hrun. injection Hrun as <- _. discriminate. }
  cbn [settle bind] in Hrun. rewrite Ht in Hrun.
  destruct (sanitizeInput (body req "nome")) as [| | | | n |] eqn:Hn;
    try (simpl in Hrun; injection Hrun as <- _; discriminate).
  rewrite post_leads_insert_run in Hrun. unfold shift in Hrun.
  destruct (lead_create_cases
              (lead_data req (trim n) (trim (toLowerCase e)) (trim t)
                         (sanitizeInput (body req "origem"))) (o 1) d)
    as [(err & E) | (l & E & Hl & _)]; rewrite E in Hrun.
  - destruct err; injection Hrun as <- _; discriminate.
  - injection Hrun as <- <-.
    exists n, e, t, l. repeat split; auto.
Qed.

Lemma lead_of_input_origem (i : LeadCreateInput) (env : CallEnv) (l : Lead) :
  lead_of_input i env = Some l ->
  opt_text (Some "website") (in_origem i) = Some (origem l).
Proof.
  unfold lead_of_input. intros H.
  destruct (opt_text (Some "website") (in_origem i)); [|discriminate].
  destruct (opt_text None (in_utmSource i)); [|discriminate].
  destruct (opt_text None (in_utmMedium i)); [|discriminate].
  destruct (opt_text None (in_utmCampaign i)); [|discriminate].
  destruct (opt_text None (in_utmContent i)); [|discriminate].
  destruct (opt_text None (in_utmTerm i)); [|discriminate].
  injection H as <-. reflexivity.
Qed.




(** A source that is kept: it is stored sanitized. *)
Example origem_kept_sanitized :
  map origem
    (leads (snd (run (post_leads
              (mk_request [("nome", JStr "Jo"); ("email", JStr "jo@x.com");
                           ("telefone", JStr "11987654321");
                           ("origem", JStr " <b>ads</b> ")] [] ""))
              (calm "a" 100) empty_db)))
  = [Some "bads/b"].
Proof. reflexivity. Qed.

(* ===================================================================== *)
(** ** Programs: totality and what they can return                        *)
(* ===================================================================== *)

Lemma run_total {A} (p : Prog A) : forall o d,
  never_throws p -> exists a d', run p o d = (inr a, d').
Proof.
  induction p as [a | e | op k IH]; intros o d H; simpl in *.
  - eauto.
  - contradiction.
  - destruct (exec op (o 0) d) as [r d1]. apply IH, H.
Qed.

Lemma run_returns {A} (P : A -> Prop) (p : Prog A) : forall o d a d',
  returns_satisfy P p -> run p o d = (inr a, d') -> P a.
Proof.
  induction p as [a0 | e | op k IH]; intros o d a d' H E; simpl in *.
  - now injection E as <- _.
  - discriminate.
  - destruct (exec op (o 0) d) as [r d1]. eapply IH; eauto.
Qed.

Lemma try_catch_never_throws {A} (p : Prog A) (h : JsError -> Prog A) :
  (forall e, never_throws (h e)) -> never_throws (try_catch p h).
Proof.
  intros Hh. induction p as [a | e | op k IH]; simpl; auto.
Qed.

Lemma try_catch_returns {A} (P : A -> Prop) (p : Prog A) (h : JsError -> Prog A) :
  returns_satisfy P p -> (forall e, returns_satisfy P (h e)) ->
  returns_satisfy P (try_catch p h).
Proof.
  intros Hp Hh. induction p as [a | e | op k IH]; simpl in *; auto.
Qed.

Lemma bind_returns {A B} (P : B -> Prop) (p : Prog A) (f : A -> Prog B) :
  returns_satisfy (fun a => returns_satisfy P (f a)) p ->
  returns_satisfy P (bind p f).
Proof.
  induction p as [a | e | op k IH]; simpl; auto.
Qed.

Lemma prisma_returns (P : Response -> Prop) (op : Op) (f : Ans op -> Prog Response) :
  (forall a, returns_satisfy P (f a)) ->
  returns_satisfy P (bind (prisma op) f).
Proof.
  intros H. simpl. intros [e|a]; simpl; auto.
Qed.

(* ===================================================================== *)
(** ** The access gate                                                    *)
(* ===================================================================== *)

Lemma strict_eq_env (cfg : Config) (key : JsVal) :
  strict_eq key (env_API_KEY cfg) = true <-> key = env_API_KEY cfg.
Proof.
  unfold env_API_KEY. destruct (API_KEY cfg) as [s|]; destruct key; simpl;
    split; try discriminate; try reflexivity.
  - intros H. apply String.eqb_eq in H. now subst.
  - intros H. injection H as ->. apply String.eqb_refl.
Qed.

Lemma strict_eq_string (key : JsVal) (s : string) :
  strict_eq key (JStr s) = true <-> key = JStr s.
Proof.
  destruct key; simpl; split; try discriminate.
  - intros H. apply String.eqb_eq in H. now subst.
  - intros H. injection H as ->. apply String.eqb_refl.
Qed.

(** [unauthorized] is the negation of "the key is accepted". *)
Lemma unauthorized_iff (cfg : Config) (key : JsVal) :
  unauthorized cfg key = true <-> ~ key_accepted cfg key.
Proof.
  unfold unauthorized, key_accepted.
  rewrite andb_true_iff, !negb_true_iff.
  rewrite <- strict_eq_env, <- (strict_eq_string key "mente-milionaria-2024").
  destruct (strict_eq key (env_API_KEY cfg)),
           (strict_eq key (JStr "mente-milionaria-2024")); intuition congruence.
Qed.

(** A handler that tests the key first, and whose other answers are never
    401, is gated. *)
Lemma gate_first (cfg : Config) (req : Request) (p : Prog Response)
    (h : JsError -> Prog Response) (o : Oracle) (d : DB) :
  returns_satisfy (fun r => http_status r <> 401) p ->
  (forall e, returns_satisfy (fun r => http_status r <> 401) (h e)) ->
  (forall e, never_throws (h e)) ->
  let handler :=
    try_catch (if unauthorized cfg (query req "key")
               then Ret res_unauthorized else p) h in
  exists resp d',
    run handler o d = (inr resp, d')
    /\ (http_status resp = 401 <-> ~ key_accepted cfg (query req "key"))
    /\ (~ key_accepted cfg (query req "key") ->
        handler = Ret res_unauthorized /\ resp = res_unauthorized /\ d' = d).
Proof.
  intros Hp Hh Hn handler. subst handler.
  pose proof (unauthorized_iff cfg (query req "key")) as Hiff.
  destruct (unauthorized cfg (query req "key")) eqn:Hu.
  - exists res_unauthorized, d. simpl. repeat split; auto.
    intros _. now apply Hiff.
  - destruct (run_total (try_catch p h) o d (try_catch_never_throws p h Hn))
      as (resp & d' & E).
    exists resp, d'. split; [exact E|].
    pose proof (run_returns _ _ o d resp d' (try_catch_returns _ p h Hp Hh) E) as H.
    split; [split; [contradiction |] |]; intros Hk; apply Hiff in Hk; discriminate.
Qed.

Ltac not_401 := cbn; try discriminate.

Lemma get_leads_gated : gated get_leads.
Proof.
  intros cfg req o d. unfold get_leads. cbv zeta.
  apply gate_first; [| intros e; not_401 | intros e; exact I].
  cbn. intros [e1|a1] [e2|a2]; not_401; exact I.
Qed.

Lemma get_lead_gated : gated get_lead.
Proof.
  intros cfg req o d. unfold get_lead. cbv zeta.
  apply gate_first; [| intros e; not_401 | intros e; exact I].
  cbn. intros [e1|[l|]]; not_401; exact I.
Qed.

Lemma patch_status_gated : gated patch_status.
Proof.
  intros cfg req o d. unfold patch_status. cbv zeta.
  apply gate_first.
  - destruct (negb (valid_status (body req "status"))); [not_401|].
    cbn. intros [e1|a1]; not_401; exact I.
  - intros e. destruct (is_P2025 e); not_401.
  - intros e. destruct (is_P2025 e); exact I.
Qed.

Lemma get_stats_gated : gated get_stats.
Proof.
  intros cfg req o d. unfold get_stats. cbv zeta.
  apply gate_first; [| intros e; not_401 | intros e; exact I].
  cbn. intros [e1|a1] [e2|a2] [e3|a3] [e4|a4] [e5|a5] [e6|a6] [e7|a7];
    not_401; exact I.
Qed.

Lemma post_conversao_gated : gated post_conversao.
Proof.
  intros cfg req o d. unfold post_conversao. cbv zeta.
  apply gate_first; [| intros e; not_401 | intros e; exact I].
  cbn. intros [e1|a1]; not_401; [exact I|].
  intros [e2|a2]; not_401; exact I.
Qed.

(** The ingestion handler never answers 401. *)
Lemma post_leads_never_401 (req : Request) :
  returns_satisfy (fun r => http_status r <> 401) (post_leads req)
  /\ never_throws (post_leads req).
Proof.
  unfold post_leads. split.
  - apply try_catch_returns.
    2:{ intros e. unfold post_leads_catch. destruct (is_P2002 e); not_401. }
    unfold post_leads_body. cbv zeta.
    repeat match goal with
           | |- returns_satisfy _ (if ?c then _ else _) => destruct c; [not_401|]
           end.
    destruct (sanitizeInput (body req "email")); try exact I.
    cbn. intros [e1|[l|]]; not_401; try exact I.
    destruct (sanitizeInput (body req "nome")); try exact I.
    destruct (sanitizeInput (body req "telefone")); try exact I.
    cbn. intros [e2|a2]; not_401; exact I.
  - apply try_catch_never_throws.
    intros e. unfold post_leads_catch. destruct (is_P2002 e); exact I.
Qed.

(** Where a secret is configured or a key is supplied, the test of the
    handlers is "the key is the secret or the fallback". *)
Lemma key_accepted_matches (cfg : Config) (key : JsVal) :
  API_KEY cfg <> None \/ key <> JUndefined ->
  (key_accepted cfg key <-> key_matches cfg key).
Proof.
  unfold key_accepted, key_matches, env_API_KEY. intros H.
  destruct (API_KEY cfg) as [s|].
  - split; (intros [K|K]; [left | now right]).
    + now exists s.
    + destruct K as (s' & E & ->). now injection E as ->.
  - split; (intros [K|K]; [|now right]).
    + destruct H as [H|H]; [now elim H | contradiction].
    + now destruct K as (s' & E & _).
Qed.

(** C9.  The list, get, status-update, stats and conversion handlers test
    the key of the query string before anything else.  Whenever a secret is
    configured, or the request carries a key, each of them answers 401
    [UNAUTHORIZED] exactly when the key is neither the configured secret
    nor the fallback ['mente-milionaria-2024'], and then without a storage
    call.  With no secret configured, a request with no key is served by
    all five: none answers 401.  The ingestion handler does not read the
    query string and never answers 401. *)
Theorem access_gate :
  let gated_routes :=
    [get_leads; get_lead; patch_status; get_stats; post_conversao] in
  (forall h, In h gated_routes ->
   forall cfg req o d,
     API_KEY cfg <> None \/ query req "key" <> JUndefined ->
     exists resp d',
       run (h cfg req) o d = (inr resp, d')
       /\ (http_status resp = 401 <-> ~ key_matches cfg (query req "key"))
       /\ (~ key_matches cfg (query req "key") ->
           h cfg req = Ret res_unauthorized
           /\ resp = res_unauthorized /\ d' = d))
  /\ (forall h, In h gated_routes ->
      forall req o d,
        query req "key" = JUndefined ->
        ~ key_matches (mkConfig None) (query req "key")
        /\ exists resp d',
             run (h (mkConfig None) req) o d = (inr resp, d')
             /\ http_status resp <> 401)
  /\ (forall req q, post_leads (with_query q req) = post_leads req)
  /\ (forall req o d, exists resp d',
        run (post_leads req) o d = (inr resp, d') /\ http_status resp <> 401).
Proof.
  cbv zeta.
  assert (G : forall h,
             In h [get_leads; get_lead; patch_status; get_stats; post_conversao] ->
             gated h).
  { intros h [<-|[<-|[<-|[<-|[<-|[]]]]]];
      auto using get_leads_gated, get_lead_gated, patch_status_gated,
                 get_stats_gated, post_conversao_gated. }
  split; [|split; [|split]].
  - intros h Hh cfg req o d Hk.
    destruct (G h Hh cfg req o d) as (resp & d' & E & H401 & Hno).
    pose proof (key_accepted_matches cfg (query req "key") Hk) as Hiff.
    exists resp, d'. split; [exact E|]. split.
    + rewrite H401. now rewrite Hiff.
    + intros Hn. apply Hno. now rewrite Hiff.
  - intros h Hh req o d Hk. split.
    + rewrite Hk. intros [(s & E & _)|E]; discriminate.
    + destruct (G h Hh (mkConfig None) req o d) as (resp & d' & E & H401 & _).
      exists resp, d'. split; [exact E|].
      intros H. apply H401 in H. apply H. left. now rewrite Hk.
  - reflexivity.
  - intros req o d.
    destruct (post_leads_never_401 req) as [Hr Hn].
    destruct (run_total _ o d Hn) as (resp & d' & E).
    exists resp, d'. split; [exact E|].
    exact (run_returns _ _ o d resp d' Hr E).
Qed.

(** With no [API_KEY] configured, a request that carries no key at all
    passes the test, [undefined !== undefined] being false: the listing is
    answered 200 with the leads, and a conversion is recorded. *)
Example keyless_requests_served :
  unauthorized (mkConfig None) JUndefined = false
  /\ (exists body_,
        run (get_leads (mkConfig None) (mk_request [] [] "")) (calm "a" 100)
            (sample_db 2)
        = (inr (mkResponse 200 body_), sample_db 2)
        /\ match body_ with LeadList rows _ _ _ _ _ => List.length rows = 2
           | _ => False end)
  /\ (exists c l,
        run (post_conversao (mkConfig None)
               (mk_request [("tipo", JStr "venda")] [] "id0"))
            (calm "c" 100) (sample_db 1)
        = (inr (mkResponse 201
                  (ConversaoRegistered "Conversão registrada com sucesso" c)),
           mkDB [l] [c])
        /\ status l = "convertido").
Proof.
  split; [reflexivity|]. split.
  - eexists. split; [vm_compute; reflexivity | reflexivity].
  - eexists. eexists. split; [vm_compute; reflexivity | reflexivity].
Qed.

(** With a secret configured the gate holds. *)
Example keys_against_a_secret :
  unauthorized (mkConfig (Some "s3cret")) JUndefined = true
  /\ unauthorized (mkConfig (Some "s3cret")) (JStr "s3cret") = false
  /\ unauthorized (mkConfig (Some "s3cret")) (JStr "mente-milionaria-2024") = false
  /\ unauthorized (mkConfig (Some "s3cret")) (JStr "other") = true
  /\ unauthorized (mkConfig None) (JStr "other") = true.
Proof. repeat split. Qed.

(* ===================================================================== *)
(** ** PATCH /api/leads/:id/status                                        *)
(* ===================================================================== *)

(** [validStatuses.includes(status)] holds for the five strings only. *)
Lemma valid_status_iff (v : JsVal) :
  valid_status v = true <-> exists s, In s validStatuses /\ v = JStr s.
Proof.
  unfold valid_status. rewrite existsb_exists. split.
  - intros (s & Hin & H). exists s. split; [exact Hin|].
    destruct v; simpl in H; try discriminate.
    apply String.eqb_eq in H. now subst.
  - intros (s & Hin & ->). exists s. split; [exact Hin|].
    simpl. apply String.eqb_refl.
Qed.

(** C4.  When the [status] of the body is not one of the five values
    ['novo', 'contatado', 'interessado', 'convertido', 'descartado'], the
    handler issues no storage call, every run leaves the store as it was,
    and, the key being accepted, the answer is 400 [INVALID_STATUS]. *)
Theorem patch_status_invalid (cfg : Config) (req : Request) :
  (forall s, In s validStatuses -> body req "status" <> JStr s) ->
  pure (patch_status cfg req)
  /\ (forall o d, snd (run (patch_status cfg req) o d) = d)
  /\ (key_accepted cfg (query req "key") ->
      forall o d,
        run (patch_status cfg req) o d =
        (inr (failure 400 "Status inválido. Use: novo, contatado, interessado, convertido, descartado"
                      "INVALID_STATUS"), d)).
Proof.
  intros Hout.
  assert (Hv : valid_status (body req "status") = false).
  { destruct (valid_status (body req "status")) eqn:E; [|reflexivity].
    apply valid_status_iff in E as (s & Hin & Hs). now destruct (Hout s Hin). }
  unfold patch_status. cbv zeta. rewrite Hv. simpl negb. cbv iota.
  destruct (unauthorized cfg (query req "key")) eqn:Hu.
  - repeat split; try reflexivity.
    intros Hk. apply unauthorized_iff in Hu. contradiction.
  - repeat split; reflexivity.
Qed.

(** The English name of a status is not one of the stored values. *)
Lemma patch_status_invalid_witness :
  pure (patch_status (mkConfig None)
          (mk_request [("status", JStr "new")]
                      [("key", JStr "mente-milionaria-2024")] "a0"))
  /\ (forall o d,
        snd (run (patch_status (mkConfig None)
                    (mk_request [("status", JStr "new")]
                                [("key", JStr "mente-milionaria-2024")] "a0"))
                 o d) = d)
  /\ (key_accepted (mkConfig None) (JStr "mente-milionaria-2024") ->
      forall o d,
        run (patch_status (mkConfig None)
               (mk_request [("status", JStr "new")]
                           [("key", JStr "mente-milionaria-2024")] "a0")) o d =
        (inr (failure 400 "Status inválido. Use: novo, contatado, interessado, convertido, descartado"
                      "INVALID_STATUS"), d)).
Proof.
  apply (patch_status_invalid (mkConfig None)
           (mk_request [("status", JStr "new")]
                       [("key", JStr "mente-milionaria-2024")] "a0")).
  simpl. intros s H. decompose [or] H; subst; try discriminate; contradiction.
Defined.

(* ===================================================================== *)
(** ** GET /api/leads: ordering and pagination                            *)
(* ===================================================================== *)

Lemma insert_desc_perm (x : Lead) (l : list Lead) :
  Permutation (insert_desc x l) (x :: l).
Proof.
  induction l as [|y r IH]; simpl; [apply Permutation_refl|].
  destruct (dataCaptura x <? dataCaptura y)%Z.
  - eapply perm_trans; [apply perm_skip, IH | apply perm_swap].
  - apply Permutation_refl.
Qed.

Lemma order_desc_perm (l : list Lead) : Permutation (order_desc l) l.
Proof.
  induction l as [|x r IH]; simpl; [constructor|].
  eapply perm_trans; [apply insert_desc_perm | now apply perm_skip].
Qed.

Lemma order_desc_length (l : list Lead) :
  List.length (order_desc l) = List.length l.
Proof. apply Permutation_length, order_desc_perm. Qed.




(** An integer below 2^53 in size is a double as it stands. *)
Lemma to_double_exact (z : Z) :
  (Z.abs z < 9007199254740992)%Z -> to_double z = Int z.
Proof.
  intros H. unfold to_double, round_to_double. cbv zeta.
  change (2 ^ 53)%Z with 9007199254740992%Z.
  destruct (Z.ltb_spec (Z.abs z) 9007199254740992) as [_|]; [|lia].
  assert (L : (9007199254740992 < 2 ^ 1024)%Z) by reflexivity.
  destruct (Z.ltb_spec (Z.abs z) (2 ^ 1024)) as [_|G]; [reflexivity|].
  exfalso. apply (Z.lt_irrefl (Z.abs z)).
  eapply Z.lt_le_trans; [|exact G]. eapply Z.lt_trans; [exact H | exact L].
Qed.

Example parseInt_rounds :
  parseInt (JStr "9007199254740993") = Int 9007199254740992
  /\ parseInt (JStr "9007199254740995") = Int 9007199254740996
  /\ parseInt (JStr " 42px") = Int 42
  /\ parseInt (JStr "-0x1f") = Int (-31)
  /\ parseInt (JStr "abc") = NaN
  /\ parseInt (JNum "20") = Int 20.
Proof. repeat split. Qed.

(** *** The search text as a pattern *)

Lemma not_wildcard (a : ascii) :
  ~ wildcard a ->
  Ascii.eqb a "%" = false /\ Ascii.eqb a "_" = false /\ (code a =? 92) = false.
Proof.
  unfold wildcard, code. cbv zeta. intros H. repeat split.
  - apply Ascii.eqb_neq. intros ->. apply H. now left.
  - apply Ascii.eqb_neq. intros ->. apply H. right. now left.
  - apply Nat.eqb_neq. intros E. apply H. right. now right.
Qed.

(** A text without wild cards is read character by character. *)
Lemma like_pattern_plain (s : string) (rest : string) :
  all_chars (fun c => ~ wildcard c) s ->
  like_pattern (s ++ rest) = literals s ++ like_pattern rest.
Proof.
  induction s as [|a s IH]; cbn [all_chars append literals app]; [reflexivity|].
  intros [Ha Hs]. destruct (not_wildcard a Ha) as (E1 & E2 & E3).
  cbn [like_pattern]. rewrite E1, E2, E3. now rewrite (IH Hs).
Qed.

Lemma ilike_any (t : string) : ilike [AnyRun] t = true.
Proof.
  induction t as [|b t IH]; [reflexivity|].
  cbn [ilike] in *. now rewrite IH, orb_true_r.
Qed.

(** The literals of [s] followed by any run: [s] is a prefix, letter case
    apart. *)
Lemma ilike_prefix (s : string) : forall t,
  ilike (literals s ++ [AnyRun]) t
  = String.prefix (toLowerCase s) (toLowerCase t).
Proof.
  unfold toLowerCase.
  induction s as [|a s IH]; intros t; cbn [literals app str_map].
  - rewrite ilike_any. now destruct (str_map lower_char t).
  - destruct t as [|b t]; cbn [ilike str_map String.prefix]; [reflexivity|].
    rewrite IH.
    destruct (ascii_dec (lower_char a) (lower_char b)) as [E|N].
    + rewrite E, Ascii.eqb_refl. reflexivity.
    + apply Ascii.eqb_neq in N. now rewrite N.
Qed.

(** [contains], for a search text without wild cards: the field holds the
    text, letter case apart. *)
Lemma contains_plain (s field : string) :
  all_chars (fun c => ~ wildcard c) s ->
  contains_insensitive s field = includes (toLowerCase s) (toLowerCase field).
Proof.
  intros Hs. unfold contains_insensitive.
  change ("%" ++ s ++ "%")%string with (String "%" (s ++ "%")%string).
  cbn [like_pattern Ascii.eqb Bool.eqb]. cbv iota.
  rewrite (like_pattern_plain s "%" Hs).
  change (like_pattern "%") with [AnyRun].
  unfold toLowerCase.
  induction field as [|b t IH].
  - cbn [ilike str_map includes]. rewrite ilike_prefix. cbn [toLowerCase str_map].
    unfold toLowerCase. now rewrite !orb_false_r.
  - cbn [ilike str_map includes] in *. rewrite IH, ilike_prefix. reflexivity.
Qed.

Lemma prefix_split (t : string) : forall s,
  String.prefix t s = true <-> exists b, s = (t ++ b)%string.
Proof.
  induction t as [|c t IH]; intros s.
  - split; [intros _; now exists s | intros _; now destruct s].
  - destruct s as [|c' s]; cbn [String.prefix append].
    + split; [discriminate | intros (b & E); discriminate E].
    + destruct (ascii_dec c c') as [<-|N].
      * rewrite IH. split; intros (b & E); exists b; congruence.
      * split; [discriminate | intros (b & E); congruence].
Qed.

(** [includes]: the text [t] occurs in [s]. *)
Lemma includes_spec (t s : string) :
  includes t s = true <-> exists a b, s = (a ++ t ++ b)%string.
Proof.
  split.
  - induction s as [|c s IH]; cbn [includes]; rewrite orb_true_iff.
    + intros [H|H]; [|discriminate].
      apply prefix_split in H as (b & E). now exists "", b.
    + intros [H|H].
      * apply prefix_split in H as (b & E). now exists "", b.
      * destruct (IH H) as (a & b & ->). now exists (String c a), b.
  - intros (a & b & ->). induction a as [|c a IH]; cbn [append].
    + assert (P : String.prefix t (t ++ b) = true)
        by (apply prefix_split; now exists b).
      destruct (t ++ b)%string; cbn [includes]; now rewrite P.
    + cbn [includes]. now rewrite IH, orb_true_r.
Qed.

(** *** The filter of the listing *)

Lemma if_set_string (v : JsVal) (s : string) :
  v = JStr s -> s <> "" -> if_set v = Some (JStr s).
Proof.
  intros -> Hs. unfold if_set, truthy. simpl.
  apply String.eqb_neq in Hs. now rewrite Hs.
Qed.

Lemma if_set_param (v : JsVal) (p : option string) :
  filter_param v p -> if_set v = option_map JStr p.
Proof.
  destruct p as [s|]; cbn [filter_param option_map].
  - intros [-> Hs]. now apply if_set_string.
  - now intros [-> | ->].
Qed.

(** The [where] object the handler builds denotes the leads of the status
    and source given whose name or e-mail holds the search text, when that
    text has no wild card. *)
Lemma where_filter_matching (req : Request) (st og sr : option string) :
  filter_param (query req "status") st ->
  filter_param (query req "origem") og ->
  filter_param (query req "search") sr ->
  (forall s, sr = Some s -> all_chars (fun c => ~ wildcard c) s) ->
  exists f, where_filter (where_of req) = Some f
            /\ forall l, f l = matching st og sr l.
Proof.
  intros Hst Hog Hsr Hplain.
  unfold where_filter, where_of. cbn [w_status w_origem w_search].
  rewrite (if_set_param _ _ Hst), (if_set_param _ _ Hog), (if_set_param _ _ Hsr).
  clear Hst Hog Hsr.
  destruct st as [s1|], og as [s2|], sr as [s3|]; cbn [option_map];
    (eexists; split; [reflexivity|]); intros l; unfold matching;
    try rewrite !(contains_plain s3) by (now apply Hplain);
    try (destruct (origem l); cbn [opt_string_eqb]); reflexivity.
Qed.

Lemma filter_ext_eq {A} (f g : A -> bool) (l : list A) :
  (forall x, f x = g x) -> filter f l = filter g l.
Proof.
  intros H. induction l as [|x l IH]; cbn [filter]; [reflexivity|].
  now rewrite H, IH.
Qed.

(** [Math.ceil(total / limit)] for a positive [limit]: the least number of
    pages of [limit] rows that hold [total] rows. *)
Lemma ceil_div_spec (total l : Z) :
  (0 < l)%Z ->
  exists c, ceil_div total (Int l) = Some c
            /\ ((c - 1) * l < total <= c * l)%Z.
Proof.
  intros Hl. unfold ceil_div.
  destruct (l =? 0)%Z eqn:E; [apply Z.eqb_eq in E; lia|].
  eexists. split; [reflexivity|].
  pose proof (Z.div_mod (- total) l ltac:(lia)) as Hdm.
  pose proof (Z.mod_pos_bound (- total) l Hl) as Hb.
  nia.
Qed.

(** The listing, for an accepted key, a [page] and a [limit] of at least
    one with the rows skipped and the rows taken within 32 bits, filters
    given as texts, and two calls the store answers. *)
Lemma get_leads_page (cfg : Config) (req : Request) (o : Oracle) (d : DB)
    (page limit : Z) (st og sr : option string) :
  key_accepted cfg (query req "key") ->
  parseInt (with_default (JNum "1") (query req "page")) = Int page ->
  parseInt (with_default (JNum "20") (query req "limit")) = Int limit ->
  (1 <= page)%Z -> (1 <= limit <= 2147483647)%Z ->
  ((page - 1) * limit <= 2147483647)%Z ->
  filter_param (query req "status") st ->
  filter_param (query req "origem") og ->
  filter_param (query req "search") sr ->
  (forall s, sr = Some s -> all_chars (fun c => ~ wildcard c) s) ->
  reject (o 0) = false -> reject (o 1) = false ->
  let found := order_desc (filter (matching st og sr) (leads d)) in
  let total := Z.of_nat (List.length (filter (matching st og sr) (leads d))) in
  let offset := ((page - 1) * limit)%Z in
  exists totalPages,
    run (get_leads cfg req) o d =
    (inr (mkResponse 200
            (LeadList
               (map select_row
                    (firstn (Z.to_nat limit) (skipn (Z.to_nat offset) found)))
               total (Some page) (Some limit) (Some totalPages)
               (query req "status", query req "search", query req "origem"))),
     d)
    /\ ((totalPages - 1) * limit < total <= totalPages * limit)%Z.
Proof.
  intros Hk Hp Hl Hp1 Hl1 Hoff Hst Hog Hsr Hplain Hr0 Hr1 found total offset.
  destruct (ceil_div_spec total limit ltac:(lia)) as (c & Hc & Hb).
  exists c. split; [|exact Hb].
  destruct (where_filter_matching req st og sr Hst Hog Hsr Hplain)
    as (f & Hw & Hf).
  unfold get_leads. cbv zeta.
  assert (Hu : unauthorized cfg (query req "key") = false).
  { destruct (unauthorized cfg (query req "key")) eqn:E; [|reflexivity].
    apply unauthorized_iff in E. contradiction. }
  rewrite Hu, Hp, Hl. unfold where_of in Hw.
  cbn [js_sub js_mul].
  rewrite (to_double_exact (page - 1)) by lia.
  cbn [js_mul].
  rewrite (to_double_exact ((page - 1) * limit)) by nia.
  cbn [try_catch bind promise_all2 start settle run exec to_json].
  unfold lead_findMany, lead_count, shift. rewrite Hw, Hr0, Hr1.
  unfold slice, is_int32.
  replace ((0 <=? (page - 1) * limit)%Z) with true by (symmetry; apply Z.leb_le; nia).
  replace (((page - 1) * limit <=? 2147483647)%Z) with true
    by (symmetry; apply Z.leb_le; lia).
  replace ((0 <=? limit)%Z) with true by (symmetry; apply Z.leb_le; lia).
  replace ((limit <=? 2147483647)%Z) with true by (symmetry; apply Z.leb_le; lia).
  cbn [andb try_catch bind settle run].
  rewrite (filter_ext_eq f (matching st og sr) (leads d) Hf).
  fold total. rewrite Hc. reflexivity.
Qed.

Lemma key_matches_accepted (cfg : Config) (key : JsVal) :
  key_matches cfg key -> key_accepted cfg key.
Proof.
  unfold key_matches, key_accepted, env_API_KEY.
  intros [(s & E & K)|K]; subst key; [left; now rewrite E | now right].
Qed.



(** The same query against the same table, run. *)
Example page_two_of_twenty_five :
  match run (get_leads (mkConfig None)
               (mk_request [] [("key", JStr "mente-milionaria-2024");
                               ("status", JStr "contatado");
                               ("page", JStr "2"); ("limit", JStr "10")] ""))
            (calm "q" 100) (mixed_db 50) with
  | (inr (mkResponse 200 (LeadList data total page limit pages _)), _) =>
      map r_id data = map (fun i => ("id" ++ zeros i)%string)
                          [30; 28; 26; 24; 22; 20; 18; 16; 14; 12]
      /\ total = 25%Z /\ page = Some 2%Z /\ limit = Some 10%Z
      /\ pages = Some 3%Z
  | _ => False
  end.
Proof. vm_compute. repeat split. Qed.

(** A search text is a pattern: [_] alone matches every lead with a name,
    and a text without wild card only those that hold it. *)
Example search_wild_card :
  let rows s :=
    match run (get_leads (mkConfig None)
                 (mk_request [] [("key", JStr "mente-milionaria-2024");
                                 ("search", JStr s)] ""))
              (calm "q" 100) (sample_db 3) with
    | (inr (mkResponse 200 (LeadList data total _ _ _ _)), _) =>
        Some (List.length data, total)
    | _ => None
    end in
  rows "_" = Some (3, 3%Z)
  /\ rows "%" = Some (3, 3%Z)
  /\ rows "L00@" = Some (1, 1%Z)
  /\ rows "l_@" = Some (1, 1%Z)
  /\ rows "zz" = Some (0, 0%Z).
Proof. vm_compute. repeat split. Qed.

(* ===================================================================== *)
(** ** POST /api/leads/:leadId/conversao                                  *)
(* ===================================================================== *)

Lemma post_conversao_unfold (cfg : Config) (req : Request) :
  unauthorized cfg (query req "key") = false ->
  post_conversao cfg req =
  try_catch
    (conversao <- prisma (ConversaoCreate (conversao_data req)) ;;
     _ <- prisma (LeadUpdateStatus (params req "leadId") (JStr "convertido")) ;;
     Ret (mkResponse 201
            (ConversaoRegistered "Conversão registrada com sucesso" conversao)))%prog
    (fun _ => Ret res_internal_error).
Proof.
  intros Hu. unfold post_conversao. cbv zeta. now rewrite Hu.
Qed.

Lemma accepted_not_unauthorized (cfg : Config) (key : JsVal) :
  key_accepted cfg key -> unauthorized cfg key = false.
Proof.
  intros Hk. destruct (unauthorized cfg key) eqn:E; [|reflexivity].
  apply unauthorized_iff in E. contradiction.
Qed.

(** [conversao_create] leaves the store as it is unless it succeeds, and
    then appends the row it returns; the leads are not read. *)
Lemma conversao_create_cases (i : ConversaoCreateInput) (env : CallEnv) (d : DB) :
  (exists err, conversao_create i env d = (inl err, d))
  \/ (exists c, conversao_create i env d
                = (inr c, mkDB (leads d) (conversoes d ++ [c]))).
Proof.
  unfold conversao_create.
  destruct (req_text (in_tipo i)); [|left; eauto].
  destruct (opt_text None (in_descricao i)); [|left; eauto].
  destruct (reject env); [left; eauto|].
  destruct (existsb _ (conversoes d)); [left; eauto | right; eauto].
Qed.

(** The status update reaches the row of the given identifier. *)
Lemma find_after_update (i : string) (l : Lead) (f : Lead -> Lead)
    (rows : list Lead) :
  (forall x, id (f x) = id x) ->
  find (fun x => String.eqb (id x) i) rows = Some l ->
  find (fun x => String.eqb (id x) i)
       (map (fun x => if String.eqb (id x) i then f x else x) rows) = Some (f l).
Proof.
  intros Hid Hf. induction rows as [|x r IH]; simpl in *; [discriminate|].
  destruct (String.eqb (id x) i) eqn:E.
  - injection Hf as ->. simpl. rewrite Hid, E. reflexivity.
  - simpl. rewrite E. now apply IH.
Qed.

(** C1, amended.  The conversion handler issues two separate writes, with no
    transaction around them.  For an accepted key, an existing lead, a
    well-typed body and a fresh identifier: if the store rejects the first
    write, nothing changes; if it accepts the first and rejects the second,
    the Conversion row stays stored and the leads are unchanged, the answer
    being 500; if it accepts both, the answer is 201, the row is stored and
    the lead's status is ['convertido']. *)
Theorem record_conversion_two_writes (cfg : Config) (req : Request) (o : Oracle)
    (d : DB) (l : Lead) (t : string) (ds : option string) :
  key_accepted cfg (query req "key") ->
  find_lead_by_id (params req "leadId") d = Some l ->
  body req "tipo" = JStr t ->
  opt_text None (body req "descricao") = Some ds ->
  existsb (fun x => String.eqb (c_id x) (fresh_id (o 0))) (conversoes d) = false ->
  let c := mkConversao (fresh_id (o 0)) (params req "leadId") t
                       (in_valor (conversao_data req)) ds (now (o 0)) in
  let l' := set_status "convertido" (now (o 1)) l in
  (reject (o 0) = true ->
   run (post_conversao cfg req) o d = (inr res_internal_error, d))
  /\ (reject (o 0) = false -> reject (o 1) = true ->
      run (post_conversao cfg req) o d
      = (inr res_internal_error, mkDB (leads d) (conversoes d ++ [c])))
  /\ (reject (o 0) = false -> reject (o 1) = false ->
      let d' :=
        mkDB (map (fun x => if String.eqb (id x) (params req "leadId")
                            then set_status "convertido" (now (o 1)) x else x)
                  (leads d))
             (conversoes d ++ [c]) in
      run (post_conversao cfg req) o d
      = (inr (mkResponse 201
                (ConversaoRegistered "Conversão registrada com sucesso" c)), d')
      /\ find_lead_by_id (params req "leadId") d' = Some l'
      /\ status l' = "convertido").
Proof.
  intros Hk Hl Ht Hd Hfresh c l'.
  rewrite (post_conversao_unfold cfg req (accepted_not_unauthorized _ _ Hk)).
  cbn [try_catch bind prisma start settle run exec].
  unfold conversao_create, conversao_data. cbn [in_tipo in_descricao in_leadId in_valor].
  rewrite Ht, Hd. cbn [req_text].
  split; [|split].
  - intros ->. reflexivity.
  - intros -> Hr1. cbn [c_id]. rewrite Hfresh.
    cbn [try_catch bind settle run exec req_text].
    unfold lead_update_status, shift. rewrite Hr1. reflexivity.
  - intros -> Hr1. cbn [c_id]. rewrite Hfresh.
    cbn [try_catch bind settle run exec req_text].
    unfold lead_update_status, shift. rewrite Hr1.
    unfold find_lead_by_id in *. cbn [leads]. rewrite Hl.
    cbv zeta. split; [reflexivity|]. split; [|reflexivity].
    apply (find_after_update _ l (set_status "convertido" (now (o 1))));
      [reflexivity | exact Hl].
Qed.

(** One stored lead, a conversion for it, and a store that accepts the
    first write and rejects the second. *)
Lemma record_conversion_two_writes_witness :
  let cfg := mkConfig None in
  let req := mk_request [("tipo", JStr "venda")]
                        [("key", JStr "mente-milionaria-2024")] "id0" in
  let o := failing_at 1 "c" 50 in
  let d := sample_db 1 in
  let c := mkConversao "c0" "id0" "venda" None None 50 in
  let l' := set_status "convertido" 51 (sample_lead 1) in
  (reject (o 0) = true ->
   run (post_conversao cfg req) o d = (inr res_internal_error, d))
  /\ (reject (o 0) = false -> reject (o 1) = true ->
      run (post_conversao cfg req) o d
      = (inr res_internal_error, mkDB (leads d) (conversoes d ++ [c])))
  /\ (reject (o 0) = false -> reject (o 1) = false ->
      let d' :=
        mkDB (map (fun x => if String.eqb (id x) "id0"
                            then set_status "convertido" 51 x else x) (leads d))
             (conversoes d ++ [c]) in
      run (post_conversao cfg req) o d
      = (inr (mkResponse 201
                (ConversaoRegistered "Conversão registrada com sucesso" c)), d')
      /\ find_lead_by_id "id0" d' = Some l'
      /\ status l' = "convertido").
Proof.
  apply (record_conversion_two_writes (mkConfig None)
           (mk_request [("tipo", JStr "venda")]
                       [("key", JStr "mente-milionaria-2024")] "id0")
           (failing_at 1 "c" 50) (sample_db 1) (sample_lead 1) "venda" None);
    [right; reflexivity | reflexivity | reflexivity | reflexivity | reflexivity].
Defined.

(** C1, counterexample.  The lead exists, the store accepts the creation
    of the Conversion row and rejects the update of the lead; the answer is
    500 and the row is stored all the same, the lead keeping its status. *)
Lemma record_conversion_not_atomic :
  let cfg := mkConfig None in
  let req := mk_request [("tipo", JStr "venda")]
                        [("key", JStr "mente-milionaria-2024")] "id0" in
  let d := sample_db 1 in
  let out := run (post_conversao cfg req) (failing_at 1 "c" 50) d in
  find_lead_by_id "id0" d = Some (sample_lead 1)
  /\ fst out = inr res_internal_error
  /\ conversoes d = []
  /\ conversoes (snd out) = [mkConversao "c0" "id0" "venda" None None 50]
  /\ map status (leads (snd out)) = ["novo"]
  /\ snd out <> d.
Proof.
  cbv zeta. repeat split. discriminate.
Qed.

(** C5, the code where the claim expects 404 [LEAD_NOT_FOUND].  For an
    accepted key and an identifier that no lead carries, every run of the
    conversion handler answers 500 [INTERNAL_ERROR]; the [catch] clause has
    no case for [P2025], unlike that of the status update.  When the store
    accepts the first write, the Conversion row stays stored, attached to no
    lead. *)
Theorem post_conversao_missing_lead (cfg : Config) (req : Request) (o : Oracle)
    (d : DB) :
  key_accepted cfg (query req "key") ->
  find_lead_by_id (params req "leadId") d = None ->
  exists d',
    run (post_conversao cfg req) o d = (inr res_internal_error, d')
    /\ leads d' = leads d
    /\ (forall c, fst (conversao_create (conversao_data req) (o 0) d) = inr c ->
        conversoes d' = conversoes d ++ [c]).
Proof.
  intros Hk Hl.
  rewrite (post_conversao_unfold cfg req (accepted_not_unauthorized _ _ Hk)).
  cbn [try_catch bind prisma start settle run exec].
  destruct (conversao_create_cases (conversao_data req) (o 0) d)
    as [(err & E) | (c & E)]; rewrite E.
  - exists d. cbn [try_catch bind settle run fst]. repeat split. discriminate.
  - cbn [try_catch bind settle run exec req_text fst].
    unfold lead_update_status, shift, find_lead_by_id in *. cbn [leads].
    rewrite Hl.
    exists (mkDB (leads d) (conversoes d ++ [c])).
    destruct (reject (o 1)); cbn [try_catch bind settle run];
      (split; [reflexivity|]; split; [reflexivity|]);
      intros c0 H; now injection H as ->.
Qed.

(** The same request on the status update is answered 404. *)
Lemma patch_status_missing_lead (cfg : Config) (req : Request) (o : Oracle)
    (d : DB) :
  key_accepted cfg (query req "key") ->
  valid_status (body req "status") = true ->
  reject (o 0) = false ->
  find_lead_by_id (params req "id") d = None ->
  run (patch_status cfg req) o d = (inr res_lead_not_found, d).
Proof.
  intros Hk Hv Hr Hl. unfold patch_status. cbv zeta.
  rewrite (accepted_not_unauthorized _ _ Hk), Hv. simpl negb. cbv iota.
  apply valid_status_iff in Hv as (s & _ & ->).
  cbn [try_catch bind prisma start settle run exec req_text].
  unfold lead_update_status. rewrite Hr, Hl. reflexivity.
Qed.

(** A conversion for a lead that does not exist, on an empty store. *)
Lemma post_conversao_missing_lead_witness :
  exists d',
    run (post_conversao (mkConfig None)
           (mk_request [("tipo", JStr "venda")]
                       [("key", JStr "mente-milionaria-2024")] "nope"))
        (calm "c" 5) empty_db = (inr res_internal_error, d')
    /\ leads d' = leads empty_db
    /\ (forall c,
          fst (conversao_create
                 (conversao_data
                    (mk_request [("tipo", JStr "venda")]
                                [("key", JStr "mente-milionaria-2024")] "nope"))
                 (calm "c" 5 0) empty_db) = inr c ->
        conversoes d' = conversoes empty_db ++ [c]).
Proof.
  apply (post_conversao_missing_lead (mkConfig None)
           (mk_request [("tipo", JStr "venda")]
                       [("key", JStr "mente-milionaria-2024")] "nope")
           (calm "c" 5) empty_db);
    [right; reflexivity | reflexivity].
Defined.

Example orphan_conversion_run :
  run (post_conversao (mkConfig None)
         (mk_request [("tipo", JStr "venda")]
                     [("key", JStr "mente-milionaria-2024")] "nope"))
      (calm "c" 5) empty_db
  = (inr (failure 500 "Erro interno do servidor" "INTERNAL_ERROR"),
     mkDB [] [mkConversao "c0" "nope" "venda" None None 5]).
Proof. reflexivity. Qed.

(* ===================================================================== *)
(** ** POST /api/leads: a conflict raised by the insertion                *)
(* ===================================================================== *)

(** C2, amended.  When the look-up has found no lead for the e-mail and the
    insertion then raises [P2002] (the state of the store having changed in
    between), the handler answers 409 with code [EMAIL_EXISTS], message
    ['Email já cadastrado'] and no [data]: it is not an internal error, and
    the date of the earlier capture is not part of the answer. *)
Theorem insert_conflict_is_email_exists (req : Request) (n e t : string)
    (env1 : CallEnv) (d1 : DB) (o : Oracle) (d2 : DB) :
  validated req = true ->
  sanitizeInput (body req "nome") = JStr n ->
  sanitizeInput (body req "email") = JStr e ->
  sanitizeInput (body req "telefone") = JStr t ->
  reject env1 = false ->
  find_lead_by_email (toLowerCase e) d1 = None ->
  fst (lead_create
         (lead_data req (trim n) (trim (toLowerCase e)) (trim t)
                    (sanitizeInput (body req "origem"))) (o 0) d2) = inl P2002 ->
  let pending := fst (step (post_leads req) env1 d1) in
  snd (step (post_leads req) env1 d1) = d1
  /\ run pending o d2 =
     (inr (mkResponse 409 (Failure "Email já cadastrado" "EMAIL_EXISTS" None)), d2).
Proof.
  intros Hv Hn He Ht Hr Hf Hc pending. subst pending.
  rewrite (post_leads_validated req e Hv He). rewrite Hn, Ht.
  cbn [step exec]. unfold lead_findUnique_email. rewrite Hr, Hf.
  cbn [fst snd settle bind]. split; [reflexivity|].
  rewrite post_leads_insert_run.
  destruct (lead_create_cases
              (lead_data req (trim n) (trim (toLowerCase e)) (trim t)
                         (sanitizeInput (body req "origem"))) (o 0) d2)
    as [(err & E) | (l & E & _)]; rewrite E in *; cbn [fst] in Hc.
  - injection Hc as ->. reflexivity.
  - discriminate.
Qed.

(** Two submissions of one e-mail in flight together: both look the e-mail
    up before either inserts. *)
Lemma insert_conflict_is_email_exists_witness :
  let r2 := mk_request [("nome", JStr "Ana"); ("email", JStr "jo@x.COM");
                        ("telefone", JStr "(11) 98765-4321")] [] "" in
  let d2 := mkDB [mkLead "a00" "Jo" "jo@x.com" "11987654321" (Some "website")
                         "novo" None None None None None None None None 101 101]
                 [] in
  let pending := fst (step (post_leads r2) (calm "b" 200 0) empty_db) in
  snd (step (post_leads r2) (calm "b" 200 0) empty_db) = empty_db
  /\ run pending (shift (calm "b" 200)) d2 =
     (inr (mkResponse 409 (Failure "Email já cadastrado" "EMAIL_EXISTS" None)), d2).
Proof.
  apply (insert_conflict_is_email_exists
           (mk_request [("nome", JStr "Ana"); ("email", JStr "jo@x.COM");
                        ("telefone", JStr "(11) 98765-4321")] [] "")
           "Ana" "jo@x.COM" "(11) 98765-4321");
    reflexivity.
Defined.

(** C2, counterexample.  Two submissions of the same e-mail, each looking
    the e-mail up before the other inserts.  The first is stored at time
    101; the second is answered 409 [EMAIL_EXISTS] from the [catch] clause,
    with no [dataAnterior], whereas the pre-check path answers the same
    submission, on the same store, with [dataAnterior = 101]. *)
Lemma insert_conflict_omits_captured_at :
  let r1 := mk_request [("nome", JStr "Jo"); ("email", JStr "Jo@X.com");
                        ("telefone", JStr "11987654321")] [] "" in
  let r2 := mk_request [("nome", JStr "Ana"); ("email", JStr "jo@x.COM");
                        ("telefone", JStr "(11) 98765-4321")] [] "" in
  let '(a1, a2, d) :=
    interleave [true; false] (post_leads r1) (calm "a" 100)
               (post_leads r2) (calm "b" 200) empty_db in
  option_map http_status (match a1 with inr r => Some r | inl _ => None end) = Some 201
  /\ map dataCaptura (leads d) = [101%Z]
  /\ a2 = inr (mkResponse 409 (Failure "Email já cadastrado" "EMAIL_EXISTS" None))
  /\ fst (run (post_leads r2) (calm "b" 200) d)
     = inr (mkResponse 409
              (Failure "Este email já está cadastrado" "EMAIL_EXISTS"
                       (Some 101%Z)))
  /\ a2 <> fst (run (post_leads r2) (calm "b" 200) d).
Proof.
  cbv zeta. vm_compute. repeat split. discriminate.
Qed.

(* ===================================================================== *)
(** ** E-mail uniqueness                                                  *)
(* ===================================================================== *)

Lemma db_inv_unique (d : DB) : db_inv d -> emails_unique d.
Proof.
  intros [Hn Hl]. unfold emails_unique.
  replace (map (fun l => toLowerCase (email l)) (leads d))
    with (map email (leads d)); [exact Hn|].
  apply map_ext_in. intros l Hin.
  rewrite Forall_forall in Hl. symmetry. now apply Hl.
Qed.

Lemma lead_of_input_email (i : LeadCreateInput) (env : CallEnv) (l : Lead) :
  lead_of_input i env = Some l -> email l = in_email i.
Proof.
  unfold lead_of_input. intros H.
  destruct (opt_text (Some "website") (in_origem i)); [|discriminate].
  destruct (opt_text None (in_utmSource i)); [|discriminate].
  destruct (opt_text None (in_utmMedium i)); [|discriminate].
  destruct (opt_text None (in_utmCampaign i)); [|discriminate].
  destruct (opt_text None (in_utmContent i)); [|discriminate].
  destruct (opt_text None (in_utmTerm i)); [|discriminate].
  injection H as <-. reflexivity.
Qed.

Lemma find_email_none (e : string) (d : DB) :
  find_lead_by_email e d = None -> ~ In e (map email (leads d)).
Proof.
  unfold find_lead_by_email. intros Hf Hin.
  apply in_map_iff in Hin as (l & <- & Hl).
  pose proof (find_none _ _ Hf l Hl) as H. simpl in H.
  now rewrite String.eqb_refl in H.
Qed.

Lemma find_email_some (e : string) (d : DB) (l : Lead) :
  find_lead_by_email e d = Some l -> In l (leads d) /\ email l = e.
Proof.
  unfold find_lead_by_email. intros Hf.
  apply find_some in Hf as [Hin He]. split; [exact Hin|].
  now apply String.eqb_eq.
Qed.

Lemma NoDup_snoc {A} (l : list A) (x : A) :
  NoDup l -> ~ In x l -> NoDup (l ++ [x]).
Proof.
  intros Hn Hx. apply (Permutation_NoDup (l := x :: l)).
  - apply Permutation_cons_append.
  - now constructor.
Qed.

Lemma db_inv_append (d : DB) (l : Lead) (cs : list Conversao) :
  db_inv d ->
  find_lead_by_email (email l) d = None ->
  toLowerCase (email l) = email l ->
  db_inv (mkDB (leads d ++ [l]) cs).
Proof.
  intros [Hn Hl] Hf Hlow. split; cbn [leads].
  - rewrite map_app. simpl. apply NoDup_snoc; [exact Hn|].
    now apply find_email_none.
  - apply Forall_app. split; [exact Hl|]. now repeat constructor.
Qed.

Lemma db_inv_update (d : DB) (i st : string) (t : Z) (cs : list Conversao) :
  db_inv d ->
  db_inv (mkDB (map (fun x => if String.eqb (id x) i then set_status st t x else x)
                    (leads d)) cs).
Proof.
  intros [Hn Hl]. split; cbn [leads].
  - rewrite map_map.
    replace (map _ (leads d)) with (map email (leads d)); [exact Hn|].
    apply map_ext. intros x. now destruct (String.eqb (id x) i).
  - rewrite Forall_map. eapply Forall_impl; [|exact Hl].
    intros x Hx. now destruct (String.eqb (id x) i).
Qed.

Lemma db_inv_leads (d d' : DB) : leads d' = leads d -> db_inv d -> db_inv d'.
Proof. unfold db_inv. now intros ->. Qed.

(** Every storage call that writes a lower-case e-mail, or none, keeps the
    unique index and the case of the stored e-mails. *)
Lemma exec_preserves (op : Op) (env : CallEnv) (d : DB) :
  lowers_email op -> db_inv d -> db_inv (snd (exec op env d)).
Proof.
  intros Hop Hd. destruct op; cbn [exec].
  - unfold lead_findUnique_email. now destruct (reject env).
  - unfold lead_findUnique_id. now destruct (reject env).
  - destruct (lead_create_cases data env d)
      as [(err & E) | (l & E & Hl & _ & _ & Hf)]; rewrite E; cbn [snd];
      [exact Hd|].
    apply lead_of_input_email in Hl. cbn [lowers_email] in Hop.
    rewrite <- Hl in Hop. now apply db_inv_append.
  - destruct (req_text st); [|exact Hd].
    unfold lead_update_status. destruct (reject env); [exact Hd|].
    destruct (find_lead_by_id i d); [|exact Hd].
    cbn [snd]. now apply db_inv_update.
  - unfold lead_findMany. destruct (where_filter w); [|exact Hd].
    destruct (slice _ _ _); [|exact Hd]. now destruct (reject env).
  - unfold lead_count. destruct (where_filter w); [|exact Hd].
    now destruct (reject env).
  - unfold lead_count_since. now destruct (reject env).
  - unfold lead_groupBy. now destruct (reject env).
  - destruct (conversao_create_cases data env d) as [(err & E) | (c & E)];
      rewrite E; cbn [snd]; [exact Hd|].
    now apply (db_inv_leads d).
Qed.

Lemma step_preserves {A} (p : Prog A) (env : CallEnv) (d : DB) :
  calls_satisfy lowers_email p -> db_inv d ->
  calls_satisfy lowers_email (fst (step p env d)) /\ db_inv (snd (step p env d)).
Proof.
  intros Hp Hd. destruct p as [a | e | op k]; cbn [step]; auto.
  destruct Hp as [Hop Hk].
  pose proof (exec_preserves op env d Hop Hd) as H.
  destruct (exec op env d) as [r d']. cbn [fst snd] in *. auto.
Qed.

Lemma run_preserves {A} (p : Prog A) : forall o d,
  calls_satisfy lowers_email p -> db_inv d -> db_inv (snd (run p o d)).
Proof.
  induction p as [a | e | op k IH]; intros o d Hp Hd; cbn [run]; auto.
  destruct Hp as [Hop Hk].
  pose proof (exec_preserves op (o 0) d Hop Hd) as H.
  destruct (exec op (o 0) d) as [r d']. cbn [snd] in H. now apply IH.
Qed.

Lemma interleave_preserves {A B} (sched : list bool) :
  forall (p : Prog A) (op_ : Oracle) (q : Prog B) (oq : Oracle) (d : DB),
  calls_satisfy lowers_email p -> calls_satisfy lowers_email q -> db_inv d ->
  db_inv (snd (interleave sched p op_ q oq d)).
Proof.
  induction sched as [|b sched IH]; intros p op_ q oq d Hp Hq Hd; cbn [interleave].
  - pose proof (run_preserves p op_ d Hp Hd) as H1.
    destruct (run p op_ d) as [ra d1]. cbn [snd] in H1.
    pose proof (run_preserves q oq d1 Hq H1) as H2.
    destruct (run q oq d1) as [rb d2]. exact H2.
  - destruct b.
    + destruct (step_preserves p (op_ 0) d Hp Hd) as [Hp' Hd'].
      destruct (step p (op_ 0) d) as [p' d']. now apply IH.
    + destruct (step_preserves q (oq 0) d Hq Hd) as [Hq' Hd'].
      destruct (step q (oq 0) d) as [q' d']. now apply IH.
Qed.

Lemma try_catch_calls {A} (P : Op -> Prop) (p : Prog A) (h : JsError -> Prog A) :
  calls_satisfy P p -> (forall e, calls_satisfy P (h e)) ->
  calls_satisfy P (try_catch p h).
Proof.
  intros Hp Hh. induction p as [a | e | op k IH]; simpl in *; auto.
  destruct Hp as [Hop Hk]. auto.
Qed.

Ltac calls_ok :=
  repeat match goal with
         | |- calls_satisfy _ (if ?c then _ else _) => destruct c
         | |- calls_satisfy _ (try_catch _ _) => apply try_catch_calls
         | |- forall _, _ => intro
         | |- _ /\ _ => split
         | r : result _ |- _ => destruct r
         | r : (_ + _)%type |- _ => destruct r
         | |- _ => progress cbn
         | |- True => exact I
         end.

Lemma post_leads_calls (req : Request) : calls_satisfy lowers_email (post_leads req).
Proof.
  unfold post_leads. apply try_catch_calls.
  2:{ intros e. unfold post_leads_catch. now destruct (is_P2002 e). }
  unfold post_leads_body. cbv zeta.
  repeat match goal with
         | |- calls_satisfy _ (if ?c then _ else _) => destruct c; [exact I|]
         end.
  destruct (sanitizeInput (body req "email")); try exact I.
  cbn. split; [exact I|]. intros [e1|[l|]]; cbn; try exact I.
  destruct (sanitizeInput (body req "nome")); try exact I.
  destruct (sanitizeInput (body req "telefone")); try exact I.
  cbn. split; [apply stored_email_lower|]. intros [e2|a2]; exact I.
Qed.

Lemma get_leads_calls cfg req : calls_satisfy lowers_email (get_leads cfg req).
Proof. unfold get_leads. cbv zeta. calls_ok. Qed.

Lemma get_lead_calls cfg req : calls_satisfy lowers_email (get_lead cfg req).
Proof.
  unfold get_lead. cbv zeta. calls_ok.
  match goal with |- calls_satisfy _ (match ?x with _ => _ end) => now destruct x end.
Qed.

Lemma patch_status_calls cfg req : calls_satisfy lowers_email (patch_status cfg req).
Proof. unfold patch_status. cbv zeta. calls_ok. Qed.

Lemma get_stats_calls cfg req : calls_satisfy lowers_email (get_stats cfg req).
Proof. unfold get_stats. cbv zeta. calls_ok. Qed.

Lemma post_conversao_calls cfg req : calls_satisfy lowers_email (post_conversao cfg req).
Proof. unfold post_conversao. cbv zeta. calls_ok. Qed.

Lemma handler_calls (p : Prog Response) :
  handler p -> calls_satisfy lowers_email p.
Proof.
  intros []; auto using post_leads_calls, get_leads_calls, get_lead_calls,
    patch_status_calls, get_stats_calls, post_conversao_calls.
Qed.

Lemma find_snoc {A} (f : A -> bool) (l : list A) (x : A) :
  find f l = None -> f x = true -> find f (l ++ [x]) = Some x.
Proof.
  intros Hn Hx. induction l as [|y r IH]; simpl in *.
  - now rewrite Hx.
  - destruct (f y); [discriminate | now apply IH].
Qed.

Lemma filter_none {A} (f : A -> bool) (l : list A) :
  (forall x, In x l -> f x = false) -> filter f l = [].
Proof.
  induction l as [|y r IH]; simpl; intros H; [reflexivity|].
  rewrite (H y (or_introl eq_refl)). apply IH. intros x Hx. apply H. now right.
Qed.

(** A second submission of a stored e-mail, in any case, after the first
    has completed. *)
Lemma duplicate_submission (r1 r2 : Request) (e1 e2 : string) (o1 o2 : Oracle)
    (d d1 : DB) (resp1 : Response) :
  db_inv d ->
  sanitizeInput (body r1 "email") = JStr e1 ->
  sanitizeInput (body r2 "email") = JStr e2 ->
  toLowerCase e1 = toLowerCase e2 ->
  run (post_leads r1) o1 d = (inr resp1, d1) ->
  http_status resp1 = 201 ->
  validated r2 = true ->
  reject (o2 0) = false ->
  exists l,
    leads d1 = leads d ++ [l]
    /\ email l = toLowerCase e1
    /\ json resp1 =
       LeadCaptured "Lead capturado com sucesso! Entraremos em contato em breve."
                    (id l) (nome l) (email l) (dataCaptura l)
    /\ run (post_leads r2) o2 d1 =
       (inr (mkResponse 409
               (Failure "Este email já está cadastrado" "EMAIL_EXISTS"
                        (Some (dataCaptura l)))), d1)
    /\ count_email e1 d1 = 1.
Proof.
  intros Hd He1 He2 Hlow Hrun Hst Hv2 Hr2.
  destruct (post_leads_created r1 o1 d d1 resp1 Hrun Hst)
    as (n & e & t & l & Hv1 & _ & He & _ & Hf & Hl & -> & Hj).
  rewrite He1 in He. injection He as <-.
  assert (Hmail : email l = toLowerCase e1).
  { rewrite (lead_of_input_email _ _ _ Hl). cbn [lead_data in_email].
    apply valid_email_stored_as_looked_up.
    apply validated_inv in Hv1 as (_ & _ & H3 & _).
    unfold invalid_email in H3. rewrite He1 in H3.
    now apply negb_false_iff in H3. }
  exists l. split; [reflexivity|]. split; [exact Hmail|]. split; [exact Hj|].
  split.
  - apply (post_leads_existing r2 e2); auto.
    unfold find_lead_by_email in *. cbn [leads].
    apply find_snoc; [now rewrite <- Hlow|].
    simpl. rewrite Hmail, Hlow. apply String.eqb_refl.
  - unfold count_email. cbn [leads]. rewrite filter_app, length_app.
    simpl. rewrite Hmail, toLowerCase_idem, String.eqb_refl. simpl.
    rewrite filter_none; [reflexivity|].
    intros x Hx. destruct Hd as [_ Hall]. rewrite Forall_forall in Hall.
    rewrite (Hall x Hx).
    exact (find_none _ _ Hf x Hx).
Qed.

(** C3.  The store keeps e-mails unique up to case: the property holds of
    the empty store and every handler keeps it, run alone or interleaved
    with another, whatever the store answers.  A submission whose e-mail
    equals, after lower-casing, that of a submission already stored is
    answered 409 [EMAIL_EXISTS] with the date of the first capture, the
    store being left as it was, with exactly one lead for that e-mail. *)
Theorem email_uniqueness :
  db_inv empty_db
  /\ (forall d, db_inv d -> emails_unique d)
  /\ (forall p o d, handler p -> db_inv d -> db_inv (snd (run p o d)))
  /\ (forall p q sched op_ oq d, handler p -> handler q -> db_inv d ->
        db_inv (snd (interleave sched p op_ q oq d)))
  /\ (forall r1 r2 e1 e2 o1 o2 d d1 resp1,
        db_inv d ->
        sanitizeInput (body r1 "email") = JStr e1 ->
        sanitizeInput (body r2 "email") = JStr e2 ->
        toLowerCase e1 = toLowerCase e2 ->
        run (post_leads r1) o1 d = (inr resp1, d1) ->
        http_status resp1 = 201 ->
        validated r2 = true ->
        reject (o2 0) = false ->
        exists l,
          leads d1 = leads d ++ [l]
          /\ email l = toLowerCase e1
          /\ json resp1 =
             LeadCaptured
               "Lead capturado com sucesso! Entraremos em contato em breve."
               (id l) (nome l) (email l) (dataCaptura l)
          /\ run (post_leads r2) o2 d1 =
             (inr (mkResponse 409
                     (Failure "Este email já está cadastrado" "EMAIL_EXISTS"
                              (Some (dataCaptura l)))), d1)
          /\ count_email e1 d1 = 1).
Proof.
  split; [|split; [|split; [|split]]].
  - split; constructor.
  - exact db_inv_unique.
  - intros p o d Hp Hd. apply run_preserves; [now apply handler_calls | exact Hd].
  - intros p q sched op_ oq d Hp Hq Hd.
    apply interleave_preserves; auto using handler_calls.
  - exact duplicate_submission.
Qed.

(** ['Jo@X.com'] is stored, then ['jo@x.COM'] is submitted. *)
Lemma email_uniqueness_witness :
  let r1 := mk_request [("nome", JStr "Jo"); ("email", JStr "Jo@X.com");
                        ("telefone", JStr "11987654321")] [] "" in
  let r2 := mk_request [("nome", JStr "Ana"); ("email", JStr "jo@x.COM");
                        ("telefone", JStr "(11) 98765-4321")] [] "" in
  let d1 := snd (run (post_leads r1) (calm "a" 100) empty_db) in
  exists l,
    leads d1 = leads empty_db ++ [l]
    /\ email l = toLowerCase "Jo@X.com"
    /\ LeadCaptured "Lead capturado com sucesso! Entraremos em contato em breve."
                    "a00" "Jo" "jo@x.com" 101
       = LeadCaptured
           "Lead capturado com sucesso! Entraremos em contato em breve."
           (id l) (nome l) (email l) (dataCaptura l)
    /\ run (post_leads r2) (calm "b" 200) d1 =
       (inr (mkResponse 409
               (Failure "Este email já está cadastrado" "EMAIL_EXISTS"
                        (Some (dataCaptura l)))), d1)
    /\ count_email "Jo@X.com" d1 = 1.
Proof.
  apply (proj2 (proj2 (proj2 (proj2 email_uniqueness)))
           (mk_request [("nome", JStr "Jo"); ("email", JStr "Jo@X.com");
                        ("telefone", JStr "11987654321")] [] "")
           (mk_request [("nome", JStr "Ana"); ("email", JStr "jo@x.COM");
                        ("telefone", JStr "(11) 98765-4321")] [] "")
           "Jo@X.com" "jo@x.COM" (calm "a" 100) (calm "b" 200) empty_db _
           (mkResponse 201
              (LeadCaptured
                 "Lead capturado com sucesso! Entraremos em contato em breve."
                 "a00" "Jo" "jo@x.com" 101)));
    try reflexivity.
  split; constructor.
Defined.

(* ===================================================================== *)
(** ** The matcher computes the language of its pattern                   *)
(* ===================================================================== *)

Lemma str_app_nil_r (s : string) : (s ++ "")%string = s.
Proof. induction s as [|a s IH]; simpl; [reflexivity | now rewrite IH]. Qed.

Lemma str_app_assoc (a b c : string) :
  ((a ++ b) ++ c)%string = (a ++ (b ++ c))%string.
Proof. induction a as [|x a IH]; simpl; [reflexivity | now rewrite IH]. Qed.

Lemma str_app_eq_nil (a b : string) : (a ++ b)%string = "" -> a = "" /\ b = "".
Proof. destruct a; simpl; [auto | discriminate]. Qed.

Section MatcherCorrect.
Import Regex.

Lemma matches_cat_inv (r1 r2 : re) (s : string) :
  matches (Cat r1 r2) s ->
  exists s1 s2, s = (s1 ++ s2)%string /\ matches r1 s1 /\ matches r2 s2.
Proof. intros H. inversion H; subst. eauto. Qed.

Lemma matches_alt_inv (r1 r2 : re) (s : string) :
  matches (Alt r1 r2) s -> matches r1 s \/ matches r2 s.
Proof. intros H. inversion H; subst; auto. Qed.

Lemma nullable_matches (r : re) : nullable r = true <-> matches r "".
Proof.
  induction r as [| | p | r1 IH1 r2 IH2 | r1 IH1 r2 IH2 | r IH]; simpl.
  - split; [discriminate | intros H; inversion H].
  - split; [constructor | reflexivity].
  - split; [discriminate | intros H; inversion H].
  - rewrite andb_true_iff, IH1, IH2. split.
    + intros [H1 H2]. exact (MCat _ _ "" "" H1 H2).
    + intros H. apply matches_cat_inv in H as (s1 & s2 & E & H1 & H2).
      symmetry in E. apply str_app_eq_nil in E as [-> ->]. now split.
  - rewrite orb_true_iff, IH1, IH2. split.
    + intros [H|H]; [now apply MAltL | now apply MAltR].
    + apply matches_alt_inv.
  - split; [constructor | reflexivity].
Qed.

(** A non-empty word of [Star r] starts with a non-empty word of [r]. *)
Lemma star_cons (r : re) (w : string) :
  matches (Star r) w -> forall c s, w = String c s ->
  exists s1 s2, s = (s1 ++ s2)%string
                /\ matches r (String c s1) /\ matches (Star r) s2.
Proof.
  intros H. remember (Star r) as r' eqn:E.
  induction H as [| | | | | r0 | r0 s1 s2 H1 _ H2 IH2]; try discriminate.
  injection E as ->. intros c s Hw.
  destruct s1 as [|a s1]; simpl in Hw.
  - now apply IH2.
  - injection Hw as -> <-. eauto.
Qed.

Lemma deriv_matches (r : re) : forall c s,
  matches (deriv c r) s <-> matches r (String c s).
Proof.
  induction r as [| | p | r1 IH1 r2 IH2 | r1 IH1 r2 IH2 | r IH]; intros c s; simpl.
  - split; intros H; inversion H.
  - split; intros H; inversion H.
  - destruct (p c) eqn:Hp; split; intros H; inversion H; subst.
    + now constructor.
    + constructor.
    + congruence.
  - assert (Hcat : matches (Cat (deriv c r1) r2) s <->
                   exists s1 s2, s = (s1 ++ s2)%string
                                 /\ matches r1 (String c s1) /\ matches r2 s2).
    { split.
      - intros H. apply matches_cat_inv in H as (s1 & s2 & -> & H1 & H2).
        apply IH1 in H1. eauto.
      - intros (s1 & s2 & -> & H1 & H2). constructor; [now apply IH1 | exact H2]. }
    assert (Hgoal : matches (Cat r1 r2) (String c s) <->
                    (exists s1 s2, s = (s1 ++ s2)%string
                                   /\ matches r1 (String c s1) /\ matches r2 s2)
                    \/ (matches r1 "" /\ matches r2 (String c s))).
    { split.
      - intros H. apply matches_cat_inv in H as (s1 & s2 & E & H1 & H2).
        destruct s1 as [|a s1]; simpl in E.
        + right. subst. now split.
        + injection E as <- ->. left. eauto.
      - intros [(s1 & s2 & -> & H1 & H2) | [H1 H2]].
        + exact (MCat _ _ (String c s1) s2 H1 H2).
        + exact (MCat _ _ "" (String c s) H1 H2). }
    rewrite Hgoal. destruct (nullable r1) eqn:Hn.
    + split.
      * intros H. apply matches_alt_inv in H as [H|H].
        -- left. now apply Hcat.
        -- right. split; [now apply nullable_matches | now apply IH2].
      * intros [H | [_ H]]; [apply MAltL; now apply Hcat | apply MAltR; now apply IH2].
    + rewrite Hcat. split; [auto|].
      intros [H | [H _]]; [exact H|].
      apply nullable_matches in H. congruence.
  - split; intros H; apply matches_alt_inv in H as [H|H];
      [apply MAltL | apply MAltR | apply MAltL | apply MAltR];
      first [now apply IH1 | now apply IH2].
  - split.
    + intros H. apply matches_cat_inv in H as (s1 & s2 & -> & H1 & H2).
      apply IH in H1. exact (MStarS _ (String c s1) s2 H1 H2).
    + intros H. destruct (star_cons r _ H c s eq_refl) as (s1 & s2 & -> & H1 & H2).
      constructor; [now apply IH | exact H2].
Qed.

Lemma full_match_matches (s : string) : forall r,
  full_match r s = true <-> matches r s.
Proof.
  induction s as [|c s IH]; intros r; simpl.
  - apply nullable_matches.
  - rewrite IH. apply deriv_matches.
Qed.

(** The words of [[p]+]. *)
Lemma matches_plus_cls (p : ascii -> bool) (s : string) :
  matches (Plus (Cls p)) s <-> s <> "" /\ str_forall p s = true.
Proof.
  assert (Hstar : forall s, matches (Star (Cls p)) s <-> str_forall p s = true).
  { clear s. intros s. split.
    - intros H. remember (Star (Cls p)) as r eqn:E.
      induction H as [| | | | | r0 | r0 s1 s2 H1 _ H2 IH2]; try discriminate.
      + reflexivity.
      + injection E as ->. inversion H1; subst. simpl.
        rewrite IH2 by reflexivity. now rewrite andb_true_r.
    - induction s as [|c s IH]; simpl; intros H; [constructor|].
      apply andb_true_iff in H as [Hc Hs].
      exact (MStarS _ (String c "") s (MCls p c Hc) (IH Hs)). }
  unfold Plus. split.
  - intros H. apply matches_cat_inv in H as (s1 & s2 & -> & H1 & H2).
    inversion H1; subst. simpl. apply Hstar in H2. rewrite H2.
    split; [discriminate | now rewrite andb_true_r].
  - intros [Hne H]. destruct s as [|c s]; [contradiction|].
    simpl in H. apply andb_true_iff in H as [Hc Hs].
    exact (MCat _ _ (String c "") s (MCls p c Hc) (proj2 (Hstar s) Hs)).
Qed.

Lemma matches_chr (c : ascii) (s : string) :
  matches (Chr c) s <-> s = String c "".
Proof.
  unfold Chr. split.
  - intros H. inversion H; subst. now apply Ascii.eqb_eq in H1 as ->.
  - intros ->. constructor. apply Ascii.eqb_refl.
Qed.

End MatcherCorrect.

(** The three parts of a valid e-mail. *)
Lemma isValidEmail_shape_aux (s : string) :
  isValidEmail (JStr s) = true ->
  exists loc dom tld,
    s = (loc ++ "@" ++ dom ++ "." ++ tld)%string
    /\ email_part loc /\ email_part dom /\ email_part tld.
Proof.
  unfold isValidEmail. simpl ToString. rewrite full_match_matches.
  unfold email_regex, email_part. intros H.
  apply matches_cat_inv in H as (loc & s1 & -> & Hl & H1).
  apply matches_cat_inv in H1 as (at_ & s2 & -> & Ha & H2).
  apply matches_cat_inv in H2 as (dom & s3 & -> & Hd & H3).
  apply matches_cat_inv in H3 as (dot & tld & -> & Hp & Ht).
  apply matches_chr in Ha, Hp. subst.
  apply matches_plus_cls in Hl, Hd, Ht.
  exists loc, dom, tld. auto.
Qed.

(** X1.  [isValidEmail] accepts a string exactly when it reads
    [local@domain.tld], where each of the three parts is non-empty and holds
    neither white space nor [@] (the domain part may itself hold dots). *)
Theorem isValidEmail_shape (s : string) :
  isValidEmail (JStr s) = true <->
  exists loc dom tld,
    s = (loc ++ "@" ++ dom ++ "." ++ tld)%string
    /\ email_part loc /\ email_part dom /\ email_part tld.
Proof.
  split; [apply isValidEmail_shape_aux|].
  intros (loc & dom & tld & -> & Hl & Hd & Ht).
  unfold isValidEmail. simpl ToString. apply full_match_matches.
  unfold email_regex, email_part in *.
  apply matches_plus_cls in Hl, Hd, Ht.
  apply MCat; [exact Hl|].
  apply (MCat _ _ "@"); [now apply matches_chr|].
  apply MCat; [exact Hd|].
  apply (MCat _ _ "."); [now apply matches_chr | exact Ht].
Qed.

Lemma str_forall_app (p : ascii -> bool) (a b : string) :
  str_forall p (a ++ b)%string = str_forall p a && str_forall p b.
Proof.
  induction a as [|c a IH]; simpl; [reflexivity|].
  now rewrite IH, andb_assoc.
Qed.

Lemma not_space_at_not_at (s : string) :
  str_forall not_space_at s = true ->
  str_forall (fun c => negb (Ascii.eqb c "@")) s = true.
Proof.
  induction s as [|c s IH]; simpl; [reflexivity|].
  unfold not_space_at at 1. rewrite !andb_true_iff.
  intros [[_ Hc] Hs]. split; [exact Hc | now apply IH].
Qed.

(** A string splits in one way only around an [@] that is its last. *)
Lemma split_at_unique (a a' b b' : string) :
  str_forall (fun c => negb (Ascii.eqb c "@")) a' = true ->
  str_forall (fun c => negb (Ascii.eqb c "@")) b' = true ->
  (a ++ "@" ++ b)%string = (a' ++ "@" ++ b')%string ->
  b = b' \/ exists x, b' = (x ++ "@" ++ b)%string.
Proof.
  revert a'. induction a as [|c a IH]; intros a' Ha' Hb' E.
  - destruct a' as [|c' a']; simpl in *.
    + left. now injection E.
    + injection E as <- _. simpl in Ha'. discriminate.
  - destruct a' as [|c' a']; simpl in *.
    + injection E as _ E. right. exists a. now symmetry.
    + injection E as <- E. apply andb_true_iff in Ha' as [_ Ha'].
      now apply IH with a'.
Qed.

(** X2.  [isValidEmail] rejects every string without an [@], every string
    in which no dot follows an [@], and every string that holds white
    space. *)
Theorem isValidEmail_rejects :
  (forall s, str_forall (fun c => negb (Ascii.eqb c "@")) s = true ->
             isValidEmail (JStr s) = false)
  /\ (forall loc dom, str_forall (fun c => negb (Ascii.eqb c ".")) dom = true ->
                      isValidEmail (JStr (loc ++ "@" ++ dom)) = false)
  /\ (forall s, no_space s = false -> isValidEmail (JStr s) = false).
Proof.
  split; [|split].
  - intros s Hs. destruct (isValidEmail (JStr s)) eqn:E; [|reflexivity].
    apply isValidEmail_shape_aux in E as (loc & dom & tld & -> & _).
    rewrite str_forall_app in Hs. simpl in Hs.
    now rewrite andb_false_r in Hs.
  - intros loc dom Hd.
    destruct (isValidEmail (JStr (loc ++ "@" ++ dom))) eqn:E; [|reflexivity].
    apply isValidEmail_shape_aux in E
      as (l' & d' & t' & E & [_ Hl] & [_ Hd'] & [_ Ht]).
    apply not_space_at_not_at in Hl, Hd', Ht.
    assert (Hb : str_forall (fun c => negb (Ascii.eqb c "@"))
                            (d' ++ "." ++ t')%string = true).
    { rewrite str_forall_app. simpl. now rewrite Hd', Ht. }
    destruct (split_at_unique loc l' dom _ Hl Hb E) as [-> | (x & Hx)].
    + rewrite str_forall_app in Hd. simpl in Hd. now rewrite andb_false_r in Hd.
    + rewrite Hx, str_forall_app in Hb. simpl in Hb.
      now rewrite andb_false_r in Hb.
  - intros s Hs. destruct (isValidEmail (JStr s)) eqn:E; [|reflexivity].
    apply isValidEmail_no_space in E. congruence.
Qed.

(* ===================================================================== *)
(** ** POST /api/leads: what a submission leaves in the store             *)
(* ===================================================================== *)

(** Anything but a 201 leaves the store as it was. *)
Lemma post_leads_no_write (req : Request) (o : Oracle) (d d' : DB) (resp : Response) :
  run (post_leads req) o d = (inr resp, d') ->
  http_status resp <> 201 ->
  d' = d.
Proof.
  intros Hrun Hst.
  destruct (validated req) eqn:Hv.
  2:{ destruct (post_leads_not_validated req Hv) as (m & c & E).
      rewrite E in Hrun. simpl in Hrun. now injection Hrun. }
  destruct (sanitizeInput (body req "email")) as [| | | | e |] eqn:He;
    try (rewrite (post_leads_email_not_string req Hv) in Hrun by (now rewrite He);
         simpl in Hrun; now injection Hrun).
  destruct (validated_telefone req Hv) as (t & Ht).
  rewrite (post_leads_validated req e Hv He) in Hrun.
  cbn [run exec] in Hrun. unfold lead_findUnique_email in Hrun.
  destruct (reject (o 0)).
  { simpl in Hrun. now injection Hrun. }
  destruct (find_lead_by_email (toLowerCase e) d) as [l0|] eqn:Hf.
  { simpl in Hrun. now injection Hrun. }
  cbn [settle bind] in Hrun. rewrite Ht in Hrun.
  destruct (sanitizeInput (body req "nome")) as [| | | | n |] eqn:Hn;
    try (simpl in Hrun; now injection Hrun).
  rewrite post_leads_insert_run in Hrun. unfold shift in Hrun.
  destruct (lead_create_cases
              (lead_data req (trim n) (trim (toLowerCase e)) (trim t)
                         (sanitizeInput (body req "origem"))) (o 1) d)
    as [(err & E) | (l & E & _)]; rewrite E in Hrun.
  - destruct err; now injection Hrun.
  - injection Hrun as <- _. now destruct Hst.
Qed.

(** X3.  Every run of the ingestion handler answers, and it changes the
    store in one case only: when it answers 201, exactly one lead has been
    added after the others, and nothing else has changed. *)
Theorem post_leads_all_or_nothing (req : Request) (o : Oracle) (d : DB) :
  exists resp d',
    run (post_leads req) o d = (inr resp, d')
    /\ ((http_status resp = 201
         /\ exists l, d' = mkDB (leads d ++ [l]) (conversoes d))
        \/ (http_status resp <> 201 /\ d' = d)).
Proof.
  destruct (post_leads_never_401 req) as [_ Hn].
  destruct (run_total _ o d Hn) as (resp & d' & E).
  exists resp, d'. split; [exact E|].
  destruct (Nat.eq_dec (http_status resp) 201) as [H|H].
  - left. split; [exact H|].
    destruct (post_leads_created req o d d' resp E H)
      as (n & e & t & l & _ & _ & _ & _ & _ & _ & -> & _).
    now exists l.
  - right. split; [exact H|]. exact (post_leads_no_write req o d d' resp E H).
Qed.

Lemma lead_of_input_fields (i : LeadCreateInput) (env : CallEnv) (l : Lead) :
  lead_of_input i env = Some l ->
  id l = fresh_id env /\ nome l = in_nome i /\ email l = in_email i
  /\ telefone l = in_telefone i /\ status l = in_status i
  /\ ip l = in_ip i /\ userAgent l = in_userAgent i /\ referer l = in_referer i
  /\ dataCaptura l = now env /\ dataAtualizacao l = now env
  /\ opt_text None (in_utmSource i) = Some (utmSource l)
  /\ opt_text None (in_utmMedium i) = Some (utmMedium l)
  /\ opt_text None (in_utmCampaign i) = Some (utmCampaign l)
  /\ opt_text None (in_utmContent i) = Some (utmContent l)
  /\ opt_text None (in_utmTerm i) = Some (utmTerm l).
Proof.
  unfold lead_of_input. intros H.
  destruct (opt_text (Some "website") (in_origem i)); [|discriminate].
  destruct (opt_text None (in_utmSource i)); [|discriminate].
  destruct (opt_text None (in_utmMedium i)); [|discriminate].
  destruct (opt_text None (in_utmCampaign i)); [|discriminate].
  destruct (opt_text None (in_utmContent i)); [|discriminate].
  destruct (opt_text None (in_utmTerm i)); [|discriminate].
  injection H as <-. cbn. repeat split.
Qed.

(** X4.  The lead a 201 stores: its name and phone are the sanitized
    fields trimmed, its e-mail is the sanitized e-mail in lower case, its
    status is ['novo'], its identifier and its two timestamps are those of
    the insertion, its provenance columns come from the request (an empty
    header is stored as [NULL]); the answer repeats its identifier, name,
    e-mail and capture time. *)
Theorem post_leads_stored_lead (req : Request) (o : Oracle) (d d' : DB)
    (resp : Response) :
  run (post_leads req) o d = (inr resp, d') ->
  http_status resp = 201 ->
  exists n e t l,
    sanitizeInput (body req "nome") = JStr n
    /\ sanitizeInput (body req "email") = JStr e
    /\ sanitizeInput (body req "telefone") = JStr t
    /\ leads d' = leads d ++ [l]
    /\ nome l = trim n /\ email l = toLowerCase e /\ telefone l = trim t
    /\ status l = "novo"
    /\ id l = fresh_id (o 1)
    /\ dataCaptura l = now (o 1) /\ dataAtualizacao l = now (o 1)
    /\ ip l = req_ip req
    /\ userAgent l = or_null (header req "User-Agent")
    /\ referer l = or_null (header req "Referer")
    /\ json resp =
       LeadCaptured "Lead capturado com sucesso! Entraremos em contato em breve."
                    (id l) (nome l) (email l) (dataCaptura l).
Proof.
  intros Hrun Hst.
  destruct (post_leads_created req o d d' resp Hrun Hst)
    as (n & e & t & l & Hv & Hn & He & Ht & _ & Hl & -> & Hj).
  exists n, e, t, l.
  apply lead_of_input_fields in Hl
    as (H1 & H2 & H3 & H4 & H5 & H6 & H7 & H8 & H9 & H10 & _).
  cbn [lead_data in_nome in_email in_telefone in_status in_ip in_userAgent
       in_referer] in *.
  assert (Hmail : trim (toLowerCase e) = toLowerCase e).
  { apply valid_email_stored_as_looked_up.
    apply validated_inv in Hv as (_ & _ & Hv & _).
    unfold invalid_email in Hv. rewrite He in Hv.
    now apply negb_false_iff in Hv. }
  rewrite Hmail in H3. repeat split; auto.
Qed.

(** A submission with padded fields and an empty [Referer]. *)
Lemma post_leads_stored_lead_witness :
  let req := mkRequest (obj [("nome", JStr "  Jo Silva "); ("email", JStr " Jo@X.com");
                             ("telefone", JStr "(11) 98765-4321 ")])
                       (obj []) (fun _ => "")
                       (fun h => if String.eqb h "Referer" then Some "" else Some "curl")
                       (Some "10.0.0.1") 0%Z 0%Z in
  let d' := snd (run (post_leads req) (calm "a" 100) empty_db) in
  exists n e t l,
    sanitizeInput (JStr "  Jo Silva ") = JStr n
    /\ sanitizeInput (JStr " Jo@X.com") = JStr e
    /\ sanitizeInput (JStr "(11) 98765-4321 ") = JStr t
    /\ leads d' = leads empty_db ++ [l]
    /\ nome l = trim n /\ email l = toLowerCase e /\ telefone l = trim t
    /\ status l = "novo"
    /\ id l = "a00"
    /\ dataCaptura l = 101%Z /\ dataAtualizacao l = 101%Z
    /\ ip l = Some "10.0.0.1"
    /\ userAgent l = Some "curl"
    /\ referer l = None
    /\ LeadCaptured "Lead capturado com sucesso! Entraremos em contato em breve."
                    "a00" "Jo Silva" "jo@x.com" 101
       = LeadCaptured "Lead capturado com sucesso! Entraremos em contato em breve."
                      (id l) (nome l) (email l) (dataCaptura l).
Proof.
  exact (post_leads_stored_lead
           (mkRequest (obj [("nome", JStr "  Jo Silva "); ("email", JStr " Jo@X.com");
                            ("telefone", JStr "(11) 98765-4321 ")])
                      (obj []) (fun _ => "")
                      (fun h => if String.eqb h "Referer" then Some "" else Some "curl")
                      (Some "10.0.0.1") 0%Z 0%Z)
           (calm "a" 100) empty_db _ _ eq_refl eq_refl).
Defined.

(** *** Angle brackets *)

Lemma str_forall_filter (p q : ascii -> bool) (s : string) :
  (forall c, q c = true -> p c = true) -> str_forall p (str_filter q s) = true.
Proof.
  intros H. induction s as [|c s IH]; simpl; [reflexivity|].
  destruct (q c) eqn:Hq; simpl; [now rewrite (H c Hq) | exact IH].
Qed.

Lemma strip_angle_no_angle (s : string) : no_angle (strip_angle s) = true.
Proof. unfold no_angle, strip_angle. now apply str_forall_filter. Qed.

Lemma str_forall_trimStart (p : ascii -> bool) (s : string) :
  str_forall p s = true -> str_forall p (trimStart s) = true.
Proof.
  induction s as [|c s IH]; simpl; [auto|]. intros H.
  destruct (is_space c); [|exact H].
  apply andb_true_iff in H as [_ H]. now apply IH.
Qed.

Lemma str_forall_trimEnd (p : ascii -> bool) (s : string) :
  str_forall p s = true -> str_forall p (trimEnd s) = true.
Proof.
  induction s as [|c s IH]; simpl; [auto|]. intros H.
  apply andb_true_iff in H as [Hc Hs]. specialize (IH Hs).
  destruct (trimEnd s) as [|b r].
  - destruct (is_space c); simpl; [reflexivity | now rewrite Hc].
  - cbn [str_forall] in *. now rewrite Hc, IH.
Qed.

Lemma str_forall_trim (p : ascii -> bool) (s : string) :
  str_forall p s = true -> str_forall p (trim s) = true.
Proof. intros H. unfold trim. now apply str_forall_trimEnd, str_forall_trimStart. Qed.

Lemma lower_char_angle (c : ascii) :
  (Ascii.eqb (lower_char c) "<" || Ascii.eqb (lower_char c) ">")
  = (Ascii.eqb c "<" || Ascii.eqb c ">").
Proof. destruct c as [[|] [|] [|] [|] [|] [|] [|] [|]]; reflexivity. Qed.

Lemma no_angle_lower (s : string) : no_angle (toLowerCase s) = no_angle s.
Proof.
  unfold no_angle, toLowerCase.
  induction s as [|c s IH]; simpl; [reflexivity|].
  now rewrite lower_char_angle, IH.
Qed.

Lemma sanitized_no_angle (v : JsVal) (s : string) :
  sanitizeInput v = JStr s -> no_angle s = true.
Proof.
  destruct v; simpl; try discriminate.
  intros H. injection H as <-. apply strip_angle_no_angle.
Qed.

(** X5.  No lead stored by the ingestion handler holds [<] or [>] in its
    name, e-mail, phone or origin. *)
Theorem post_leads_no_angle_brackets (req : Request) (o : Oracle) (d d' : DB)
    (resp : Response) :
  run (post_leads req) o d = (inr resp, d') ->
  http_status resp = 201 ->
  exists l,
    leads d' = leads d ++ [l]
    /\ no_angle (nome l) = true /\ no_angle (email l) = true
    /\ no_angle (telefone l) = true
    /\ (forall og, origem l = Some og -> no_angle og = true).
Proof.
  intros Hrun Hst.
  destruct (post_leads_created req o d d' resp Hrun Hst)
    as (n & e & t & l & _ & Hn & He & Ht & _ & Hl & -> & _).
  exists l. split; [reflexivity|].
  pose proof (lead_of_input_origem _ _ _ Hl) as Ho.
  apply lead_of_input_fields in Hl as (_ & H2 & H3 & H4 & _).
  cbn [lead_data in_nome in_email in_telefone in_origem] in *.
  rewrite H2, H3, H4.
  apply sanitized_no_angle in Hn, He, Ht.
  repeat split.
  - now apply str_forall_trim.
  - apply str_forall_trim. fold (no_angle (toLowerCase e)).
    now rewrite no_angle_lower.
  - now apply str_forall_trim.
  - intros og Hog. rewrite Hog in Ho. unfold js_or, truthy in Ho.
    destruct (falsy (sanitizeInput (body req "origem"))) eqn:Hf; simpl in Ho.
    + injection Ho as <-. reflexivity.
    + destruct (sanitizeInput (body req "origem")) as [| | | | s |] eqn:Hs;
        try discriminate.
      simpl in Ho. injection Ho as <-. now apply sanitized_no_angle in Hs.
Qed.

(** Markup in every sanitized field. *)
Lemma post_leads_no_angle_brackets_witness :
  let req := mk_request [("nome", JStr "<b>Jo</b>"); ("email", JStr "<jo@x.com>");
                         ("telefone", JStr "<11987654321>");
                         ("origem", JStr "<script>")] [] "" in
  let d' := snd (run (post_leads req) (calm "a" 100) empty_db) in
  exists l,
    leads d' = leads empty_db ++ [l]
    /\ no_angle (nome l) = true /\ no_angle (email l) = true
    /\ no_angle (telefone l) = true
    /\ (forall og, origem l = Some og -> no_angle og = true).
Proof.
  exact (post_leads_no_angle_brackets
           (mk_request [("nome", JStr "<b>Jo</b>"); ("email", JStr "<jo@x.com>");
                        ("telefone", JStr "<11987654321>");
                        ("origem", JStr "<script>")] [] "")
           (calm "a" 100) empty_db _ _ eq_refl eq_refl).
Defined.

(** *** Attribution fields *)

Lemma verbatim_or_null (v : JsVal) (col : option string) :
  opt_text None (js_or v JNull) = Some col -> verbatim v col.
Proof.
  unfold js_or, truthy, verbatim. intros H.
  destruct (falsy v) eqn:Hf; simpl in H.
  - injection H as <-. split; [reflexivity|].
    intros s -> Hs. simpl in Hf. apply String.eqb_eq in Hf. contradiction.
  - split; [discriminate|].
    intros s -> _. simpl in H. now injection H as <-.
Qed.

(** X6.  The five [utm_*] fields are stored as they were sent, without
    trimming or removal of angle brackets: a non-empty string is stored
    verbatim, a falsy value as [NULL]. *)
Theorem post_leads_utm_verbatim (req : Request) (o : Oracle) (d d' : DB)
    (resp : Response) :
  run (post_leads req) o d = (inr resp, d') ->
  http_status resp = 201 ->
  exists l,
    leads d' = leads d ++ [l]
    /\ verbatim (body req "utm_source") (utmSource l)
    /\ verbatim (body req "utm_medium") (utmMedium l)
    /\ verbatim (body req "utm_campaign") (utmCampaign l)
    /\ verbatim (body req "utm_content") (utmContent l)
    /\ verbatim (body req "utm_term") (utmTerm l).
Proof.
  intros Hrun Hst.
  destruct (post_leads_created req o d d' resp Hrun Hst)
    as (n & e & t & l & _ & _ & _ & _ & _ & Hl & -> & _).
  exists l. split; [reflexivity|].
  apply lead_of_input_fields in Hl
    as (_ & _ & _ & _ & _ & _ & _ & _ & _ & _ & H1 & H2 & H3 & H4 & H5).
  cbn [lead_data in_utmSource in_utmMedium in_utmCampaign in_utmContent
       in_utmTerm] in *.
  repeat split; now apply verbatim_or_null.
Qed.

(** A [utm_source] with markup and padding is stored untouched. *)
Lemma post_leads_utm_verbatim_witness :
  let req := mk_request [("nome", JStr "Jo"); ("email", JStr "jo@x.com");
                         ("telefone", JStr "11987654321");
                         ("utm_source", JStr " <b>ads</b> ");
                         ("utm_medium", JStr "")] [] "" in
  let d' := snd (run (post_leads req) (calm "a" 100) empty_db) in
  exists l,
    leads d' = leads empty_db ++ [l]
    /\ verbatim (JStr " <b>ads</b> ") (utmSource l)
    /\ verbatim (JStr "") (utmMedium l)
    /\ verbatim JUndefined (utmCampaign l)
    /\ verbatim JUndefined (utmContent l)
    /\ verbatim JUndefined (utmTerm l).
Proof.
  exact (post_leads_utm_verbatim
           (mk_request [("nome", JStr "Jo"); ("email", JStr "jo@x.com");
                        ("telefone", JStr "11987654321");
                        ("utm_source", JStr " <b>ads</b> ");
                        ("utm_medium", JStr "")] [] "")
           (calm "a" 100) empty_db _ _ eq_refl eq_refl).
Defined.

(** *** Fields that are not strings *)

(** X7.  A submission that passes the four checks with an e-mail that is
    not a string (an array whose rendering matches the pattern) is answered
    500 [INTERNAL_ERROR] before any storage call. *)
Theorem post_leads_email_array (req : Request) :
  validated req = true ->
  is_string (sanitizeInput (body req "email")) = false ->
  post_leads req = Ret res_internal_error
  /\ forall o d, run (post_leads req) o d = (inr res_internal_error, d).
Proof.
  intros Hv He. rewrite (post_leads_email_not_string req Hv He).
  split; reflexivity.
Qed.

Lemma post_leads_email_array_witness :
  let req := mk_request [("nome", JStr "Jo"); ("email", JArr [JStr "jo@x.com"]);
                         ("telefone", JStr "11987654321")] [] "" in
  post_leads req = Ret res_internal_error
  /\ forall o d, run (post_leads req) o d = (inr res_internal_error, d).
Proof.
  apply (post_leads_email_array
           (mk_request [("nome", JStr "Jo"); ("email", JArr [JStr "jo@x.com"]);
                        ("telefone", JStr "11987654321")] [] ""));
    reflexivity.
Defined.

(* ===================================================================== *)
(** ** What the handlers never do                                         *)
(* ===================================================================== *)

Lemma exec_reads_only (op : Op) (env : CallEnv) (d : DB) :
  reads_only op -> snd (exec op env d) = d.
Proof.
  destruct op; cbn [reads_only exec]; try contradiction; intros _.
  - unfold lead_findUnique_email. now destruct (reject env).
  - unfold lead_findUnique_id. now destruct (reject env).
  - unfold lead_findMany. destruct (where_filter w); [|reflexivity].
    destruct (slice _ _ _); [|reflexivity]. now destruct (reject env).
  - unfold lead_count. destruct (where_filter w); [|reflexivity].
    now destruct (reject env).
  - unfold lead_count_since. now destruct (reject env).
  - unfold lead_groupBy. now destruct (reject env).
Qed.

Lemma run_reads_only {A} (p : Prog A) : forall o d,
  calls_satisfy reads_only p -> snd (run p o d) = d.
Proof.
  induction p as [a | e | op k IH]; intros o d Hp; cbn [run]; auto.
  destruct Hp as [Hop Hk].
  pose proof (exec_reads_only op (o 0) d Hop) as H.
  destruct (exec op (o 0) d) as [r d1]. cbn [snd] in H. subst d1. now apply IH.
Qed.

(** X8.  The listing, the single-lead fetch and the statistics never change
    the store, whatever the request and whatever the store answers. *)
Theorem queries_read_only (cfg : Config) (req : Request) (o : Oracle) (d : DB) :
  snd (run (get_leads cfg req) o d) = d
  /\ snd (run (get_lead cfg req) o d) = d
  /\ snd (run (get_stats cfg req) o d) = d.
Proof.
  repeat split; apply run_reads_only.
  - unfold get_leads. cbv zeta. calls_ok.
  - unfold get_lead. cbv zeta. calls_ok.
    match goal with |- calls_satisfy _ (match ?x with _ => _ end) => now destruct x end.
  - unfold get_stats. cbv zeta. calls_ok.
Qed.

(** One storage call only adds rows, and changes of a stored lead nothing
    but its status and update time. *)
Lemma exec_grows (op : Op) (env : CallEnv) (d : DB) :
  exists la lc,
    map frozen (leads (snd (exec op env d))) = map frozen (leads d) ++ la
    /\ conversoes (snd (exec op env d)) = conversoes d ++ lc.
Proof.
  assert (Hsame : forall d', leads d' = leads d -> conversoes d' = conversoes d ->
            exists la lc, map frozen (leads d') = map frozen (leads d) ++ la
                          /\ conversoes d' = conversoes d ++ lc).
  { intros d' -> ->. exists [], []. now rewrite !app_nil_r. }
  destruct op;
    try (match goal with
         | |- context [exec ?op _ _] => rewrite (exec_reads_only op env d I)
         end; now apply Hsame);
    cbn [exec].
  - destruct (lead_create_cases data env d) as [(err & E) | (l & E & _)];
      rewrite E; cbn [snd]; [now apply Hsame|].
    exists [frozen l], []. cbn [leads conversoes].
    now rewrite map_app, app_nil_r.
  - destruct (req_text st); [|now apply Hsame].
    unfold lead_update_status. destruct (reject env); [now apply Hsame|].
    destruct (find_lead_by_id i d); [|now apply Hsame].
    cbn [snd leads conversoes]. exists [], []. rewrite !app_nil_r. split; [|reflexivity].
    rewrite map_map. apply map_ext. intros x.
    now destruct (String.eqb (id x) i).
  - destruct (conversao_create_cases data env d) as [(err & E) | (c & E)];
      rewrite E; cbn [snd]; [now apply Hsame|].
    exists [], [c]. cbn [leads conversoes]. now rewrite app_nil_r.
Qed.

(* ===================================================================== *)
(** ** The answers of each route                                          *)
(* ===================================================================== *)

Ltac answer :=
  cbn;
  first [ exact I
        | split; [simpl; tauto | reflexivity] ].

Lemma answers_run (codes : list nat) (p : Prog Response)
    (h : JsError -> Prog Response) (o : Oracle) (d : DB) :
  returns_satisfy (answers codes) p ->
  (forall e, returns_satisfy (answers codes) (h e)) ->
  (forall e, never_throws (h e)) ->
  exists resp d', run (try_catch p h) o d = (inr resp, d') /\ answers codes resp.
Proof.
  intros Hp Hh Hn.
  destruct (run_total (try_catch p h) o d (try_catch_never_throws p h Hn))
    as (resp & d' & E).
  exists resp, d'. split; [exact E|].
  exact (run_returns _ _ o d resp d' (try_catch_returns _ p h Hp Hh) E).
Qed.

(** X10.  No exception escapes a handler: every run ends with an answer,
    whose status code is one of those listed for the route, and whose body
    is a [success: false] body exactly when the code is 400 or more.  The
    conversion route never answers 404 nor 400. *)
Theorem handlers_always_answer (cfg : Config) (req : Request) (o : Oracle) (d : DB) :
  (exists resp d', run (post_leads req) o d = (inr resp, d')
                   /\ answers [201; 400; 409; 500] resp)
  /\ (exists resp d', run (get_leads cfg req) o d = (inr resp, d')
                      /\ answers [200; 401; 500] resp)
  /\ (exists resp d', run (get_lead cfg req) o d = (inr resp, d')
                      /\ answers [200; 401; 404; 500] resp)
  /\ (exists resp d', run (patch_status cfg req) o d = (inr resp, d')
                      /\ answers [200; 400; 401; 404; 500] resp)
  /\ (exists resp d', run (get_stats cfg req) o d = (inr resp, d')
                      /\ answers [200; 401; 500] resp)
  /\ (exists resp d', run (post_conversao cfg req) o d = (inr resp, d')
                      /\ answers [201; 401; 500] resp).
Proof.
  repeat apply conj.
  - unfold post_leads. apply answers_run.
    + unfold post_leads_body. cbv zeta.
      repeat match goal with
             | |- returns_satisfy _ (if ?c then _ else _) => destruct c; [answer|]
             end.
      destruct (sanitizeInput (body req "email")); try exact I.
      cbn. intros [e1|[l|]]; try answer.
      destruct (sanitizeInput (body req "nome")); try exact I.
      destruct (sanitizeInput (body req "telefone")); try exact I.
      cbn. intros [e2|a2]; answer.
    + intros e. unfold post_leads_catch. destruct (is_P2002 e); answer.
    + intros e. unfold post_leads_catch. destruct (is_P2002 e); exact I.
  - unfold get_leads. cbv zeta. apply answers_run; [| intros e; answer | intros e; exact I].
    destruct (unauthorized cfg (query req "key")); [answer|].
    cbn. intros [e1|a1] [e2|a2]; answer.
  - unfold get_lead. cbv zeta. apply answers_run; [| intros e; answer | intros e; exact I].
    destruct (unauthorized cfg (query req "key")); [answer|].
    cbn. intros [e1|[l|]]; answer.
  - unfold patch_status. cbv zeta. apply answers_run.
    + destruct (unauthorized cfg (query req "key")); [answer|].
      destruct (negb (valid_status (body req "status"))); [answer|].
      cbn. intros [e1|a1]; answer.
    + intros e. destruct (is_P2025 e); answer.
    + intros e. destruct (is_P2025 e); exact I.
  - unfold get_stats. cbv zeta. apply answers_run; [| intros e; answer | intros e; exact I].
    destruct (unauthorized cfg (query req "key")); [answer|].
    cbn. intros [e1|a1] [e2|a2] [e3|a3] [e4|a4] [e5|a5] [e6|a6] [e7|a7]; answer.
  - unfold post_conversao. cbv zeta. apply answers_run; [| intros e; answer | intros e; exact I].
    destruct (unauthorized cfg (query req "key")); [answer|].
    cbn. intros [e1|a1]; [answer|]. intros [e2|a2]; answer.
Qed.

(* ===================================================================== *)
(** ** Round trips                                                        *)
(* ===================================================================== *)

(** The identifier of the lead a 201 stores was carried by no lead. *)
Lemma post_leads_created_fresh (req : Request) (o : Oracle) (d d' : DB)
    (resp : Response) :
  run (post_leads req) o d = (inr resp, d') ->
  http_status resp = 201 ->
  exists l,
    d' = mkDB (leads d ++ [l]) (conversoes d)
    /\ find_lead_by_id (id l) d = None
    /\ status l = "novo"
    /\ json resp =
       LeadCaptured "Lead capturado com sucesso! Entraremos em contato em breve."
                    (id l) (nome l) (email l) (dataCaptura l).
Proof.
  intros Hrun Hst.
  destruct (post_leads_created req o d d' resp Hrun Hst)
    as (n & e & t & l & Hv & Hn & He & Ht & Hf & Hl & Hd & Hj).
  exists l. split; [exact Hd|]. split; [|split; [|exact Hj]].
  - rewrite (post_leads_validated req e Hv He) in Hrun.
    cbn [run exec] in Hrun. unfold lead_findUnique_email in Hrun.
    destruct (reject (o 0)).
    { simpl in Hrun. injection Hrun as <- _. discriminate. }
    rewrite Hf in Hrun. cbn [settle bind] in Hrun. rewrite Hn, Ht in Hrun.
    rewrite post_leads_insert_run in Hrun. unfold shift in Hrun.
    destruct (lead_create_cases
                (lead_data req (trim n) (trim (toLowerCase e)) (trim t)
                           (sanitizeInput (body req "origem"))) (o 1) d)
      as [(err & E) | (l1 & E & Hl1 & _ & Hid & _)]; rewrite E in Hrun.
    + destruct err; injection Hrun as <- _; discriminate.
    + rewrite Hl in Hl1. now injection Hl1 as <-.
  - now apply lead_of_input_fields in Hl as (_ & _ & _ & _ & Hs & _).
Qed.

Lemma find_id_snoc (l : Lead) (rows : list Lead) :
  find (fun x => String.eqb (id x) (id l)) rows = None ->
  find (fun x => String.eqb (id x) (id l)) (rows ++ [l]) = Some l.
Proof.
  intros H. apply find_snoc; [exact H|]. apply String.eqb_refl.
Qed.

(** X11.  Ingestion then fetch: the identifier a 201 returns designates,
    in the store the ingestion leaves, the lead just stored; the fetch of
    that identifier with an accepted key answers 200 with the whole row,
    whose status is ['novo'] and whose name, e-mail and capture time are
    those of the 201. *)
Theorem get_lead_after_post_leads (cfg : Config) (req greq : Request)
    (o o' : Oracle) (d d' : DB) (resp : Response) :
  run (post_leads req) o d = (inr resp, d') ->
  http_status resp = 201 ->
  key_accepted cfg (query greq "key") ->
  reject (o' 0) = false ->
  exists l,
    json resp =
    LeadCaptured "Lead capturado com sucesso! Entraremos em contato em breve."
                 (id l) (nome l) (email l) (dataCaptura l)
    /\ status l = "novo"
    /\ (params greq "id" = id l ->
        run (get_lead cfg greq) o' d' = (inr (mkResponse 200 (LeadFound l)), d')).
Proof.
  intros Hrun Hst Hk Hr.
  destruct (post_leads_created_fresh req o d d' resp Hrun Hst)
    as (l & -> & Hid & Hs & Hj).
  exists l. split; [exact Hj|]. split; [exact Hs|].
  intros Hp. unfold get_lead. cbv zeta.
  rewrite (accepted_not_unauthorized _ _ Hk), Hp.
  cbn [try_catch bind prisma start settle run exec].
  unfold lead_findUnique_id, find_lead_by_id in *. rewrite Hr. cbn [leads].
  now rewrite (find_id_snoc l _ Hid).
Qed.

Lemma get_lead_after_post_leads_witness :
  let req := mk_request [("nome", JStr "Jo"); ("email", JStr "jo@x.com");
                         ("telefone", JStr "11987654321")] [] "" in
  let greq := mk_request [] [("key", JStr "mente-milionaria-2024")] "a00" in
  let d' := snd (run (post_leads req) (calm "a" 100) (sample_db 2)) in
  exists l,
    LeadCaptured "Lead capturado com sucesso! Entraremos em contato em breve."
                 "a00" "Jo" "jo@x.com" 101
    = LeadCaptured "Lead capturado com sucesso! Entraremos em contato em breve."
                   (id l) (nome l) (email l) (dataCaptura l)
    /\ status l = "novo"
    /\ ("a00" = id l ->
        run (get_lead (mkConfig None) greq) (calm "g" 200) d'
        = (inr (mkResponse 200 (LeadFound l)), d')).
Proof.
  exact (get_lead_after_post_leads (mkConfig None)
           (mk_request [("nome", JStr "Jo"); ("email", JStr "jo@x.com");
                        ("telefone", JStr "11987654321")] [] "")
           (mk_request [] [("key", JStr "mente-milionaria-2024")] "a00")
           (calm "a" 100) (calm "g" 200) (sample_db 2) _ _
           eq_refl eq_refl (or_intror eq_refl) eq_refl).
Defined.

(* ===================================================================== *)
(** ** PATCH /api/leads/:id/status: the update                            *)
(* ===================================================================== *)

Lemma update_keeps_others (i : string) (f : Lead -> Lead) (rows : list Lead) (x : Lead) :
  In x rows -> id x <> i ->
  In x (map (fun y => if String.eqb (id y) i then f y else y) rows).
Proof.
  intros Hin Hne. apply in_map_iff. exists x. split; [|exact Hin].
  destruct (String.eqb_spec (id x) i); [contradiction | reflexivity].
Qed.

(** X12.  With an accepted key, one of the five statuses, an existing lead
    and a store that answers, the status update answers 200 with the
    updated row; in the store, the lead of that identifier has the new
    status and update time and is otherwise unchanged, every other lead
    and every conversion is as before, and a fetch of the same identifier
    returns the updated row.  The current status of the lead plays no
    part: any of the five values may follow any other. *)
Theorem patch_status_updates (cfg : Config) (req : Request) (o : Oracle) (d : DB)
    (s : string) (l : Lead) :
  key_accepted cfg (query req "key") ->
  In s validStatuses ->
  body req "status" = JStr s ->
  find_lead_by_id (params req "id") d = Some l ->
  reject (o 0) = false ->
  let l' := set_status s (now (o 0)) l in
  exists d',
    run (patch_status cfg req) o d
    = (inr (mkResponse 200 (StatusUpdated "Status atualizado com sucesso" l')), d')
    /\ status l' = s /\ dataAtualizacao l' = now (o 0) /\ frozen l' = frozen l
    /\ find_lead_by_id (params req "id") d' = Some l'
    /\ List.length (leads d') = List.length (leads d)
    /\ map frozen (leads d') = map frozen (leads d)
    /\ (forall x, In x (leads d) -> id x <> params req "id" -> In x (leads d'))
    /\ conversoes d' = conversoes d
    /\ (forall o', reject (o' 0) = false ->
          run (get_lead cfg req) o' d' = (inr (mkResponse 200 (LeadFound l')), d')).
Proof.
  intros Hk Hs Hb Hl Hr l'.
  assert (Hv : valid_status (body req "status") = true).
  { apply valid_status_iff. now exists s. }
  unfold patch_status. cbv zeta.
  rewrite (accepted_not_unauthorized _ _ Hk), Hv, Hb. simpl negb. cbv iota.
  cbn [try_catch bind prisma start settle run exec req_text].
  unfold lead_update_status. rewrite Hr, Hl.
  cbn [try_catch bind settle run].
  eexists. split; [reflexivity|].
  assert (Hfind : find_lead_by_id (params req "id")
                    (mkDB (map (fun x => if String.eqb (id x) (params req "id")
                                         then set_status s (now (o 0)) x else x)
                               (leads d)) (conversoes d)) = Some l').
  { unfold find_lead_by_id in *. cbn [leads].
    apply (find_after_update _ l (set_status s (now (o 0)))); [reflexivity | exact Hl]. }
  repeat split.
  - exact Hfind.
  - cbn [leads]. apply length_map.
  - cbn [leads]. rewrite map_map. apply map_ext. intros x.
    now destruct (String.eqb (id x) (params req "id")).
  - intros x Hin Hne. cbn [leads]. now apply update_keeps_others.
  - intros o' Hr'. unfold get_lead. cbv zeta.
    rewrite (accepted_not_unauthorized _ _ Hk).
    cbn [try_catch bind prisma start settle run exec].
    unfold lead_findUnique_id. rewrite Hr', Hfind. reflexivity.
Qed.

(** A converted lead is set back to ['novo']. *)
Lemma patch_status_updates_witness :
  let req := mk_request [("status", JStr "novo")]
                        [("key", JStr "mente-milionaria-2024")] "id0" in
  let l := set_status "convertido" 7 (sample_lead 1) in
  let d := mkDB [l; sample_lead 2] [] in
  let o := calm "p" 300 in
  let l' := set_status "novo" 300 l in
  exists d',
    run (patch_status (mkConfig None) req) o d
    = (inr (mkResponse 200 (StatusUpdated "Status atualizado com sucesso" l')), d')
    /\ status l' = "novo" /\ dataAtualizacao l' = 300%Z /\ frozen l' = frozen l
    /\ find_lead_by_id "id0" d' = Some l'
    /\ List.length (leads d') = List.length (leads d)
    /\ map frozen (leads d') = map frozen (leads d)
    /\ (forall x, In x (leads d) -> id x <> "id0" -> In x (leads d'))
    /\ conversoes d' = conversoes d
    /\ (forall o', reject (o' 0) = false ->
          run (get_lead (mkConfig None) req) o' d'
          = (inr (mkResponse 200 (LeadFound l')), d')).
Proof.
  apply (patch_status_updates (mkConfig None)
           (mk_request [("status", JStr "novo")]
                       [("key", JStr "mente-milionaria-2024")] "id0")
           (calm "p" 300)
           (mkDB [set_status "convertido" 7 (sample_lead 1); sample_lead 2] [])
           "novo" (set_status "convertido" 7 (sample_lead 1)));
    [right; reflexivity | simpl; tauto | reflexivity | reflexivity | reflexivity].
Defined.

(** X13.  With an accepted key and one of the five statuses, the status
    update of an identifier that no lead carries is answered 404
    [LEAD_NOT_FOUND], the store being left as it was. *)
Theorem patch_status_unknown_lead (cfg : Config) (req : Request) (o : Oracle)
    (d : DB) (s : string) :
  key_accepted cfg (query req "key") ->
  In s validStatuses ->
  body req "status" = JStr s ->
  reject (o 0) = false ->
  find_lead_by_id (params req "id") d = None ->
  run (patch_status cfg req) o d
  = (inr (failure 404 "Lead não encontrado" "LEAD_NOT_FOUND"), d).
Proof.
  intros Hk Hs Hb Hr Hl.
  apply patch_status_missing_lead; auto.
  apply valid_status_iff. now exists s.
Qed.

Lemma patch_status_unknown_lead_witness :
  run (patch_status (mkConfig None)
         (mk_request [("status", JStr "contatado")]
                     [("key", JStr "mente-milionaria-2024")] "nope"))
      (calm "p" 300) (sample_db 2)
  = (inr (failure 404 "Lead não encontrado" "LEAD_NOT_FOUND"), sample_db 2).
Proof.
  apply (patch_status_unknown_lead (mkConfig None)
           (mk_request [("status", JStr "contatado")]
                       [("key", JStr "mente-milionaria-2024")] "nope")
           (calm "p" 300) (sample_db 2) "contatado");
    [right; reflexivity | simpl; tauto | reflexivity | reflexivity | reflexivity].
Defined.

(* ===================================================================== *)
(** ** GET /api/stats                                                     *)
(* ===================================================================== *)

Lemma opt_string_eqb_spec (a b : option string) :
  reflect (a = b) (opt_string_eqb a b).
Proof.
  destruct a as [x|], b as [y|]; simpl; try (constructor; congruence).
  destruct (String.eqb_spec x y); constructor; congruence.
Qed.

Lemma opt_string_eqb_sym (a b : option string) :
  opt_string_eqb a b = opt_string_eqb b a.
Proof.
  destruct (opt_string_eqb_spec a b), (opt_string_eqb_spec b a); congruence.
Qed.

(** What [bump] does to the count of a string key. *)
Lemma group_of_bump (s : string) (k : option string) (acc : list (option string * Z)) :
  group_of (Some s) (bump k acc)
  = if opt_string_eqb (Some s) k
    then Some (match group_of (Some s) acc with Some n => n + 1 | None => 1 end)%Z
    else group_of (Some s) acc.
Proof.
  unfold group_of.
  induction acc as [|[k' n] r IH]; cbn [bump find option_map fst snd].
  - destruct (opt_string_eqb_spec (Some s) k) as [<-|]; reflexivity.
  - rewrite (opt_string_eqb_sym k k').
    destruct (opt_string_eqb_spec k' k) as [->|Hne];
      cbn [find option_map fst snd].
    + destruct (opt_string_eqb_spec (Some s) k) as [<-|]; reflexivity.
    + destruct (opt_string_eqb_spec (Some s) k') as [<-|Hne'];
        cbn [option_map snd].
      * destruct (opt_string_eqb_spec (Some s) k); [congruence | reflexivity].
      * exact IH.
Qed.

Lemma group_of_fold (s : string) (keys : list (option string)) :
  forall acc,
  group_of (Some s) (fold_left (fun acc k => bump k acc) keys acc)
  = match group_of (Some s) acc with
    | Some n => Some (n + Z.of_nat (occurrences (Some s) keys))%Z
    | None => count_prop (occurrences (Some s) keys)
    end.
Proof.
  unfold occurrences.
  induction keys as [|k keys IH]; intros acc; cbn [fold_left filter].
  - simpl. destruct (group_of (Some s) acc); [f_equal; lia | reflexivity].
  - rewrite IH, group_of_bump.
    destruct (opt_string_eqb (Some s) k); [|reflexivity].
    cbn [List.length].
    destruct (group_of (Some s) acc) as [n|]; unfold count_prop;
      [f_equal; lia|].
    destruct (List.length _); f_equal; lia.
Qed.

(** The keys of a [groupBy] result are distinct. *)
Lemma bump_keys (k : option string) (acc : list (option string * Z)) :
  NoDup (map fst acc) -> NoDup (map fst (bump k acc))
  /\ forall x, In x (map fst (bump k acc)) -> x = k \/ In x (map fst acc).
Proof.
  induction acc as [|[k' n] r IH]; cbn [bump map fst]; intros Hn.
  - split; [repeat constructor; auto | intros x [<-|[]]; auto].
  - inversion Hn as [|? ? Hk' Hr]; subst.
    destruct (opt_string_eqb_spec k k') as [->|Hne]; cbn [map fst].
    + split; [exact Hn | auto].
    + destruct (IH Hr) as [Hd Hin]. split.
      * constructor; [|exact Hd]. intros Hx.
        destruct (Hin _ Hx) as [->|]; [congruence | contradiction].
      * intros x [<-|Hx]; [right; now left|].
        destruct (Hin _ Hx); [now left | right; now right].
Qed.

Lemma group_count_keys (keys : list (option string)) :
  NoDup (map fst (group_count keys))
  /\ forall x, In x (map fst (group_count keys)) -> In x keys.
Proof.
  unfold group_count.
  assert (H : forall acc, NoDup (map fst acc) ->
            NoDup (map fst (fold_left (fun acc k => bump k acc) keys acc))
            /\ forall x, In x (map fst (fold_left (fun acc k => bump k acc) keys acc)) ->
                         In x keys \/ In x (map fst acc)).
  { induction keys as [|k keys IH]; intros acc Hn; cbn [fold_left].
    - split; auto.
    - destruct (bump_keys k acc Hn) as [Hd Hin].
      destruct (IH _ Hd) as [Hd' Hin']. split; [exact Hd'|].
      intros x Hx. destruct (Hin' x Hx) as [H|H]; [left; now right|].
      destruct (Hin x H) as [->|]; [left; now left | now right]. }
  destruct (H [] ltac:(constructor)) as [Hd Hin]. split; [exact Hd|].
  intros x Hx. destruct (Hin x Hx) as [|[]]; assumption.
Qed.

(** [acc[k] = v] for a property the object does not have yet. *)
Lemma obj_set_new (k : string) (v : Z) (o : list (string * Z)) :
  k <> "__proto__" -> ~ In k (map fst o) -> obj_set k v o = o ++ [(k, v)].
Proof.
  intros Hk. unfold obj_set. apply String.eqb_neq in Hk. rewrite Hk.
  induction o as [|[k' v'] r IH]; cbn [set_prop map fst app]; intros H;
    [reflexivity|].
  destruct (String.eqb_spec k k') as [->|Hne].
  - destruct H. now left.
  - rewrite IH; [reflexivity|]. intros Hin. apply H. now right.
Qed.

(** The groups that become a property of the object. *)
Lemma reduce_distinct (groups : list (option string * Z)) : forall acc,
  NoDup (map fst acc ++ map (fun g => key_string (fst g)) groups) ->
  fold_left (fun acc item => obj_set (key_string (fst item)) (snd item) acc)
            groups acc
  = acc ++ map (fun g => (key_string (fst g), snd g))
               (filter (fun g => negb (String.eqb (key_string (fst g)) "__proto__"))
                       groups).
Proof.
  induction groups as [|[k n] r IH]; intros acc Hn;
    cbn [fold_left map filter fst snd].
  - now rewrite app_nil_r.
  - cbn [map fst] in Hn.
    destruct (String.eqb_spec (key_string k) "__proto__") as [E|N]; cbn [negb].
    + unfold obj_set at 2. rewrite E. cbn [String.eqb Ascii.eqb Bool.eqb].
      apply IH. now apply NoDup_remove_1 in Hn.
    + rewrite (obj_set_new _ _ _ N).
      2:{ apply NoDup_remove_2 in Hn. intros Hin. apply Hn, in_or_app. now left. }
      rewrite IH.
      * cbn [map fst snd]. now rewrite <- app_assoc.
      * rewrite map_app, <- app_assoc. exact Hn.
Qed.

Lemma NoDup_key_string (ks : list (option string)) :
  NoDup ks -> Forall (fun k => k <> None) ks -> NoDup (map key_string ks).
Proof.
  induction 1 as [|k r Hk Hr IH]; intros Hall; simpl; [constructor|].
  inversion Hall as [|? ? Hk0 Hall']; subst.
  constructor; [|now apply IH].
  intros Hin. apply in_map_iff in Hin as (k' & E & Hin').
  rewrite Forall_forall in Hall'. pose proof (Hall' k' Hin') as Hk'.
  destruct k as [x|], k' as [y|]; try congruence.
  simpl in E. subst. contradiction.
Qed.

(** The property of name [s] of the object built from a [groupBy] on a
    column without [NULL]: the number of rows whose value is [s], or no
    property when there is none; and no property of the name [__proto__],
    whatever the rows. *)
Lemma reduce_group_count (s : string) (keys : list (option string)) :
  Forall (fun k => k <> None) keys ->
  prop_of s (reduce_counts (group_count keys))
  = if String.eqb s "__proto__" then None
    else count_prop (occurrences (Some s) keys).
Proof.
  intros Hall.
  destruct (group_count_keys keys) as [Hd Hin].
  assert (Hsome : Forall (fun k => k <> None) (map fst (group_count keys))).
  { apply Forall_forall. intros x Hx. rewrite Forall_forall in Hall.
    now apply Hall, Hin. }
  unfold reduce_counts. rewrite reduce_distinct.
  2:{ cbn [map app]. rewrite <- (map_map fst key_string).
      now apply NoDup_key_string. }
  cbn [app].
  transitivity (if String.eqb s "__proto__" then None
                else group_of (Some s) (group_count keys)).
  - unfold prop_of, group_of. clear Hd Hin.
    induction (group_count keys) as [|[k n] r IH].
    + now destruct (String.eqb s "__proto__").
    + inversion Hsome as [|? ? Hk Hr]; subst.
      destruct k as [x|]; [|now destruct Hk].
      cbn [map filter find fst snd key_string opt_string_eqb].
      destruct (String.eqb_spec x "__proto__") as [->|Nx]; cbn [negb].
      * rewrite (IH Hr).
        destruct (String.eqb s "__proto__"); reflexivity.
      * cbn [map find fst snd key_string].
        rewrite (String.eqb_sym x s).
        destruct (String.eqb_spec s x) as [->|Nsx]; cbn [option_map snd].
        -- apply String.eqb_neq in Nx. now rewrite Nx.
        -- now apply IH.
  - unfold group_count. now rewrite group_of_fold.
Qed.

Lemma filter_length_mono {A} (f g : A -> bool) (l : list A) :
  (forall x, f x = true -> g x = true) ->
  List.length (filter f l) <= List.length (filter g l).
Proof.
  intros H. induction l as [|x r IH]; simpl; [lia|].
  destruct (f x) eqn:Hf.
  - rewrite (H x Hf). simpl. lia.
  - destruct (g x); simpl; lia.
Qed.

Lemma filter_all {A} (f : A -> bool) (l : list A) :
  (forall x, f x = true) -> filter f l = l.
Proof.
  intros H. induction l as [|x r IH]; simpl; [reflexivity|].
  now rewrite H, IH.
Qed.

Lemma count_since_le (t1 t2 : Z) (d : DB) :
  (t2 <= t1)%Z -> count_since t1 d <= count_since t2 d.
Proof.
  intros H. unfold count_since. apply filter_length_mono.
  intros x Hx. apply Z.leb_le in Hx. apply Z.leb_le. lia.
Qed.

Lemma count_since_total (t : Z) (d : DB) :
  count_since t d <= List.length (leads d).
Proof.
  unfold count_since. induction (leads d) as [|x r IH]; simpl; [lia|].
  destruct (t <=? dataCaptura x)%Z; simpl; lia.
Qed.

(** X14.  With a valid key and a store that answers the seven queries, the
    statistics answer 200 with: the number of leads; the numbers of leads
    captured since local midnight, within seven days and within thirty
    days, the second at most the third and all at most the total; and an
    object [porStatus] whose property [s] is the number of leads in status
    [s], absent when there is none.  The name [__proto__] is apart: the
    object never gets a property of that name. *)
Theorem get_stats_counts (cfg : Config) (req : Request) (o : Oracle) (d : DB) :
  key_matches cfg (query req "key") ->
  (forall i, i < 7 -> reject (o i) = false) ->
  exists porStatus porOrigem porUtmSource,
    let total := List.length (leads d) in
    let hoje := count_since (local_midnight req) d in
    let semana := count_since (date_now req - 604800000) d in
    let mes := count_since (date_now req - 2592000000) d in
    run (get_stats cfg req) o d
    = (inr (mkResponse 200
              (Stats (Z.of_nat total) (Z.of_nat hoje) (Z.of_nat semana)
                     (Z.of_nat mes) porStatus porOrigem porUtmSource)), d)
    /\ semana <= mes <= total /\ hoje <= total
    /\ (forall s, s <> "__proto__" ->
          prop_of s porStatus = count_prop (count_status s d))
    /\ prop_of "__proto__" porStatus = None.
Proof.
  intros Hk Hr. apply key_matches_accepted in Hk.
  unfold get_stats. cbv zeta. rewrite (accepted_not_unauthorized _ _ Hk).
  cbn [try_catch bind start settle run exec].
  unfold lead_count, lead_count_since, lead_groupBy, shift.
  cbn [where_filter w_status w_origem w_search].
  rewrite !Hr by lia.
  cbn [try_catch bind settle run].
  assert (Hkeys : Forall (fun k => k <> None) (map (group_key ByStatus) (leads d))).
  { apply Forall_forall. intros k Hin.
    apply in_map_iff in Hin as (l & <- & _). discriminate. }
  do 3 eexists. split; [|split; [|split; [|split]]].
  - unfold count_since.
    change (7 * 24 * 60 * 60 * 1000)%Z with 604800000%Z.
    change (30 * 24 * 60 * 60 * 1000)%Z with 2592000000%Z.
    rewrite (filter_all (fun _ : Lead => true && true && true) (leads d)
                        (fun _ => eq_refl)).
    reflexivity.
  - split; [apply count_since_le; lia | apply count_since_total].
  - apply count_since_total.
  - intros s Hs. rewrite (reduce_group_count s _ Hkeys).
    apply String.eqb_neq in Hs. rewrite Hs.
    f_equal. unfold occurrences, count_status. clear Hkeys.
    induction (leads d) as [|x r IH]; [reflexivity|].
    cbn [map filter group_key opt_string_eqb].
    rewrite (String.eqb_sym s (status x)).
    destruct (String.eqb (status x) s); cbn [List.length]; now rewrite IH.
  - now rewrite (reduce_group_count "__proto__" _ Hkeys).
Qed.

(** Four leads captured at times 1 to 4, one of them converted and one
    whose status column holds [__proto__]: two properties. *)
Lemma get_stats_counts_witness :
  let req := mkRequest (obj []) (obj [("key", JStr "mente-milionaria-2024")])
                       (fun _ => "") (fun _ => None) None 3 2 in
  let d := mkDB [sample_lead 1; set_status "convertido" 9 (sample_lead 2);
                 sample_lead 3; set_status "__proto__" 9 (sample_lead 4)] [] in
  exists porStatus porOrigem porUtmSource,
    run (get_stats (mkConfig None) req) (calm "s" 10) d
    = (inr (mkResponse 200
              (Stats 4 3 4 4 porStatus porOrigem porUtmSource)), d)
    /\ prop_of "novo" porStatus = Some 2%Z
    /\ prop_of "convertido" porStatus = Some 1%Z
    /\ prop_of "contatado" porStatus = None
    /\ prop_of "__proto__" porStatus = None.
Proof.
  destruct (get_stats_counts (mkConfig None)
              (mkRequest (obj []) (obj [("key", JStr "mente-milionaria-2024")])
                         (fun _ => "") (fun _ => None) None 3 2)
              (calm "s" 10)
              (mkDB [sample_lead 1; set_status "convertido" 9 (sample_lead 2);
                     sample_lead 3; set_status "__proto__" 9 (sample_lead 4)] []))
    as (ps & po & pu & Hrun & _ & _ & Hprop & Hproto);
    [right; reflexivity | reflexivity |].
  exists ps, po, pu. split; [exact Hrun|].
  split; [now rewrite Hprop|]. split; [now rewrite Hprop|].
  split; [now rewrite Hprop | exact Hproto].
Defined.

Example stats_of_four :
  fst (run (get_stats (mkConfig None)
              (mkRequest (obj []) (obj [("key", JStr "mente-milionaria-2024")])
                         (fun _ => "") (fun _ => None) None 3 2))
           (calm "s" 10)
           (mkDB [sample_lead 1; set_status "convertido" 9 (sample_lead 2);
                  sample_lead 3; set_status "__proto__" 9 (sample_lead 4)] []))
  = inr (mkResponse 200
           (Stats 4 3 4 4 [("novo", 2%Z); ("convertido", 1%Z)]
                  [("website", 4%Z)] [])).
Proof. reflexivity. Qed.

(* ===================================================================== *)
(** ** GET /api/leads: filters, bounds and defaults                       *)
(* ===================================================================== *)

Lemma in_slice {A} (n m : nat) (l : list A) (x : A) :
  In x (firstn n (skipn m l)) -> In x l.
Proof.
  intros H. rewrite <- (firstn_skipn m l). apply in_or_app. right.
  rewrite <- (firstn_skipn n (skipn m l)). apply in_or_app. now left.
Qed.

(** What a lead that the listing is about looks like. *)
Lemma matching_sound (st og sr : option string) (l : Lead) :
  matching st og sr l = true ->
  (forall s, st = Some s -> status l = s)
  /\ (forall s, og = Some s -> origem l = Some s)
  /\ (forall s, sr = Some s ->
        exists a b,
          toLowerCase (nome l) = (a ++ toLowerCase s ++ b)%string
          \/ toLowerCase (email l) = (a ++ toLowerCase s ++ b)%string).
Proof.
  unfold matching. rewrite !andb_true_iff. intros [[H1 H2] H3].
  repeat split; intros s ->.
  - now apply String.eqb_eq.
  - destruct (origem l) as [x|]; [|discriminate].
    cbn [opt_string_eqb] in H2. apply String.eqb_eq in H2. now subst.
  - apply orb_true_iff in H3 as [H|H]; apply includes_spec in H as (a & b & E);
      exists a, b; [now left | now right].
Qed.

(** X15.  Under the conditions of a successful listing, the answer holds at
    most [limit] rows; every row is the projection of a stored lead of the
    status and the source asked for, whose name or e-mail holds the search
    text, letter case apart, when that text has no wild card; and a page
    that starts at or beyond the number of such leads is an empty list, the
    total being reported all the same. *)
Theorem get_leads_rows (cfg : Config) (req : Request) (o : Oracle) (d : DB)
    (page limit : Z) (st og sr : option string) :
  key_matches cfg (query req "key") ->
  parseInt (with_default (JNum "1") (query req "page")) = Int page ->
  parseInt (with_default (JNum "20") (query req "limit")) = Int limit ->
  (1 <= page)%Z -> (1 <= limit <= 2147483647)%Z ->
  ((page - 1) * limit <= 2147483647)%Z ->
  filter_param (query req "status") st ->
  filter_param (query req "origem") og ->
  filter_param (query req "search") sr ->
  (forall s, sr = Some s -> all_chars (fun c => ~ wildcard c) s) ->
  reject (o 0) = false -> reject (o 1) = false ->
  exists data totalPages,
    let total := Z.of_nat (List.length (filter (matching st og sr) (leads d))) in
    run (get_leads cfg req) o d
    = (inr (mkResponse 200
              (LeadList data total (Some page) (Some limit) (Some totalPages)
                 (query req "status", query req "search", query req "origem"))),
       d)
    /\ (Z.of_nat (List.length data) <= limit)%Z
    /\ (forall r, In r data ->
          exists l, In l (leads d) /\ r = select_row l
            /\ (forall s, st = Some s -> r_status r = s)
            /\ (forall s, og = Some s -> r_origem r = Some s)
            /\ (forall s, sr = Some s ->
                  exists a b,
                    toLowerCase (r_nome r) = (a ++ toLowerCase s ++ b)%string
                    \/ toLowerCase (r_email r) = (a ++ toLowerCase s ++ b)%string))
    /\ ((total <= (page - 1) * limit)%Z -> data = []).
Proof.
  intros Hk Hp Hl Hp1 Hl1 Hoff Hst Hog Hsr Hplain Hr0 Hr1.
  destruct (get_leads_page cfg req o d page limit st og sr
              (key_matches_accepted _ _ Hk) Hp Hl Hp1 Hl1 Hoff Hst Hog Hsr
              Hplain Hr0 Hr1)
    as (c & Hrun & _).
  eexists. exists c. cbv zeta. split; [exact Hrun|]. split; [|split].
  - rewrite length_map, length_firstn. lia.
  - intros r Hr. apply in_map_iff in Hr as (l & <- & Hin).
    apply in_slice in Hin.
    apply (Permutation_in _ (order_desc_perm _)) in Hin.
    apply filter_In in Hin as [Hin Hf].
    exists l. split; [exact Hin|]. split; [reflexivity|].
    exact (matching_sound st og sr l Hf).
  - intros Ht. rewrite skipn_all2; [now destruct (Z.to_nat limit)|].
    rewrite order_desc_length. lia.
Qed.

(** Six leads, those of even rank in status [contatado];
    [status=contatado&search=L00@]: the one row is in that status and its
    e-mail holds [l00@]. *)
Lemma get_leads_rows_witness :
  exists data totalPages,
    run (get_leads (mkConfig None)
           (mk_request [] [("key", JStr "mente-milionaria-2024");
                           ("status", JStr "contatado");
                           ("search", JStr "L00@")] ""))
        (calm "q" 100) (mixed_db 6)
    = (inr (mkResponse 200
              (LeadList data 1%Z (Some 1%Z) (Some 20%Z) (Some totalPages)
                 (JStr "contatado", JStr "L00@", JUndefined))), mixed_db 6)
    /\ data <> []
    /\ (forall r, In r data ->
          r_status r = "contatado"
          /\ exists a b,
               toLowerCase (r_nome r) = (a ++ "l00@" ++ b)%string
               \/ toLowerCase (r_email r) = (a ++ "l00@" ++ b)%string).
Proof.
  destruct (get_leads_rows (mkConfig None)
              (mk_request [] [("key", JStr "mente-milionaria-2024");
                              ("status", JStr "contatado");
                              ("search", JStr "L00@")] "")
              (calm "q" 100) (mixed_db 6) 1%Z 20%Z
              (Some "contatado") None (Some "L00@"))
    as (data & pages & Hrun & _ & Hrows & _).
  - right. reflexivity.
  - reflexivity.
  - reflexivity.
  - lia.
  - lia.
  - lia.
  - split; [reflexivity | discriminate].
  - left. reflexivity.
  - split; [reflexivity | discriminate].
  - intros s E. injection E as <-.
    repeat split; unfold wildcard; cbn; lia.
  - reflexivity.
  - reflexivity.
  - exists data, pages.
    split; [etransitivity; [exact Hrun | vm_compute; reflexivity]|]. split.
    + intros ->. vm_compute in Hrun. discriminate Hrun.
    + intros r Hr. destruct (Hrows r Hr) as (l & _ & _ & Hs & _ & Hq).
      split; [now apply Hs | exact (Hq "L00@" eq_refl)].
Defined.

(** X16.  A listing without [page] and [limit] is the first page of twenty:
    with a valid key, filters given as texts (a search text without wild
    card) and a store that answers, the answer holds the twenty most
    recent of the leads asked for (all of them when there are fewer), with
    [page = 1] and [limit = 20]. *)
Theorem get_leads_defaults (cfg : Config) (req : Request) (o : Oracle) (d : DB)
    (st og sr : option string) :
  key_matches cfg (query req "key") ->
  query req "page" = JUndefined ->
  query req "limit" = JUndefined ->
  filter_param (query req "status") st ->
  filter_param (query req "origem") og ->
  filter_param (query req "search") sr ->
  (forall s, sr = Some s -> all_chars (fun c => ~ wildcard c) s) ->
  reject (o 0) = false -> reject (o 1) = false ->
  exists totalPages,
    run (get_leads cfg req) o d
    = (inr (mkResponse 200
              (LeadList (map select_row
                             (firstn 20 (order_desc
                                (filter (matching st og sr) (leads d)))))
                 (Z.of_nat (List.length (filter (matching st og sr) (leads d))))
                 (Some 1%Z) (Some 20%Z) (Some totalPages)
                 (query req "status", query req "search", query req "origem"))),
       d)
    /\ ((totalPages - 1) * 20
         < Z.of_nat (List.length (filter (matching st og sr) (leads d)))
         <= totalPages * 20)%Z.
Proof.
  intros Hk Hp Hl Hst Hog Hsr Hplain Hr0 Hr1.
  destruct (get_leads_page cfg req o d 1 20 st og sr
              (key_matches_accepted _ _ Hk)) as (c & Hrun & Hb); auto;
    try (rewrite ?Hp, ?Hl; reflexivity); try lia.
  exists c. split; [exact Hrun | exact Hb].
Qed.

(** Fifty leads, those of even rank in status [contatado];
    [status=contatado] alone: the twenty most recent of the 25 leads in
    that status, on the first of two pages. *)
Lemma get_leads_defaults_witness :
  exists data,
    run (get_leads (mkConfig None)
           (mk_request [] [("key", JStr "mente-milionaria-2024");
                           ("status", JStr "contatado")] ""))
        (calm "q" 100) (mixed_db 50)
    = (inr (mkResponse 200
              (LeadList data 25%Z (Some 1%Z) (Some 20%Z) (Some 2%Z)
                 (JStr "contatado", JUndefined, JUndefined))),
       mixed_db 50)
    /\ map r_dataCaptura data
       = [50; 48; 46; 44; 42; 40; 38; 36; 34; 32;
          30; 28; 26; 24; 22; 20; 18; 16; 14; 12]%Z.
Proof.
  destruct (get_leads_defaults (mkConfig None)
              (mk_request [] [("key", JStr "mente-milionaria-2024");
                              ("status", JStr "contatado")] "")
              (calm "q" 100) (mixed_db 50) (Some "contatado") None None)
    as (pages & Hrun & _).
  - right. reflexivity.
  - reflexivity.
  - reflexivity.
  - split; [reflexivity | discriminate].
  - left. reflexivity.
  - left. reflexivity.
  - discriminate.
  - reflexivity.
  - reflexivity.
  - assert (E : pages = 2%Z) by (vm_compute in Hrun; now injection Hrun).
    subst pages.
    exists (map select_row
              (firstn 20 (order_desc
                 (filter (matching (Some "contatado") None None)
                         (leads (mixed_db 50)))))).
    split; [etransitivity; [exact Hrun|] |]; vm_compute; reflexivity.
Defined.

(* ===================================================================== *)
(** ** Phones whose area code is 55                                       *)
(* ===================================================================== *)

Lemma prefix_length (p : string) : forall s,
  String.prefix p s = true -> String.length p <= String.length s.
Proof.
  induction p as [|a p IH]; intros [|b s]; cbn [String.prefix String.length];
    try lia; try discriminate.
  destruct (ascii_dec a b); [|discriminate].
  intros H. apply IH in H. lia.
Qed.

(** X17.  A phone whose digits begin with [55] is always read as carrying
    the country code: when it has at most eleven digits (a national number
    of area code 55) it is rejected, and it is accepted exactly when twelve
    or thirteen digits are given. *)
Theorem isValidPhone_leading_55 (s : string) :
  startsWith "55" (strip_non_digits s) = true ->
  (String.length (strip_non_digits s) <= 11 -> isValidPhone (JStr s) = false)
  /\ (isValidPhone (JStr s) = true <->
      12 <= String.length (strip_non_digits s) <= 13).
Proof.
  intros Hp.
  assert (Hiff : isValidPhone (JStr s) = true <->
                 12 <= String.length (strip_non_digits s) <= 13).
  { rewrite isValidPhone_string. cbv zeta. rewrite length_substring_from, Hp.
    assert (Hlen : 2 <= String.length (strip_non_digits s)).
    { exact (prefix_length "55" _ Hp). }
    split.
    - intros [[_ H]|[H _]]; [lia | discriminate].
    - intros H. left. split; [reflexivity | lia]. }
  split; [|exact Hiff].
  intros Hle. apply not_true_is_false. intros E. apply Hiff in E. lia.
Qed.

(** A mobile number of area code 55, with its usual punctuation. *)
Lemma isValidPhone_leading_55_witness :
  (String.length (strip_non_digits "(55) 99988-7766") <= 11 ->
   isValidPhone (JStr "(55) 99988-7766") = false)
  /\ (isValidPhone (JStr "(55) 99988-7766") = true <->
      12 <= String.length (strip_non_digits "(55) 99988-7766") <= 13).
Proof.
  apply (isValidPhone_leading_55 "(55) 99988-7766"). reflexivity.
Defined.

(* ===================================================================== *)
(** ** POST /api/leads/:leadId/conversao: what a 201 means                *)
(* ===================================================================== *)

(** X18.  The conversion handler answers 201 only after both writes: the
    Conversion row of the answer is then the last row of [conversoes], it
    carries the identifier of the path, its [valor] is [NULL] when the
    [valor] of the body is falsy (absent, empty, or the number 0) and the
    parsed number otherwise, and the lead of that identifier exists with
    status ['convertido']. *)
Theorem post_conversao_created (cfg : Config) (req : Request) (o : Oracle)
    (d d' : DB) (resp : Response) :
  run (post_conversao cfg req) o d = (inr resp, d') ->
  http_status resp = 201 ->
  exists c l,
    json resp = ConversaoRegistered "Conversão registrada com sucesso" c
    /\ conversoes d' = conversoes d ++ [c]
    /\ leadId c = params req "leadId"
    /\ body req "tipo" = JStr (tipo c)
    /\ (falsy (body req "valor") = true -> valor c = None)
    /\ (falsy (body req "valor") = false ->
        valor c = Some (ParseFloat (body req "valor")))
    /\ find_lead_by_id (params req "leadId") d' = Some l
    /\ status l = "convertido"
    /\ exists l0, find_lead_by_id (params req "leadId") d = Some l0
                  /\ frozen l = frozen l0.
Proof.
  intros Hrun Hst.
  destruct (unauthorized cfg (query req "key")) eqn:Hu.
  { unfold post_conversao in Hrun. cbv zeta in Hrun. rewrite Hu in Hrun.
    simpl in Hrun. injection Hrun as <- _. discriminate. }
  rewrite (post_conversao_unfold cfg req Hu) in Hrun.
  cbn [try_catch bind prisma start settle run exec] in Hrun.
  unfold conversao_create in Hrun.
  cbn [conversao_data in_tipo in_descricao in_leadId in_valor] in Hrun.
  destruct (body req "tipo") as [| | | | t |] eqn:Ht;
    try (simpl in Hrun; injection Hrun as <- _; discriminate).
  cbn [req_text] in Hrun.
  destruct (opt_text None (body req "descricao")) as [ds|];
    [|simpl in Hrun; injection Hrun as <- _; discriminate].
  destruct (reject (o 0));
    [simpl in Hrun; injection Hrun as <- _; discriminate|].
  destruct (existsb _ (conversoes d));
    [simpl in Hrun; injection Hrun as <- _; discriminate|].
  cbn [try_catch bind settle run exec req_text] in Hrun.
  unfold lead_update_status, shift in Hrun.
  destruct (reject (o 1));
    [simpl in Hrun; injection Hrun as <- _; discriminate|].
  unfold find_lead_by_id in *. cbn [leads] in Hrun.
  destruct (find (fun l => String.eqb (id l) (params req "leadId")) (leads d))
    as [l0|] eqn:Hl;
    [|simpl in Hrun; injection Hrun as <- _; discriminate].
  cbn [try_catch bind settle run] in Hrun. injection Hrun as <- <-.
  eexists. exists (set_status "convertido" (now (o 1)) l0).
  cbn [json conversoes leads leadId tipo valor]. unfold truthy.
  repeat split.
  - intros ->. reflexivity.
  - intros ->. reflexivity.
  - apply (find_after_update _ l0 (set_status "convertido" (now (o 1))));
      [reflexivity | exact Hl].
  - exists l0. split; reflexivity.
Qed.

(** A conversion sent with [valor: 0]. *)
Lemma post_conversao_created_witness :
  let req := mk_request [("tipo", JStr "venda"); ("valor", JNum "0")]
                        [("key", JStr "mente-milionaria-2024")] "id0" in
  let d := sample_db 2 in
  let d' := snd (run (post_conversao (mkConfig None) req) (calm "c" 50) d) in
  exists c l,
    ConversaoRegistered "Conversão registrada com sucesso"
                        (mkConversao "c0" "id0" "venda" None None 50)
    = ConversaoRegistered "Conversão registrada com sucesso" c
    /\ conversoes d' = conversoes d ++ [c]
    /\ leadId c = "id0"
    /\ JStr "venda" = JStr (tipo c)
    /\ (falsy (JNum "0") = true -> valor c = None)
    /\ (falsy (JNum "0") = false -> valor c = Some (ParseFloat (JNum "0")))
    /\ find_lead_by_id "id0" d' = Some l
    /\ status l = "convertido"
    /\ exists l0, find_lead_by_id "id0" d = Some l0 /\ frozen l = frozen l0.
Proof.
  exact (post_conversao_created (mkConfig None)
           (mk_request [("tipo", JStr "venda"); ("valor", JNum "0")]
                       [("key", JStr "mente-milionaria-2024")] "id0")
           (calm "c" 50) (sample_db 2) _ _ eq_refl eq_refl).
Defined.

(** X19.  A conversion whose [tipo] is not a string (absent, [null], a
    number) is answered 500 [INTERNAL_ERROR] for an accepted key, whether
    the lead exists or not, and nothing is written. *)
Theorem post_conversao_tipo_required (cfg : Config) (req : Request) (o : Oracle)
    (d : DB) :
  key_accepted cfg (query req "key") ->
  is_string (body req "tipo") = false ->
  run (post_conversao cfg req) o d = (inr res_internal_error, d).
Proof.
  intros Hk Ht.
  rewrite (post_conversao_unfold cfg req (accepted_not_unauthorized _ _ Hk)).
  cbn [try_catch bind prisma start settle run exec].
  unfold conversao_create. cbn [conversao_data in_tipo].
  destruct (body req "tipo"); try discriminate Ht; reflexivity.
Qed.

Lemma post_conversao_tipo_required_witness :
  run (post_conversao (mkConfig None)
         (mk_request [("valor", JStr "10")]
                     [("key", JStr "mente-milionaria-2024")] "id0"))
      (calm "c" 50) (sample_db 2)
  = (inr res_internal_error, sample_db 2).
Proof.
  apply (post_conversao_tipo_required (mkConfig None)
           (mk_request [("valor", JStr "10")]
                       [("key", JStr "mente-milionaria-2024")] "id0")
           (calm "c" 50) (sample_db 2));
    [right; reflexivity | reflexivity].
Defined.

(* ===================================================================== *)
(** ** Two submissions of one e-mail in flight                            *)
(* ===================================================================== *)

Lemma count_email_frozen (e : string) (d : DB) :
  count_email e d
  = List.length
      (filter (fun fz => String.eqb (toLowerCase (snd (fst (fst (fst (fst (fst fz)))))))
                                    (toLowerCase e))
              (map frozen (leads d))).
Proof.
  unfold count_email. induction (leads d) as [|x r IH]; [reflexivity|].
  cbn [map filter frozen fst snd].
  destruct (String.eqb (toLowerCase (email x)) (toLowerCase e));
    cbn [List.length]; now rewrite IH.
Qed.

(** No storage call lowers the number of leads of an e-mail. *)
Lemma exec_count_email (e : string) (op : Op) (env : CallEnv) (d : DB) :
  count_email e d <= count_email e (snd (exec op env d)).
Proof.
  destruct (exec_grows op env d) as (la & lc & H & _).
  rewrite !count_email_frozen, H, filter_app, length_app. lia.
Qed.

Lemma count_email_snoc (e : string) (d : DB) (l : Lead) (cs : list Conversao) :
  email l = toLowerCase e ->
  count_email e (mkDB (leads d ++ [l]) cs) = count_email e d + 1.
Proof.
  intros H. unfold count_email. cbn [leads].
  rewrite filter_app, length_app. simpl.
  now rewrite H, toLowerCase_idem, String.eqb_refl.
Qed.

Lemma unique_count (x : string) (l : list string) :
  NoDup l -> List.length (filter (String.eqb x) l) <= 1.
Proof.
  induction 1 as [|y r Hy Hr IH]; simpl; [lia|].
  destruct (String.eqb_spec x y) as [->|]; [|exact IH]. simpl.
  rewrite filter_none; [simpl; lia|].
  intros z Hz. destruct (String.eqb_spec y z) as [->|]; [contradiction | reflexivity].
Qed.

Lemma emails_unique_count (e : string) (d : DB) :
  emails_unique d -> count_email e d <= 1.
Proof.
  unfold emails_unique, count_email. intros H.
  apply (unique_count (toLowerCase e)) in H.
  replace (List.length (filter _ (leads d)))
    with (List.length (filter (String.eqb (toLowerCase e))
                              (map (fun l => toLowerCase (email l)) (leads d))));
    [exact H | clear H].
  induction (leads d) as [|x r IH]; [reflexivity|].
  cbn [map filter]. rewrite (String.eqb_sym (toLowerCase e)).
  destruct (String.eqb (toLowerCase (email x)) (toLowerCase e));
    cbn [List.length]; now rewrite IH.
Qed.

(** The ingestion handler pays for its 201. *)
Lemma post_leads_pays (req : Request) (e0 e : string) :
  sanitizeInput (body req "email") = JStr e0 ->
  toLowerCase e0 = toLowerCase e ->
  pays e (post_leads req) /\ credit (post_leads req) = 0.
Proof.
  intros He Hlow.
  destruct (validated req) eqn:Hv.
  2:{ destruct (post_leads_not_validated req Hv) as (m & c & E).
      rewrite E. split; [exact I | reflexivity]. }
  destruct (validated_telefone req Hv) as (t & Ht).
  assert (Hmail : trim (toLowerCase e0) = toLowerCase e).
  { rewrite <- Hlow. apply valid_email_stored_as_looked_up.
    apply validated_inv in Hv as (_ & _ & H3 & _).
    unfold invalid_email in H3. rewrite He in H3. now apply negb_false_iff in H3. }
  rewrite (post_leads_validated req e0 Hv He). split; [|reflexivity].
  cbn [pays]. split.
  - intros env d. cbn [exec]. unfold lead_findUnique_email.
    destruct (reject env); cbn [fst snd settle bind try_catch post_leads_catch
                                  is_P2002 credit created]; [simpl; lia|].
    destruct (find_lead_by_email (toLowerCase e0) d);
      cbn [post_leads_insert try_catch credit created]; [simpl; lia|].
    rewrite Ht.
    destruct (sanitizeInput (body req "nome")); cbn; lia.
  - intros [err|[l|]]; cbn [settle bind try_catch post_leads_insert]; try exact I.
    { unfold post_leads_catch. destruct (is_P2002 (PrismaErr err)); exact I. }
    rewrite Ht.
    destruct (sanitizeInput (body req "nome")) as [| | | | n |];
      cbn [str_method bind try_catch post_leads_catch is_P2002 pays]; try exact I.
    cbn [prisma start bind try_catch pays]. split.
    + intros env d. cbn [exec].
      destruct (lead_create_cases
                  (lead_data req (trim n) (trim (toLowerCase e0)) (trim t)
                             (sanitizeInput (body req "origem"))) env d)
        as [(err & E) | (l & E & Hl & _)]; rewrite E; cbn [fst snd].
      * destruct err; cbn; lia.
      * cbn [settle bind try_catch credit created http_status].
        apply lead_of_input_email in Hl. cbn [lead_data in_email] in Hl.
        rewrite Hmail in Hl. rewrite (count_email_snoc e d l _ Hl).
        simpl. lia.
    + intros [err|l];
        cbn [settle bind try_catch post_leads_catch pays]; try exact I.
      unfold post_leads_catch. destruct (is_P2002 (PrismaErr err)); exact I.
Qed.

Lemma step_pays (e : string) (p : Prog Response) (env : CallEnv) (d : DB) :
  pays e p ->
  pays e (fst (step p env d))
  /\ count_email e d + credit (fst (step p env d))
     <= count_email e (snd (step p env d)) + credit p.
Proof.
  intros Hp. destruct p as [a | err | op k]; cbn [step fst snd].
  - split; [exact I | lia].
  - split; [exact I | lia].
  - destruct Hp as [Hc Hk]. specialize (Hc env d).
    destruct (exec op env d) as [r d1]. cbn [fst snd credit] in *.
    split; [apply Hk | lia].
Qed.

Lemma run_pays (e : string) (p : Prog Response) : forall o d,
  pays e p ->
  count_email e d + created (fst (run p o d))
  <= count_email e (snd (run p o d)) + credit p.
Proof.
  induction p as [a | err | op k IH]; intros o d Hp; cbn [run fst snd credit].
  - lia.
  - simpl. lia.
  - destruct Hp as [Hc Hk]. specialize (Hc (o 0) d).
    destruct (exec op (o 0) d) as [r d1]. cbn [fst snd] in *.
    specialize (IH r (shift o) d1 (Hk r)).
    assert (credit (k r) <= created (fst (run (k r) (shift o) d1))
            \/ credit (k r) = 0) as [H|H].
    { destruct (k r); cbn [credit run fst]; auto. }
    + pose proof (exec_count_email e op (o 0) d) as Hm.
      destruct (k r) as [a| |]; cbn [credit run fst snd] in *; lia.
    + lia.
Qed.

Lemma interleave_pays (e : string) (sched : list bool) :
  forall (p : Prog Response) (op_ : Oracle) (q : Prog Response) (oq : Oracle) (d : DB),
  pays e p -> pays e q ->
  let out := interleave sched p op_ q oq d in
  count_email e d + created (fst (fst out)) + created (snd (fst out))
  <= count_email e (snd out) + credit p + credit q.
Proof.
  induction sched as [|b sched IH]; intros p op_ q oq d Hp Hq; cbn [interleave].
  - pose proof (run_pays e p op_ d Hp) as H1.
    destruct (run p op_ d) as [ra d1]. cbn [fst snd] in H1.
    pose proof (run_pays e q oq d1 Hq) as H2.
    destruct (run q oq d1) as [rb d2]. cbn [fst snd] in *. lia.
  - destruct b.
    + destruct (step_pays e p (op_ 0) d Hp) as [Hp' H1].
      destruct (step p (op_ 0) d) as [p' d1]. cbn [fst snd] in *.
      specialize (IH p' (match p with Call _ _ => shift op_ | _ => op_ end)
                     q oq d1 Hp' Hq).
      cbv zeta in IH. lia.
    + destruct (step_pays e q (oq 0) d Hq) as [Hq' H1].
      destruct (step q (oq 0) d) as [q' d1]. cbn [fst snd] in *.
      specialize (IH p op_ q' (match q with Call _ _ => shift oq | _ => oq end)
                     d1 Hp Hq').
      cbv zeta in IH. lia.
Qed.

(** X20.  Two submissions whose e-mails are equal after lower-casing, in
    flight together on a store that keeps e-mails unique: whatever the order
    of their storage calls and whatever the store answers, at most one of
    them is answered 201, and none is when the e-mail is already stored. *)
Theorem concurrent_duplicates (r1 r2 : Request) (e1 e2 : string)
    (sched : list bool) (o1 o2 : Oracle) (d : DB) :
  db_inv d ->
  sanitizeInput (body r1 "email") = JStr e1 ->
  sanitizeInput (body r2 "email") = JStr e2 ->
  toLowerCase e1 = toLowerCase e2 ->
  let out := interleave sched (post_leads r1) o1 (post_leads r2) o2 d in
  count_email e1 d + created (fst (fst out)) + created (snd (fst out)) <= 1.
Proof.
  intros Hd H1 H2 Hlow out.
  destruct (post_leads_pays r1 e1 e1 H1 eq_refl) as [Hp1 Hc1].
  destruct (post_leads_pays r2 e2 e1 H2 (eq_sym Hlow)) as [Hp2 Hc2].
  pose proof (interleave_pays e1 sched _ o1 _ o2 d Hp1 Hp2) as Hpay.
  cbv zeta in Hpay. fold out in Hpay. rewrite Hc1, Hc2 in Hpay.
  assert (Hinv : db_inv (snd out)).
  { apply interleave_preserves; auto using post_leads_calls. }
  pose proof (emails_unique_count e1 _ (db_inv_unique _ Hinv)) as Hle.
  lia.
Qed.

(** Both submissions look the e-mail up before either inserts: one 201. *)
Lemma concurrent_duplicates_witness :
  let r1 := mk_request [("nome", JStr "Jo"); ("email", JStr "Jo@X.com");
                        ("telefone", JStr "11987654321")] [] "" in
  let r2 := mk_request [("nome", JStr "Ana"); ("email", JStr "jo@x.COM");
                        ("telefone", JStr "(11) 98765-4321")] [] "" in
  let out := interleave [true; false] (post_leads r1) (calm "a" 100)
                        (post_leads r2) (calm "b" 200) empty_db in
  count_email "Jo@X.com" empty_db
  + created (fst (fst out)) + created (snd (fst out)) <= 1.
Proof.
  apply (concurrent_duplicates
           (mk_request [("nome", JStr "Jo"); ("email", JStr "Jo@X.com");
                        ("telefone", JStr "11987654321")] [] "")
           (mk_request [("nome", JStr "Ana"); ("email", JStr "jo@x.COM");
                        ("telefone", JStr "(11) 98765-4321")] [] "")
           "Jo@X.com" "jo@x.COM" [true; false] (calm "a" 100) (calm "b" 200)
           empty_db);
    [split; constructor | reflexivity | reflexivity | reflexivity].
Defined.
